(** * UpdateCase: chunked file storage

    A shallow embedding of the chunk codec (package [chunking]), the
    in-memory node store (package [storage]) and the two HTTP services
    (the coordinator [StreamingAPIServer] and the storage node
    [MemoryStorageServer]), followed by the properties of the
    specification that concern them.

    Conventions of the embedding.
    - Go's [int] and [int64] are 64-bit two's complement integers: values
      are [Z], every arithmetic operator wraps explicitly ([Go.wrap64]).
      Only the counter of a [for] loop is incremented as a mathematical
      integer: it stays below the bound of the loop, itself an [int].
    - A Go function that may return an [error] or panic returns an
      [Go.outcome]: [Ok], [Err] or [Panic].
    - A byte slice is a [list byte]; where the code distinguishes the nil
      slice from an empty one (the [Data] field of a chunk) the field is an
      [option].
    - The standard library (SHA-256 with hex formatting, the base name of a
      path) is an interface, [Platform].
    - [make] panics on a negative length and on a length whose elements
      take more bytes than the run time allocates at once ([Go.maxAlloc]);
      within that limit the machine is taken to have the memory.
    - The client of a node writes a chunk id into the path of the URL as
      it is.  An id that is one plain path segment ([http.plainSegment])
      reaches the handler of the route [/chunks/:id] as its parameter;
      what a request returns for any other id depends on the URL parser
      and the router, and is an interface, [StorageClient.Routing]. *)

From Stdlib Require Import ZArith Lia.
From stdpp Require Import base option list sorting gmap sets strings pretty.

Open Scope Z_scope.

(** ** Go primitives *)

Module Go.

Abbreviation byte := Byte.byte.

Definition int64_min : Z := - 2 ^ 63.
Definition int64_max : Z := 2 ^ 63 - 1.

(** Two's complement wrap-around of a mathematical integer. *)
Definition wrap64 (z : Z) : Z := (z + 2 ^ 63) mod 2 ^ 64 - 2 ^ 63.

Definition in_int64 (z : Z) : Prop := int64_min ≤ z ≤ int64_max.

Definition add64 (a b : Z) : Z := wrap64 (a + b).
Definition sub64 (a b : Z) : Z := wrap64 (a - b).
Definition mul64 (a b : Z) : Z := wrap64 (a * b).

(** Run-time panics raised by the operations used in this program. *)
Inductive panic : Type :=
| PanicDivideByZero      (* integer divide by zero *)
| PanicMakeSliceLen      (* makeslice: len out of range *)
| PanicMakeSliceCap      (* makeslice: cap out of range *)
| PanicSliceBounds       (* slice bounds out of range *)
| PanicIndexOutOfRange.  (* index out of range *)

(** The errors built with [fmt.Errorf] in the program, one constructor
    per call site; a wrapped cause ([%w]) is an argument. *)
Inductive error : Type :=
(* chunking.ChunkFile *)
| ErrOpenFile
| ErrReadChunk (i : Z)
(* chunking.ReconstructFile *)
| ErrNoChunks
| ErrMissingChunk (i : Z)
| ErrCreateOutput
(* chunking.ValidateChunk *)
| ErrChunkDataMissing
| ErrChunkSizeMismatch
| ErrChunkChecksumMismatch
(* chunking.ValidateFileMetadata *)
| ErrChunkCountMismatch
| ErrWrongChunkIndex (expected got : Z)
| ErrChunkFileID (i : Z)
| ErrTotalSizeMismatch
(* storage.MemoryStorage *)
| ErrChunkNotFound
(* storage.StorageClient *)
| ErrCreateRequest
| ErrSendRequest
| ErrServerStatus (status : Z)
| ErrDecodeResponse
(* main.StreamingAPIServer *)
| ErrStoreChunk (chunkIndex serverIndex : Z) (cause : error)
| ErrGetChunk (chunkIndex serverIndex : Z) (cause : error).

Inductive outcome (A : Type) : Type :=
| Ok (a : A)
| Err (e : error)
| Panic (p : panic).
Arguments Ok {A} a.
Arguments Err {A} e.
Arguments Panic {A} p.

#[export] Instance outcome_ret : MRet outcome := fun A a => Ok a.
#[export] Instance outcome_bind : MBind outcome := fun A B f m =>
  match m with
  | Ok a => f a
  | Err e => Err e
  | Panic p => Panic p
  end.

(** [a / b] and [a % b] on signed integers: truncated towards zero,
    panicking when the divisor is zero. *)
Definition div64 (a b : Z) : outcome Z :=
  if decide (b = 0) then Panic PanicDivideByZero else Ok (wrap64 (Z.quot a b)).
Definition rem64 (a b : Z) : outcome Z :=
  if decide (b = 0) then Panic PanicDivideByZero else Ok (wrap64 (Z.rem a b)).

(** [len(s)]. *)
Definition len {A : Type} (s : list A) : Z := Z.of_nat (length s).

(** The most bytes that one allocation may take: [maxAlloc] of the run
    time, [1 << 48] on the 64-bit targets. *)
Definition maxAlloc : Z := 2 ^ 48.

(** [unsafe.Sizeof] of a value of the type, on a 64-bit target. *)
Class Sizeof (A : Type) := sizeof : Z.
Global Arguments sizeof A {_}.
Global Hint Mode Sizeof ! : typeclass_instances.

#[export] Instance byte_sizeof : Sizeof byte := 1.

(** [make([]T, n)]: [n] zero values.  The run time panics with
    "makeslice: len out of range" when [n] is negative or the [n]
    elements take more than [maxAlloc] bytes. *)
Definition make {A : Type} `{!Sizeof A} (zero : A) (n : Z) : outcome (list A) :=
  if decide (n < 0 ∨ maxAlloc < n * sizeof A) then Panic PanicMakeSliceLen
  else Ok (replicate (Z.to_nat n) zero).

(** [make([]T, len(s))] for a slice [s] of elements of the same type [T]:
    [s] exists, so its length is neither negative nor beyond the limit. *)
Definition make_len_of {A : Type} (zero : A) (s : list A) : list A :=
  replicate (length s) zero.

(** [make([]T, 0, n)]: an empty slice; a negative capacity panics.  The
    capacity asked for in this program is the number of bytes of chunks
    that are in memory. *)
Definition make_cap {A : Type} (n : Z) : outcome (list A) :=
  if decide (n < 0) then Panic PanicMakeSliceCap else Ok [].

(** [s[lo:hi]] with its bounds check.  The capacity of [s] is taken to
    be its length. *)
Definition slice {A : Type} (s : list A) (lo hi : Z) : outcome (list A) :=
  if decide (0 ≤ lo ∧ lo ≤ hi ∧ hi ≤ len s)
  then Ok (take (Z.to_nat (hi - lo)) (drop (Z.to_nat lo) s))
  else Panic PanicSliceBounds.

(** [s[i] = x] with its bounds check. *)
Definition set_index {A : Type} (s : list A) (i : Z) (x : A) : outcome (list A) :=
  if decide (0 ≤ i < len s) then Ok (<[Z.to_nat i := x]> s)
  else Panic PanicIndexOutOfRange.

(** The part of the standard library the program relies on.
    [sha256_hex d] is the SHA-256 digest of [d] in lower-case hexadecimal,
    which the program obtains in two ways: [fmt.Sprintf("%x", h.Sum(nil))]
    after writing [d] to [h := sha256.New()], and [fmt.Sprintf("%x",
    sha256.Sum256(d))].  [basename] is what [os.FileInfo.Name] reports
    for the path of an open file. *)
Class Platform := {
  sha256_hex : list byte → string;
  basename : string → string
}.

(** A file system: the regular files by path, and the paths at which
    no file can be created. *)
Record FileSystem := {
  fs_files : gmap string (list byte);
  fs_locked : gset string
}.

(** An open file: its bytes and the read offset. *)
Record File := {
  f_bytes : list byte;
  f_pos : nat
}.

(** [os.Open]: fails when there is no such file. *)
Definition os_Open (fs : FileSystem) (path : string) : option File :=
  d ← fs_files fs !! path; Some {| f_bytes := d; f_pos := 0 |}.

(** [file.Seek(0, 0)]. *)
Definition Seek0 (f : File) : File := {| f_bytes := f_bytes f; f_pos := 0 |}.

(** [io.Copy(w, file)]: everything from the offset to the end. *)
Definition io_Copy (f : File) : list byte * File :=
  (drop (f_pos f) (f_bytes f),
   {| f_bytes := f_bytes f; f_pos := length (f_bytes f) `max` f_pos f |}%nat).

(** [io.ReadFull(file, buf)]: fills [buf] or fails on a short read; an
    empty [buf] always succeeds. *)
Definition io_ReadFull (f : File) (buf : list byte) : option (list byte * File) :=
  let rest := drop (f_pos f) (f_bytes f) in
  if decide (length buf ≤ length rest)%nat
  then Some (take (length buf) rest,
             {| f_bytes := f_bytes f; f_pos := (f_pos f + length buf)%nat |})
  else None.

(** [os.Create]: truncates or creates the file. *)
Definition os_Create (fs : FileSystem) (path : string) : option FileSystem :=
  if decide (path ∈ fs_locked fs) then None
  else Some {| fs_files := <[path := []]> (fs_files fs); fs_locked := fs_locked fs |}.

(** [outputFile.Write(b)] on a file opened by [os_Create]: appends. *)
Definition file_Write (fs : FileSystem) (path : string) (b : list byte) : FileSystem :=
  {| fs_files := alter (λ d, d ++ b) path (fs_files fs); fs_locked := fs_locked fs |}.

End Go.

Import Go.

(** ** Package chunking *)

Module FileChunk.
Record t := mk {
  ID : string;
  Index : Z;
  FileID : string;
  Size : Z;
  Checksum : string;
  Data : option (list byte)
}.
(** The zero value of the struct. *)
Definition zero : t := mk "" 0 "" 0 "" None.
(** Three strings of 16 bytes, an [int] and an [int64] of 8 bytes, and a
    slice of 24 bytes. *)
#[global] Instance t_sizeof : Sizeof t := 88.
(** The bytes of [Data], a nil slice having none. *)
Definition payload (c : t) : list byte := default [] (Data c).
End FileChunk.

Module FileMetadata.
Record t := mk {
  ID : string;
  OriginalName : string;
  Size : Z;
  Checksum : string;
  ChunkCount : Z;
  Chunks : list FileChunk.t;
  ContentType : string
}.
End FileMetadata.

Module chunking.
Section chunking.
Context {platform : Platform}.

(** [fmt.Sprintf("%s_chunk_%d", fileID, i)]. *)
Definition chunkID (fileID : string) (i : Z) : string :=
  fileID +:+ "_chunk_" +:+ pretty i.

(** The body of the loop of [ChunkFile], [n] iterations from index [i]. *)
Fixpoint ChunkFile_loop (chunkCount chunkSize remainder : Z) (fileID : string)
    (n : nat) (i : Z) (file : File) (chunks : list FileChunk.t)
    : outcome (list FileChunk.t) :=
  match n with
  | O => Ok chunks
  | S n' =>
      let currentChunkSize :=
        if decide (i = sub64 chunkCount 1) then add64 chunkSize remainder
        else chunkSize in
      buf ← make Byte.x00 currentChunkSize;
      match io_ReadFull file buf with
      | None => Err (ErrReadChunk i)
      | Some (chunkData, file') =>
          let chunkChecksum := sha256_hex chunkData in
          let chunk := {|
            FileChunk.ID := chunkID fileID i;
            FileChunk.Index := i;
            FileChunk.FileID := fileID;
            FileChunk.Size := currentChunkSize;
            FileChunk.Checksum := chunkChecksum;
            FileChunk.Data := Some chunkData |} in
          chunks' ← set_index chunks i chunk;
          ChunkFile_loop chunkCount chunkSize remainder fileID n' (i + 1) file' chunks'
      end
  end.

(** [ChunkFile].  On a file that has been opened, [file.Stat] and
    [io.Copy] are taken to succeed; [fileInfo.Size()] is the number of
    bytes of the file. *)
Definition ChunkFile (fs : FileSystem) (filePath : string) (chunkCount : Z)
    (fileID : string) : outcome FileMetadata.t :=
  match os_Open fs filePath with
  | None => Err ErrOpenFile
  | Some file =>
      let fileSize := len (f_bytes file) in
      chunkSize ← div64 fileSize chunkCount;
      remainder ← rem64 fileSize chunkCount;
      let '(whole, file) := io_Copy (Seek0 file) in
      let fileChecksum := sha256_hex whole in
      chunks ← make FileChunk.zero chunkCount;
      chunks ← ChunkFile_loop chunkCount chunkSize remainder fileID
                 (Z.to_nat chunkCount) 0 (Seek0 file) chunks;
      Ok {| FileMetadata.ID := fileID;
            FileMetadata.OriginalName := basename filePath;
            FileMetadata.Size := fileSize;
            FileMetadata.Checksum := fileChecksum;
            FileMetadata.ChunkCount := chunkCount;
            FileMetadata.Chunks := chunks;
            FileMetadata.ContentType := "" |}
  end.

(** [chunks[i], chunks[j] = chunks[j], chunks[i]].  The loops below keep
    [i] and [j] within the slice, so that no index is out of range. *)
Definition swap (chunks : list FileChunk.t) (i j : nat) : list FileChunk.t :=
  match chunks !! i, chunks !! j with
  | Some a, Some b => <[i := b]> (<[j := a]> chunks)
  | _, _ => chunks
  end.

(** The inner loop of the sort of [ReconstructFile]: [n] iterations from
    index [j], comparing position [i] with positions [j], [j+1], ... *)
Fixpoint sort_inner (n i j : nat) (chunks : list FileChunk.t) : list FileChunk.t :=
  match n with
  | O => chunks
  | S n' =>
      let chunks' :=
        match chunks !! i, chunks !! j with
        | Some a, Some b =>
            if decide (FileChunk.Index a > FileChunk.Index b)
            then swap chunks i j else chunks
        | _, _ => chunks
        end in
      sort_inner n' i (S j) chunks'
  end.

(** The outer loop: [n] iterations from index [i]. *)
Fixpoint sort_outer (n i : nat) (chunks : list FileChunk.t) : list FileChunk.t :=
  match n with
  | O => chunks
  | S n' =>
      sort_outer n' (S i) (sort_inner (length chunks - S i) i (S i) chunks)
  end.

(** Both loops: the slice after [for i := 0; i < len(chunks); i++ { for j
    := i + 1; j < len(chunks); j++ { ... } }]. *)
Definition sortChunks (chunks : list FileChunk.t) : list FileChunk.t :=
  sort_outer (length chunks) 0 chunks.

(** [for i, chunk := range chunks { if chunk.Index != i { return ... } }]:
    the first position whose chunk does not carry that index. *)
Fixpoint checkIndices (i : Z) (chunks : list FileChunk.t) : option Z :=
  match chunks with
  | [] => None
  | chunk :: rest =>
      if decide (FileChunk.Index chunk ≠ i) then Some i
      else checkIndices (i + 1) rest
  end.

(** [for _, chunk := range chunks { outputFile.Write(chunk.Data) }]. *)
Fixpoint writeChunks (fs : FileSystem) (outputPath : string)
    (chunks : list FileChunk.t) : FileSystem :=
  match chunks with
  | [] => fs
  | chunk :: rest =>
      writeChunks (file_Write fs outputPath (FileChunk.payload chunk)) outputPath rest
  end.

(** [ReconstructFile]: the returned error ([None] is nil) and the file
    system it leaves.  The sort works in place, on the caller's slice;
    writing to the created file is taken to succeed. *)
Definition ReconstructFile (fs : FileSystem) (chunks : list FileChunk.t)
    (outputPath : string) : option error * FileSystem :=
  if decide (len chunks = 0) then (Some ErrNoChunks, fs)
  else
    let chunks := sortChunks chunks in
    match checkIndices 0 chunks with
    | Some i => (Some (ErrMissingChunk i), fs)
    | None =>
        match os_Create fs outputPath with
        | None => (Some ErrCreateOutput, fs)
        | Some fs' => (None, writeChunks fs' outputPath chunks)
        end
    end.

(** [ValidateChunk]. *)
Definition ValidateChunk (chunk : FileChunk.t) : option error :=
  match FileChunk.Data chunk with
  | None => Some ErrChunkDataMissing
  | Some data =>
      if decide (len data ≠ FileChunk.Size chunk) then Some ErrChunkSizeMismatch
      else
        let checksum := sha256_hex data in
        if decide (checksum ≠ FileChunk.Checksum chunk)
        then Some ErrChunkChecksumMismatch
        else None
  end.

(** The loop of [ValidateFileMetadata]: an error, or the accumulated
    [totalSize]. *)
Fixpoint ValidateFileMetadata_loop (id : string) (i totalSize : Z)
    (chunks : list FileChunk.t) : error + Z :=
  match chunks with
  | [] => inr totalSize
  | chunk :: rest =>
      if decide (FileChunk.Index chunk ≠ i)
      then inl (ErrWrongChunkIndex i (FileChunk.Index chunk))
      else if decide (FileChunk.FileID chunk ≠ id)
      then inl (ErrChunkFileID i)
      else ValidateFileMetadata_loop id (i + 1)
             (add64 totalSize (FileChunk.Size chunk)) rest
  end.

(** [ValidateFileMetadata]. *)
Definition ValidateFileMetadata (metadata : FileMetadata.t) : option error :=
  if decide (len (FileMetadata.Chunks metadata) ≠ FileMetadata.ChunkCount metadata)
  then Some ErrChunkCountMismatch
  else
    match ValidateFileMetadata_loop (FileMetadata.ID metadata) 0 0
            (FileMetadata.Chunks metadata) with
    | inl e => Some e
    | inr totalSize =>
        if decide (totalSize ≠ FileMetadata.Size metadata)
        then Some ErrTotalSizeMismatch
        else None
    end.

End chunking.
End chunking.

(** ** Package storage: the in-memory chunk store *)

Module MemoryStorage.

(** The [chunks] map; the read/write mutex makes every method atomic. *)
Record t := mk { chunks : gmap string FileChunk.t }.

(** [NewMemoryStorage]. *)
Definition NewMemoryStorage : t := mk ∅.

(** The private copy made on store and on get: the payload is copied
    into a fresh, non-nil slice. *)
Definition chunkCopy (chunk : FileChunk.t) : FileChunk.t :=
  {| FileChunk.ID := FileChunk.ID chunk;
     FileChunk.FileID := FileChunk.FileID chunk;
     FileChunk.Index := FileChunk.Index chunk;
     FileChunk.Data := Some (FileChunk.payload chunk);
     FileChunk.Checksum := FileChunk.Checksum chunk;
     FileChunk.Size := FileChunk.Size chunk |}.

Definition StoreChunk (ms : t) (chunk : FileChunk.t) : option error * t :=
  (None, mk (<[FileChunk.ID chunk := chunkCopy chunk]> (chunks ms))).

Definition GetChunk (ms : t) (chunkID : string) : outcome FileChunk.t :=
  match chunks ms !! chunkID with
  | None => Err ErrChunkNotFound
  | Some chunk => Ok (chunkCopy chunk)
  end.

Definition DeleteChunk (ms : t) (chunkID : string) : option error * t :=
  match chunks ms !! chunkID with
  | None => (Some ErrChunkNotFound, ms)
  | Some _ => (None, mk (delete chunkID (chunks ms)))
  end.

(** [ListChunks]: the ids of the stored chunks.  Go leaves the order of a
    map iteration unspecified; [map_to_list] fixes one. *)
Definition ListChunks (ms : t) : list string := (map_to_list (chunks ms)).*1.

(** [GetMemoryUsage]: [totalSize += int64(len(chunk.Data))] over the map
    (a wrapping sum, the same in every order of iteration). *)
Definition GetMemoryUsage (ms : t) : Z :=
  map_fold (λ _ chunk totalSize, add64 totalSize (len (FileChunk.payload chunk)))
    0 (chunks ms).

(** The map that [GetStorageInfo] returns, by key. *)
Record StorageInfo := {
  chunk_count : Z;
  total_size : Z;
  storage_type : string
}.

(** [GetStorageInfo]. *)
Definition GetStorageInfo (ms : t) : StorageInfo :=
  {| chunk_count := Z.of_nat (size (chunks ms));
     total_size := GetMemoryUsage ms;
     storage_type := "memory" |}.

(** [ClearAll]. *)
Definition ClearAll (ms : t) : t := mk ∅.

(** [CompactStorage]: the number of chunks; nothing is removed. *)
Definition CompactStorage (ms : t) : Z := Z.of_nat (size (chunks ms)).

End MemoryStorage.

(** ** HTTP *)

Module http.

Definition StatusOK : Z := 200.
Definition StatusBadRequest : Z := 400.
Definition StatusNotFound : Z := 404.
Definition StatusInternalServerError : Z := 500.

(** What a handler writes: JSON error and acknowledgement objects keep
    only the error they report. *)
Inductive body : Type :=
| BodyEmpty
| BodyError (cause : option error)
| BodyAck
| BodyChunk (chunk : FileChunk.t)
| BodyMetadata (metadata : FileMetadata.t)
| BodyFile (filename contentType : string) (data : list byte).

Record Response := { status : Z; content : body }.

(** The outcome of serving a request over state [A]: a response and the
    new state, or the end of the process when a goroutine other than the
    handler's panics. *)
Inductive handled (A : Type) : Type :=
| Responded (r : Response) (a : A)
| Crashed (p : panic).
Arguments Responded {A} r a.
Arguments Crashed {A} p.

(** [gin.Recovery]: a panic of the handler itself becomes a 500. *)
Definition recovered : Response :=
  {| status := StatusInternalServerError; content := BodyEmpty |}.

(** The characters that stand for themselves in a URL path and take no
    part in its syntax: ASCII letters, digits, [-] and [_]. *)
Definition plainChar (c : Ascii.ascii) : bool :=
  let n := Ascii.N_of_ascii c in
  ((48 <=? n) && (n <=? 57) || (65 <=? n) && (n <=? 90)
   || (97 <=? n) && (n <=? 122) || (n =? 45) || (n =? 95))%N.

Fixpoint plainChars (s : string) : bool :=
  match s with
  | EmptyString => true
  | String c s' => plainChar c && plainChars s'
  end.

(** A string that, written after [/chunks/] as it is, makes up the one
    segment that the route [/chunks/:id] takes as its parameter [id]. *)
Definition plainSegment (s : string) : bool :=
  bool_decide (s ≠ "") && plainChars s.

End http.

Import http.

(** ** The storage node service *)

Module MemoryStorageServer.
Section MemoryStorageServer.
Context {platform : Platform}.

(** [POST /chunks]; the request body is the decoded JSON chunk, [None]
    when [ShouldBindJSON] rejects it. *)
Definition storeChunk (ms : MemoryStorage.t) (request : option FileChunk.t)
    : Response * MemoryStorage.t :=
  match request with
  | None => ({| status := StatusBadRequest; content := BodyError None |}, ms)
  | Some chunk =>
      match chunking.ValidateChunk chunk with
      | Some err => ({| status := StatusBadRequest; content := BodyError (Some err) |}, ms)
      | None =>
          match MemoryStorage.StoreChunk ms chunk with
          | (Some err, ms') =>
              ({| status := StatusInternalServerError; content := BodyError (Some err) |}, ms')
          | (None, ms') => ({| status := StatusOK; content := BodyAck |}, ms')
          end
      end
  end.

(** [GET /chunks/:id]. *)
Definition getChunk (ms : MemoryStorage.t) (chunkID : string) : Response :=
  match MemoryStorage.GetChunk ms chunkID with
  | Err ErrChunkNotFound => {| status := StatusNotFound; content := BodyError None |}
  | Err err => {| status := StatusInternalServerError; content := BodyError (Some err) |}
  | Panic _ => recovered
  | Ok chunk => {| status := StatusOK; content := BodyChunk chunk |}
  end.

(** [DELETE /chunks/:id]. *)
Definition deleteChunk (ms : MemoryStorage.t) (chunkID : string)
    : Response * MemoryStorage.t :=
  match MemoryStorage.DeleteChunk ms chunkID with
  | (Some err, ms') =>
      ({| status := StatusInternalServerError; content := BodyError (Some err) |}, ms')
  | (None, ms') => ({| status := StatusOK; content := BodyAck |}, ms')
  end.

(** [GET /health] of a node: the status code and the [status] field.
    [GetStorageInfo] returns no error, so the node reports healthy. *)
Definition healthCheck (ms : MemoryStorage.t) : Z * string :=
  let _ := MemoryStorage.GetStorageInfo ms in
  (StatusOK, "healthy").

(** [GET /chunks] of a node: the status code, the ids and their count. *)
Definition listChunks (ms : MemoryStorage.t) : Z * list string * Z :=
  let chunks := MemoryStorage.ListChunks ms in
  (StatusOK, chunks, len chunks).

End MemoryStorageServer.
End MemoryStorageServer.

(** ** Package storage: the client of a node *)

Module Node.
(** A storage node as its client sees it: whether requests reach it, and
    the store behind its service. *)
Record t := mk { reachable : bool; store : MemoryStorage.t }.
End Node.

Module StorageClient.

(** What [GetChunk] and [DeleteChunk] return, and the node afterwards,
    for a chunk id that is not a plain path segment.  The URL
    [fmt.Sprintf("%s/api/v1/chunks/%s", c.BaseURL, chunkID)] then is
    another one than that of the route with this id: a slash makes more
    segments, a question mark or a hash ends the path, a percent sign
    starts an escape, the empty id gives the path of another route; for
    some ids no request can be built at all ([ErrCreateRequest] in
    [DeleteChunk]). *)
Class Routing := {
  strayGet : Node.t → string → error + FileChunk.t;
  strayDelete : Node.t → string → option error * Node.t
}.

Section StorageClient.
Context {platform : Platform} {routing : Routing}.

(** [StoreChunk]: the error returned, and the node afterwards.  The chunk
    travels as JSON, which gives back the chunk that was sent. *)
Definition StoreChunk (node : Node.t) (chunk : FileChunk.t) : option error * Node.t :=
  if Node.reachable node then
    let '(resp, ms) := MemoryStorageServer.storeChunk (Node.store node) (Some chunk) in
    (if decide (status resp ≠ StatusOK) then Some (ErrServerStatus (status resp)) else None,
     Node.mk true ms)
  else (Some ErrSendRequest, node).

(** [GetChunk]: the request is [GET /api/v1/chunks/<chunkID>], the id
    unescaped. *)
Definition GetChunk (node : Node.t) (chunkID : string) : outcome FileChunk.t :=
  if plainSegment chunkID then
    if Node.reachable node then
      let resp := MemoryStorageServer.getChunk (Node.store node) chunkID in
      if decide (status resp ≠ StatusOK) then Err (ErrServerStatus (status resp))
      else
        match content resp with
        | BodyChunk chunk => Ok chunk
        | _ => Err ErrDecodeResponse
        end
    else Err ErrSendRequest
  else
    match strayGet node chunkID with
    | inl err => Err err
    | inr chunk => Ok chunk
    end.

(** [DeleteChunk]: the request is [DELETE /api/v1/chunks/<chunkID>], the
    id unescaped; a 404 answer counts as success. *)
Definition DeleteChunk (node : Node.t) (chunkID : string) : option error * Node.t :=
  if plainSegment chunkID then
    if Node.reachable node then
      let '(resp, ms) := MemoryStorageServer.deleteChunk (Node.store node) chunkID in
      (if decide (status resp ≠ StatusOK ∧ status resp ≠ StatusNotFound)
       then Some (ErrServerStatus (status resp)) else None,
       Node.mk true ms)
    else (Some ErrSendRequest, node)
  else strayDelete node chunkID.

(** The errors of [HealthCheck]: no connection, or a status other than
    200. *)
Inductive healthError : Type :=
| ErrConnect
| ErrHealthStatus (status : Z).

(** [HealthCheck]. *)
Definition HealthCheck (node : Node.t) : option healthError :=
  if Node.reachable node then
    let '(code, _) := MemoryStorageServer.healthCheck (Node.store node) in
    if decide (code ≠ StatusOK) then Some (ErrHealthStatus code) else None
  else Some ErrConnect.

End StorageClient.
End StorageClient.

(** ** The coordinator service *)

Module Config.
(** The fields of [config.Config] the coordinator reads; the storage
    server addresses are the nodes of the network below. *)
Record t := mk { MaxFileSize : Z; ChunkCount : Z }.
End Config.

Module FormFile.
(** The multipart file of an upload request: [header.Filename], the
    Content-Type of its part, and its bytes ([header.Size] is their
    count). *)
Record t := mk { Filename : string; ContentType : string; bytes : list byte }.
End FormFile.

Module HealthReport.
(** The JSON object that the coordinator's [GET /health] answers with. *)
Record t := mk {
  status : string;
  healthy_servers : Z;
  total_servers : Z;
  timestamp : Z
}.
End HealthReport.

Module StreamingAPIServer.

(** The storage nodes, in the order of [storageClients]: the client at
    position [k] talks to node [k]. *)
Abbreviation Network := (list Node.t).

Section StreamingAPIServer.
Context {platform : Platform} {routing : StorageClient.Routing}.

(** The server: its configuration and the metadata map (guarded by a
    mutex, every access atomic). *)
Record t := mk {
  config : Config.t;
  fileMetadata : gmap string FileMetadata.t
}.

(** [calculateChecksum]. *)
Definition calculateChecksum (data : list byte) : string := sha256_hex data.

(** The loop of [chunkFileInMemory]: [n] iterations from index [i]. *)
Fixpoint chunkFileInMemory_loop (data : list byte) (fileID : string)
    (chunkCount fileSize chunkSize : Z) (n : nat) (i : Z)
    (chunks : list FileChunk.t) : outcome (list FileChunk.t) :=
  match n with
  | O => Ok chunks
  | S n' =>
      let start := mul64 i chunkSize in
      let end_ := add64 start chunkSize in
      let end_ := if decide (i = sub64 chunkCount 1) then fileSize else end_ in
      chunkData ← slice data start end_;
      let chunkID := chunking.chunkID fileID i in
      chunks' ← set_index chunks i
        {| FileChunk.ID := chunkID;
           FileChunk.FileID := fileID;
           FileChunk.Index := i;
           FileChunk.Data := Some chunkData;
           FileChunk.Checksum := calculateChecksum chunkData;
           FileChunk.Size := len chunkData |};
      chunkFileInMemory_loop data fileID chunkCount fileSize chunkSize n' (i + 1) chunks'
  end.

(** [chunkFileInMemory].  [data] is a non-nil slice, as [io.ReadAll]
    returns it, so that every [data[start:end]] is non-nil. *)
Definition chunkFileInMemory (data : list byte) (fileID : string) (chunkCount : Z)
    : outcome (list FileChunk.t) :=
  let fileSize := len data in
  chunkSize ← div64 fileSize chunkCount;
  chunks ← make FileChunk.zero chunkCount;
  chunkFileInMemory_loop data fileID chunkCount fileSize chunkSize
    (Z.to_nat chunkCount) 0 chunks.

(** The goroutine that [distributeChunks] starts for one chunk: the error
    it sends on [errChan], if any, and the network afterwards. *)
Definition storeTask (net : Network) (chunkIndex : Z) (chunkData : FileChunk.t)
    : outcome (option error * Network) :=
  serverIndex ← rem64 chunkIndex (len net);
  match net !! Z.to_nat serverIndex with
  | None => Panic PanicIndexOutOfRange
  | Some client =>
      match StorageClient.StoreChunk client chunkData with
      | (Some err, node) =>
          Ok (Some (ErrStoreChunk chunkIndex serverIndex err),
              <[Z.to_nat serverIndex := node]> net)
      | (None, node) => Ok (None, <[Z.to_nat serverIndex := node]> net)
      end
  end.

(** The goroutines of [distributeChunks], run to completion one after the
    other in the order [sched] (positions in [chunks]); [errChan]
    collects the errors in that order. *)
Fixpoint runStores (sched : list nat) (chunks : list FileChunk.t) (net : Network)
    (errChan : list error) : outcome (list error * Network) :=
  match sched with
  | [] => Ok (errChan, net)
  | k :: sched' =>
      match chunks !! k with
      | None => runStores sched' chunks net errChan
      | Some chunk =>
          r ← storeTask net (Z.of_nat k) chunk;
          runStores sched' chunks r.2 (errChan ++ option_list r.1)
      end
  end.

(** [distributeChunks]: after [wg.Wait()], the first error of [errChan]. *)
Definition distributeChunks (sched : list nat) (metadata : FileMetadata.t)
    (net : Network) : outcome (option error * Network) :=
  r ← runStores sched (FileMetadata.Chunks metadata) net [];
  Ok (head r.1, r.2).

(** [streamingUploadFile] ([POST /files]).  [request] is the result of
    [FormFile("file")], [fileID] the UUID drawn for the upload;
    [io.ReadAll] of the form file is taken to succeed.  A panic of
    [chunkFileInMemory] is caught by [gin.Recovery]; one inside a
    goroutine of [distributeChunks] ends the process. *)
Definition streamingUploadFile (s : t) (net : Network) (sched : list nat)
    (fileID : string) (request : option FormFile.t) : handled (t * Network) :=
  match request with
  | None =>
      Responded {| status := StatusBadRequest; content := BodyError None |} (s, net)
  | Some file =>
      if decide (len (FormFile.bytes file) > Config.MaxFileSize (config s))
      then Responded {| status := StatusBadRequest; content := BodyError None |} (s, net)
      else
        let fileData := FormFile.bytes file in
        match chunkFileInMemory fileData fileID (Config.ChunkCount (config s)) with
        | Panic _ => Responded recovered (s, net)
        | Err err =>
            Responded {| status := StatusInternalServerError;
                         content := BodyError (Some err) |} (s, net)
        | Ok chunks =>
            let metadata :=
              {| FileMetadata.ID := fileID;
                 FileMetadata.OriginalName := FormFile.Filename file;
                 FileMetadata.Size := len fileData;
                 FileMetadata.Checksum := calculateChecksum fileData;
                 FileMetadata.ContentType := FormFile.ContentType file;
                 FileMetadata.ChunkCount := len chunks;
                 FileMetadata.Chunks := chunks |} in
            match distributeChunks sched metadata net with
            | Panic p => Crashed p
            | Err err =>
                Responded {| status := StatusInternalServerError;
                             content := BodyError (Some err) |} (s, net)
            | Ok (Some err, net') =>
                Responded {| status := StatusInternalServerError;
                             content := BodyError (Some err) |} (s, net')
            | Ok (None, net') =>
                Responded {| status := StatusOK; content := BodyMetadata metadata |}
                  (mk (config s) (<[fileID := metadata]> (fileMetadata s)), net')
            end
        end
  end.

(** [reconstructFileInMemory]: the first loop, summing the payload
    lengths. *)
Fixpoint totalSize_loop (totalSize : Z) (chunks : list FileChunk.t) : Z :=
  match chunks with
  | [] => totalSize
  | chunk :: rest =>
      totalSize_loop (add64 totalSize (len (FileChunk.payload chunk))) rest
  end.

(** The second loop: [fileData = append(fileData, chunk.Data...)]. *)
Fixpoint append_loop (fileData : list byte) (chunks : list FileChunk.t) : list byte :=
  match chunks with
  | [] => fileData
  | chunk :: rest => append_loop (fileData ++ FileChunk.payload chunk) rest
  end.

(** [reconstructFileInMemory]. *)
Definition reconstructFileInMemory (chunks : list FileChunk.t) : outcome (list byte) :=
  let totalSize := totalSize_loop 0 chunks in
  fileData ← make_cap totalSize;
  Ok (append_loop fileData chunks).

(** The goroutine that [collectChunks] starts for one chunk: the error it
    sends on [errChan], or the chunk it stores at [chunks[chunkIndex]]. *)
Definition getTask (net : Network) (chunkIndex : Z) (chunkMetadata : FileChunk.t)
    : outcome (error + FileChunk.t) :=
  serverIndex ← rem64 chunkIndex (len net);
  match net !! Z.to_nat serverIndex with
  | None => Panic PanicIndexOutOfRange
  | Some client =>
      match StorageClient.GetChunk client (FileChunk.ID chunkMetadata) with
      | Ok chunk => Ok (inr chunk)
      | Err err => Ok (inl (ErrGetChunk chunkIndex serverIndex err))
      | Panic p => Panic p
      end
  end.

(** The goroutines of [collectChunks], in the order [sched]. *)
Fixpoint runGets (sched : list nat) (metaChunks : list FileChunk.t) (net : Network)
    (chunks : list FileChunk.t) (errChan : list error)
    : outcome (list FileChunk.t * list error) :=
  match sched with
  | [] => Ok (chunks, errChan)
  | k :: sched' =>
      match metaChunks !! k with
      | None => runGets sched' metaChunks net chunks errChan
      | Some chunkMeta =>
          r ← getTask net (Z.of_nat k) chunkMeta;
          match r with
          | inl err => runGets sched' metaChunks net chunks (errChan ++ [err])
          | inr chunk =>
              chunks' ← set_index chunks (Z.of_nat k) chunk;
              runGets sched' metaChunks net chunks' errChan
          end
      end
  end.

(** [collectChunks]. *)
Definition collectChunks (sched : list nat) (metadata : FileMetadata.t)
    (net : Network) : outcome (list FileChunk.t) :=
  let chunks := make_len_of FileChunk.zero (FileMetadata.Chunks metadata) in
  r ← runGets sched (FileMetadata.Chunks metadata) net chunks [];
  match head r.2 with
  | Some err => Err err
  | None => Ok r.1
  end.

(** [streamingDownloadFile] ([GET /files/:id]). *)
Definition streamingDownloadFile (s : t) (net : Network) (sched : list nat)
    (fileID : string) : handled (t * Network) :=
  match fileMetadata s !! fileID with
  | None => Responded {| status := StatusNotFound; content := BodyError None |} (s, net)
  | Some metadata =>
      match collectChunks sched metadata net with
      | Panic p => Crashed p
      | Err err =>
          Responded {| status := StatusInternalServerError;
                       content := BodyError (Some err) |} (s, net)
      | Ok chunks =>
          match reconstructFileInMemory chunks with
          | Panic _ => Responded recovered (s, net)
          | Err err =>
              Responded {| status := StatusInternalServerError;
                           content := BodyError (Some err) |} (s, net)
          | Ok fileData =>
              Responded
                {| status := StatusOK;
                   content := BodyFile (FileMetadata.OriginalName metadata)
                                (FileMetadata.ContentType metadata) fileData |}
                (s, net)
          end
      end
  end.

(** The loop of [healthCheck]: [healthyServers++] for every client whose
    [HealthCheck] returns no error. *)
Fixpoint healthCheck_loop (clients : Network) (healthyServers : Z) : Z :=
  match clients with
  | [] => healthyServers
  | client :: rest =>
      match StorageClient.HealthCheck client with
      | Some _ => healthCheck_loop rest healthyServers
      | None => healthCheck_loop rest (add64 healthyServers 1)
      end
  end.

(** [healthCheck] ([GET /health]); [now] is [time.Now().Unix()]. *)
Definition healthCheck (s : t) (net : Network) (now : Z) : Z * HealthReport.t :=
  let healthyServers := healthCheck_loop net 0 in
  let status :=
    if decide (healthyServers < Config.ChunkCount (config s))
    then "degraded" else "healthy" in
  (StatusOK,
   {| HealthReport.status := status;
      HealthReport.healthy_servers := healthyServers;
      HealthReport.total_servers := len net;
      HealthReport.timestamp := now |}).

(** [getFileInfo] ([GET /files/:id/info]). *)
Definition getFileInfo (s : t) (fileID : string) : Response :=
  match fileMetadata s !! fileID with
  | None => {| status := StatusNotFound; content := BodyError None |}
  | Some metadata => {| status := StatusOK; content := BodyMetadata metadata |}
  end.

(** The goroutine that [deleteFile] starts for one chunk: an error of the
    client is logged and dropped. *)
Definition deleteTask (net : Network) (chunkIndex : Z) (chunkData : FileChunk.t)
    : outcome Network :=
  serverIndex ← rem64 chunkIndex (len net);
  match net !! Z.to_nat serverIndex with
  | None => Panic PanicIndexOutOfRange
  | Some client =>
      let '(_, node) := StorageClient.DeleteChunk client (FileChunk.ID chunkData) in
      Ok (<[Z.to_nat serverIndex := node]> net)
  end.

(** The goroutines of [deleteFile], in the order [sched]. *)
Fixpoint runDeletes (sched : list nat) (chunks : list FileChunk.t) (net : Network)
    : outcome Network :=
  match sched with
  | [] => Ok net
  | k :: sched' =>
      match chunks !! k with
      | None => runDeletes sched' chunks net
      | Some chunk =>
          net' ← deleteTask net (Z.of_nat k) chunk;
          runDeletes sched' chunks net'
      end
  end.

(** [deleteFile] ([DELETE /files/:id]): the metadata goes first, then the
    chunks are deleted on the nodes. *)
Definition deleteFile (s : t) (net : Network) (sched : list nat) (fileID : string)
    : handled (t * Network) :=
  match fileMetadata s !! fileID with
  | None => Responded {| status := StatusNotFound; content := BodyError None |} (s, net)
  | Some metadata =>
      let s' := mk (config s) (delete fileID (fileMetadata s)) in
      match runDeletes sched (FileMetadata.Chunks metadata) net with
      | Ok net' => Responded {| status := StatusOK; content := BodyAck |} (s', net')
      | Err _ => Responded {| status := StatusOK; content := BodyAck |} (s', net)
      | Panic p => Crashed p
      end
  end.

(** [listFiles] ([GET /files]): the status code and the ids, in the order
    of the map iteration ([map_to_list] fixes one). *)
Definition listFiles (s : t) : Z * list string :=
  (StatusOK, (map_to_list (fileMetadata s)).*1).

End StreamingAPIServer.
End StreamingAPIServer.

(** ** Vocabulary of the statements *)

(** Order of chunks by [Index]. *)
Definition byIndex (a b : FileChunk.t) : Prop :=
  FileChunk.Index a ≤ FileChunk.Index b.

(** Positions carry their own index: [chunks[i].Index == i] everywhere. *)
Definition indexed (chunks : list FileChunk.t) : Prop :=
  ∀ (i : nat) chunk, chunks !! i = Some chunk → FileChunk.Index chunk = Z.of_nat i.

(** The bytes of all payloads, in list order. *)
Definition payloads (chunks : list FileChunk.t) : list byte :=
  concat (FileChunk.payload <$> chunks).

(** The sum of the [Size] fields, as a mathematical integer. *)
Definition sumSizes (chunks : list FileChunk.t) : Z :=
  foldr (λ chunk acc, FileChunk.Size chunk + acc) 0 chunks.

(** The indices carried by the chunks. *)
Definition indices (chunks : list FileChunk.t) : list Z :=
  FileChunk.Index <$> chunks.

(** [i] is the first position of [chunks] whose chunk does not carry the
    index [i]. *)
Definition firstMismatch (chunks : list FileChunk.t) (i : nat) : Prop :=
  (∃ chunk, chunks !! i = Some chunk ∧ FileChunk.Index chunk ≠ Z.of_nat i) ∧
  ∀ (k : nat) chunk, (k < i)%nat → chunks !! k = Some chunk →
    FileChunk.Index chunk = Z.of_nat k.

(** [i] is the least natural number that is the index of no chunk. *)
Definition firstAbsentIndex (chunks : list FileChunk.t) (i : Z) : Prop :=
  0 ≤ i ∧ (i ∉ indices chunks) ∧ ∀ k, 0 ≤ k < i → k ∈ indices chunks.

(** The sizes of a split of [n] bytes into [K] chunks: [n / K] bytes for
    every chunk but the last, which takes the remainder as well; each
    [Size] field is the length of its payload. *)
Definition splitSizes (n K : Z) (chunks : list FileChunk.t) : Prop :=
  len chunks = K ∧
  (∀ (i : nat) chunk, chunks !! i = Some chunk →
     FileChunk.Size chunk = len (FileChunk.payload chunk) ∧
     FileChunk.Size chunk =
       if decide (Z.of_nat i = K - 1) then n `div` K + n `mod` K else n `div` K) ∧
  sumSizes chunks = n.

(** The errors of [ValidateFileMetadata]. *)
Definition metadataInconsistent (e : error) : Prop :=
  match e with
  | ErrChunkCountMismatch | ErrWrongChunkIndex _ _ | ErrChunkFileID _
  | ErrTotalSizeMismatch => True
  | _ => False
  end.

(** The metadata with another whole-file checksum. *)
Definition withChecksum (checksum : string) (metadata : FileMetadata.t)
    : FileMetadata.t :=
  {| FileMetadata.ID := FileMetadata.ID metadata;
     FileMetadata.OriginalName := FileMetadata.OriginalName metadata;
     FileMetadata.Size := FileMetadata.Size metadata;
     FileMetadata.Checksum := checksum;
     FileMetadata.ChunkCount := FileMetadata.ChunkCount metadata;
     FileMetadata.Chunks := FileMetadata.Chunks metadata;
     FileMetadata.ContentType := FileMetadata.ContentType metadata |}.

(** The chunk at position [k] is stored at its node: the client of node
    [k mod len(storageClients)] returns no error for it. *)
Definition storedAtItsNode {platform : Platform} (net : list Node.t) (k : nat)
    (chunk : FileChunk.t) : Prop :=
  ∃ node, net !! (k `mod` length net)%nat = Some node ∧
    (StorageClient.StoreChunk node chunk).1 = None.

Section split.
Context {platform : Platform}.

(** Closed form of the split of [D] into [K] chunks: size, bytes and
    record of the chunk at index [i]. *)
Definition chunkSizeAt (D : list byte) (K i : Z) : Z :=
  if decide (i = K - 1) then len D `div` K + len D `mod` K else len D `div` K.

Definition chunkBytesAt (D : list byte) (K i : Z) : list byte :=
  take (Z.to_nat (chunkSizeAt D K i)) (drop (Z.to_nat (i * (len D `div` K))) D).

Definition chunkAt (D : list byte) (K : Z) (fileID : string) (i : Z) : FileChunk.t :=
  {| FileChunk.ID := chunking.chunkID fileID i;
     FileChunk.Index := i;
     FileChunk.FileID := fileID;
     FileChunk.Size := chunkSizeAt D K i;
     FileChunk.Checksum := sha256_hex (chunkBytesAt D K i);
     FileChunk.Data := Some (chunkBytesAt D K i) |}.

(** The chunks at indices [i], [i+1], ..., [i+n-1]. *)
Definition chunksFrom (D : list byte) (K : Z) (fileID : string) (i : Z) (n : nat)
    : list FileChunk.t :=
  (λ k, chunkAt D K fileID (i + Z.of_nat k)) <$> seq 0 n.

End split.

(** ** Data of the examples *)

Module Examples.

(** A stand-in for the standard library, to run the model: the digest of
    a byte sequence is its length in decimal, the base name of a path is
    the path. *)
Definition toy : Platform :=
  {| sha256_hex := λ d, pretty (len d); basename := λ path, path |}.

(** A router with no route for an id that is not a plain path segment,
    as it is for an id with a slash in its middle: a node that answers
    says 404, which [GetChunk] reports and [DeleteChunk] accepts. *)
Definition unrouted : StorageClient.Routing :=
  {| StorageClient.strayGet := λ node _,
       inl (if Node.reachable node then ErrServerStatus 404 else ErrSendRequest);
     StorageClient.strayDelete := λ node _,
       (if Node.reachable node then None else Some ErrSendRequest, node) |}.

Definition sevenBytes : list byte :=
  [Byte.x01; Byte.x02; Byte.x03; Byte.x04; Byte.x05; Byte.x06; Byte.x07].

(** A file system holding one file of seven bytes. *)
Definition disk : FileSystem :=
  {| fs_files := {[ "in.bin" := sevenBytes ]}; fs_locked := ∅ |}.

(** A chunk with the given index and payload, consistent for [toy]. *)
Definition chunkOf (fileID : string) (i : Z) (data : list byte) : FileChunk.t :=
  {| FileChunk.ID := chunking.chunkID fileID i;
     FileChunk.Index := i;
     FileChunk.FileID := fileID;
     FileChunk.Size := len data;
     FileChunk.Checksum := pretty (len data);
     FileChunk.Data := Some data |}.

(** Three chunks, two of them with index 0. *)
Definition duplicated : list FileChunk.t :=
  [chunkOf "f" 0 [Byte.x01]; chunkOf "f" 0 [Byte.x02]; chunkOf "f" 1 [Byte.x03]].

(** Three chunks out of order. *)
Definition shuffled : list FileChunk.t :=
  [chunkOf "f" 2 [Byte.x03]; chunkOf "f" 0 [Byte.x01]; chunkOf "f" 1 [Byte.x02]].

(** A chunk that claims [size] bytes and carries none. *)
Definition sized (i size : Z) : FileChunk.t :=
  {| FileChunk.ID := chunking.chunkID "f" i;
     FileChunk.Index := i;
     FileChunk.FileID := "f";
     FileChunk.Size := size;
     FileChunk.Checksum := "";
     FileChunk.Data := Some [] |}.

(** Metadata whose chunk sizes add up to [2 ^ 64] and whose size is 0. *)
Definition overflowing : FileMetadata.t :=
  {| FileMetadata.ID := "f";
     FileMetadata.OriginalName := "in.bin";
     FileMetadata.Size := 0;
     FileMetadata.Checksum := "";
     FileMetadata.ChunkCount := 3;
     FileMetadata.Chunks := [sized 0 int64_max; sized 1 int64_max; sized 2 2];
     FileMetadata.ContentType := "" |}.

(** A coordinator configured for three chunks, with no file yet. *)
Definition server : StreamingAPIServer.t :=
  StreamingAPIServer.mk (Config.mk 1024 3) ∅.

(** Two empty nodes that answer, and the same with the second one down. *)
Definition up : Node.t := Node.mk true MemoryStorage.NewMemoryStorage.
Definition down : Node.t := Node.mk false MemoryStorage.NewMemoryStorage.
Definition network : list Node.t := [up; up].
Definition degraded : list Node.t := [up; down].

(** The upload request carrying the seven bytes. *)
Definition form : FormFile.t :=
  FormFile.mk "in.bin" "application/octet-stream" sevenBytes.

(** An order of completion of three goroutines. *)
Definition order : list nat := [2; 0; 1]%nat.

(** A chunk whose [Size] and [Checksum] contradict its payload. *)
Definition corrupt : FileChunk.t :=
  {| FileChunk.ID := "f_chunk_0";
     FileChunk.Index := 0;
     FileChunk.FileID := "f";
     FileChunk.Size := 7;
     FileChunk.Checksum := "7";
     FileChunk.Data := Some [Byte.xff] |}.

(** A coordinator that knows a one-chunk file of seven bytes, and a node
    that holds the corrupt chunk under its id. *)
Definition oneChunkFile : FileMetadata.t :=
  {| FileMetadata.ID := "f";
     FileMetadata.OriginalName := "in.bin";
     FileMetadata.Size := 7;
     FileMetadata.Checksum := "7";
     FileMetadata.ChunkCount := 1;
     FileMetadata.Chunks := [chunkOf "f" 0 sevenBytes];
     FileMetadata.ContentType := "" |}.
Definition serving : StreamingAPIServer.t :=
  StreamingAPIServer.mk (Config.mk 1024 1) {[ "f" := oneChunkFile ]}.
Definition tampered : list Node.t :=
  [Node.mk true (MemoryStorage.mk {[ "f_chunk_0" := corrupt ]})].

End Examples.

(** ** Vocabulary of the further properties *)

(** Strict order of chunks by [Index]. *)
Definition beforeIndex (a b : FileChunk.t) : Prop :=
  FileChunk.Index a < FileChunk.Index b.

(** Node [k mod len(storageClients)] holds the copy of [chunk] under its
    id. *)
Definition heldAtItsNode (net : list Node.t) (k : nat) (chunk : FileChunk.t) : Prop :=
  ∃ node, net !! (k `mod` length net)%nat = Some node ∧
    MemoryStorage.chunks (Node.store node) !! FileChunk.ID chunk
    = Some (MemoryStorage.chunkCopy chunk).

(** Node [k mod len(storageClients)] answers and holds nothing under the
    id of [chunk]. *)
Definition goneFromItsNode (net : list Node.t) (k : nat) (chunk : FileChunk.t) : Prop :=
  ∃ node, net !! (k `mod` length net)%nat = Some node ∧
    MemoryStorage.chunks (Node.store node) !! FileChunk.ID chunk = None.

(** Every chunk carries an id that is a plain path segment, as the ids
    [<uuid>_chunk_<i>] of an upload are. *)
Definition plainIDs (chunks : list FileChunk.t) : Prop :=
  ∀ chunk, chunk ∈ chunks → plainSegment (FileChunk.ID chunk) = true.

(** The nodes that answer. *)
Definition reachableNodes (net : list Node.t) : list Node.t :=
  filter (λ node, Node.reachable node = true) net.

(** The number of payload bytes in a store, as a mathematical integer. *)
Definition storedBytes (ms : MemoryStorage.t) : Z :=
  map_fold (λ _ chunk total, len (FileChunk.payload chunk) + total) 0
    (MemoryStorage.chunks ms).

(** The client of node [k mod len(storageClients)] fetches [chunk] for
    the chunk described by [chunkMeta]. *)
Definition fetchedFromItsNode {routing : StorageClient.Routing}
    (net : list Node.t) (k : nat) (chunkMeta chunk : FileChunk.t) : Prop :=
  ∃ node, net !! (k `mod` length net)%nat = Some node ∧
    StorageClient.GetChunk node (FileChunk.ID chunkMeta) = Ok chunk.

(** ** Data of the further examples *)

Module Samples.
Import Examples.

(** The three chunks of the seven bytes, in index order and reversed. *)
Definition first : FileChunk.t := chunkOf "f" 0 [Byte.x01; Byte.x02].
Definition second : FileChunk.t := chunkOf "f" 1 [Byte.x03; Byte.x04].
Definition third : FileChunk.t := chunkOf "f" 2 [Byte.x05; Byte.x06; Byte.x07].
Definition ordered : list FileChunk.t := [first; second; third].
Definition reversed : list FileChunk.t := [third; second; first].

(** The metadata of that split, a coordinator that knows it, and two
    nodes that hold its chunks: indices 0 and 2 on the first, index 1 on
    the second. *)
Definition splitFile : FileMetadata.t :=
  {| FileMetadata.ID := "f";
     FileMetadata.OriginalName := "in.bin";
     FileMetadata.Size := 7;
     FileMetadata.Checksum := "7";
     FileMetadata.ChunkCount := 3;
     FileMetadata.Chunks := ordered;
     FileMetadata.ContentType := "application/octet-stream" |}.
Definition keeper : StreamingAPIServer.t :=
  StreamingAPIServer.mk (Config.mk 1024 3) {[ "f" := splitFile ]}.
Definition evens : MemoryStorage.t :=
  MemoryStorage.mk {[ "f_chunk_0" := first; "f_chunk_2" := third ]}.
Definition odds : MemoryStorage.t :=
  MemoryStorage.mk {[ "f_chunk_1" := second ]}.
Definition stocked : list Node.t := [Node.mk true evens; Node.mk true odds].

(** The same nodes with the second one not answering. *)
Definition halved : list Node.t := [Node.mk true evens; Node.mk false odds].

(** A chunk whose id is no plain path segment, a coordinator that knows
    a file made of it, and a node that holds it. *)
Definition slashed : FileChunk.t :=
  {| FileChunk.ID := "a/b";
     FileChunk.Index := 0;
     FileChunk.FileID := "f";
     FileChunk.Size := 2;
     FileChunk.Checksum := "2";
     FileChunk.Data := Some [Byte.x01; Byte.x02] |}.
Definition slashedFile : FileMetadata.t :=
  {| FileMetadata.ID := "f";
     FileMetadata.OriginalName := "in.bin";
     FileMetadata.Size := 2;
     FileMetadata.Checksum := "2";
     FileMetadata.ChunkCount := 1;
     FileMetadata.Chunks := [slashed];
     FileMetadata.ContentType := "" |}.
Definition slashedKeeper : StreamingAPIServer.t :=
  StreamingAPIServer.mk (Config.mk 1024 1) {[ "f" := slashedFile ]}.
Definition slashedNodes : list Node.t :=
  [Node.mk true (MemoryStorage.mk {[ "a/b" := slashed ]})].

End Samples.

(** * Properties *)

(** ** Machine arithmetic *)

(** Goals stating that a value lies within the 64-bit range. *)
Ltac int64_range := unfold in_int64, int64_min, int64_max in *; lia.

(** Goals that follow from the allocation limit and the element sizes. *)
Ltac alloc_range :=
  unfold maxAlloc, sizeof, FileChunk.t_sizeof, byte_sizeof,
    in_int64, int64_min, int64_max in *; lia.

Lemma wrap64_id z : in_int64 z → wrap64 z = z.
Proof.
  unfold in_int64, int64_min, int64_max, wrap64. intros Hz.
  rewrite Z.mod_small; lia.
Qed.

Lemma wrap64_add_l a b : wrap64 (wrap64 a + b) = wrap64 (a + b).
Proof.
  unfold wrap64.
  replace ((a + 2 ^ 63) `mod` 2 ^ 64 - 2 ^ 63 + b + 2 ^ 63)
    with ((a + 2 ^ 63) `mod` 2 ^ 64 + b) by lia.
  rewrite Zplus_mod_idemp_l. do 2 f_equal. lia.
Qed.

Lemma len_nonneg {A} (l : list A) : 0 ≤ len l.
Proof. unfold len. lia. Qed.

(** What fits an allocation fits an [int]. *)
Lemma maxAlloc_int64 z : z ≤ maxAlloc → z ≤ int64_max.
Proof. alloc_range. Qed.

Lemma chunkCount_int64 K :
  0 < K → K * sizeof FileChunk.t ≤ maxAlloc → K ≤ int64_max.
Proof. alloc_range. Qed.

Lemma make_ok {A} `{!Sizeof A} (zero : A) n :
  0 ≤ n → n * sizeof A ≤ maxAlloc → make zero n = Ok (replicate (Z.to_nat n) zero).
Proof. intros Hn Hmax. unfold make. case_decide; [lia|done]. Qed.

Lemma make_too_long {A} `{!Sizeof A} (zero : A) n :
  maxAlloc < n * sizeof A → make zero n = Panic PanicMakeSliceLen.
Proof. intros Hmax. unfold make. case_decide; [done|lia]. Qed.

Lemma div64_pos a b :
  0 ≤ a ≤ int64_max → 0 < b → div64 a b = Ok (a `div` b).
Proof.
  intros Ha Hb. unfold div64. case_decide; [lia|].
  rewrite Z.quot_div_nonneg by lia. f_equal. apply wrap64_id.
  pose proof (Z.div_pos a b). pose proof (Z.div_le_upper_bound a b a).
  unfold in_int64, int64_min, int64_max in *. nia.
Qed.

Lemma rem64_pos a b :
  0 ≤ a ≤ int64_max → 0 < b → rem64 a b = Ok (a `mod` b).
Proof.
  intros Ha Hb. unfold rem64. case_decide; [lia|].
  rewrite Z.rem_mod_nonneg by lia. f_equal. apply wrap64_id.
  pose proof (Z.mod_pos_bound a b Hb). pose proof (Z.mod_le a b).
  int64_range.
Qed.

(** ** The two splits *)

(** Both [ChunkFile] and [chunkFileInMemory] are shown to compute the
    closed form [chunksFrom]; the properties of a split are then read off
    the closed form. *)

Section split_facts.
Context {platform : Platform}.

Lemma chunksFrom_S D K fileID i n :
  chunksFrom D K fileID i (S n) = chunkAt D K fileID i :: chunksFrom D K fileID (i + 1) n.
Proof.
  unfold chunksFrom. simpl. rewrite Z.add_0_r. f_equal.
  rewrite <- fmap_S_seq, <- list_fmap_compose. apply list_fmap_ext.
  intros _ k _. simpl. f_equal. lia.
Qed.

(** Position and size of chunk [i] within the file. *)
Lemma chunk_bounds D K i :
  0 < K → 0 ≤ i < K →
  0 ≤ len D `div` K ∧ 0 ≤ len D `mod` K ∧
  0 ≤ chunkSizeAt D K i ∧
  i * (len D `div` K) + chunkSizeAt D K i ≤ len D ∧
  (i = K - 1 → i * (len D `div` K) + chunkSizeAt D K i = len D).
Proof.
  intros HK Hi. pose proof (len_nonneg D).
  pose proof (Z.div_mod (len D) K ltac:(lia)).
  pose proof (Z.mod_pos_bound (len D) K HK).
  assert (0 ≤ len D `div` K) by (apply Z.div_pos; lia).
  unfold chunkSizeAt. case_decide; subst; repeat split; try nia.
Qed.

Lemma chunkBytesAt_length D K i :
  0 < K → 0 ≤ i < K → len (chunkBytesAt D K i) = chunkSizeAt D K i.
Proof.
  intros HK Hi. destruct (chunk_bounds D K i HK Hi) as (?&?&?&?&?).
  unfold chunkBytesAt, len in *. rewrite length_take, length_drop. nia.
Qed.

Lemma set_index_next (done : list FileChunk.t) n i c :
  length done = Z.to_nat i → 0 ≤ i →
  set_index (done ++ replicate (S n) FileChunk.zero) i c
  = Ok ((done ++ [c]) ++ replicate n FileChunk.zero).
Proof.
  intros Hd Hi. unfold set_index, len.
  rewrite length_app, length_replicate. case_decide; [|lia].
  f_equal. rewrite insert_app_r_alt by lia.
  rewrite Hd, Nat.sub_diag. simpl. by rewrite <- app_assoc.
Qed.

(** The size of the last chunk, the largest buffer of [ChunkFile]. *)
Lemma chunkSizeAt_le_last D K i :
  0 < K → 0 ≤ i < K → chunkSizeAt D K i ≤ chunkSizeAt D K (K - 1) ≤ len D.
Proof.
  intros HK Hi. pose proof (len_nonneg D).
  pose proof (Z.div_mod (len D) K ltac:(lia)).
  pose proof (Z.mod_pos_bound (len D) K HK).
  assert (0 ≤ len D `div` K) by (apply Z.div_pos; lia).
  unfold chunkSizeAt. repeat case_decide; try lia; nia.
Qed.

(** The loop of [ChunkFile] fills the slice with the closed form, unless
    a buffer is beyond the allocation limit: then [make] panics. *)
Lemma ChunkFile_loop_spec D K fileID n : ∀ i pos done,
  0 < K ≤ int64_max → len D ≤ int64_max →
  0 ≤ i → i + Z.of_nat n = K → length done = Z.to_nat i →
  (n ≠ O → pos = Z.to_nat (i * (len D `div` K))) →
  chunking.ChunkFile_loop K (len D `div` K) (len D `mod` K) fileID n i
    {| f_bytes := D; f_pos := pos |} (done ++ replicate n FileChunk.zero)
  = if decide (n = O ∨ chunkSizeAt D K (K - 1) ≤ maxAlloc)
    then Ok (done ++ chunksFrom D K fileID i n)
    else Panic PanicMakeSliceLen.
Proof.
  induction n as [|n IH]; intros i pos done HK HD Hi Hn Hdone Hpos.
  { cbn [chunking.ChunkFile_loop]. unfold chunksFrom. cbn [seq fmap list_fmap].
    destruct (decide (O = O ∨ chunkSizeAt D K (K - 1) ≤ maxAlloc)) as [Hc|Hc];
      [done|]. destruct Hc. by left. }
  rewrite chunksFrom_S. cbn [chunking.ChunkFile_loop].
  destruct (chunk_bounds D K i) as (Hb & Hr & Hs & Hle & Hlast); [lia..|].
  destruct (chunkSizeAt_le_last D K i) as [Hmax _]; [lia..|].
  pose proof (len_nonneg D) as HD0.
  assert (sub64 K 1 = K - 1) as ->.
  { apply wrap64_id. int64_range. }
  assert ((if decide (i = K - 1)
           then add64 (len D `div` K) (len D `mod` K) else len D `div` K)
          = chunkSizeAt D K i) as ->.
  { unfold chunkSizeAt in Hs, Hle |- *. destruct (decide (i = K - 1)); [|done].
    apply wrap64_id. int64_range. }
  destruct (decide (chunkSizeAt D K i ≤ maxAlloc)) as [Hfits|Hover].
  2:{ rewrite make_too_long by (unfold sizeof, byte_sizeof; lia).
      cbn [mbind outcome_bind].
      destruct (decide (S n = O ∨ chunkSizeAt D K (K - 1) ≤ maxAlloc)) as [Hc|Hc];
        [|done].
      destruct Hc as [Hc|Hc]; [done|lia]. }
  rewrite make_ok by (unfold sizeof, byte_sizeof; lia).
  cbn [mbind outcome_bind].
  unfold io_ReadFull. cbn [f_pos f_bytes].
  rewrite Hpos by done. rewrite length_replicate, length_drop.
  assert (Z.to_nat (chunkSizeAt D K i)
          ≤ length D - Z.to_nat (i * (len D `div` K)))%nat as Hfit.
  { assert (0 ≤ i * (len D `div` K)) as Hstart by nia.
    revert Hle Hs Hstart. generalize (i * (len D `div` K)) (chunkSizeAt D K i).
    unfold len. lia. }
  destruct (decide (Z.to_nat (chunkSizeAt D K i)
                    ≤ length D - Z.to_nat (i * (len D `div` K)))%nat) as [_|];
    [|done].
  fold (chunkBytesAt D K i).
  rewrite set_index_next by done. cbn [mbind outcome_bind].
  rewrite (IH (i + 1)); try lia.
  - rewrite <- app_assoc. cbn [app].
    destruct (decide (n = O ∨ chunkSizeAt D K (K - 1) ≤ maxAlloc)) as [H1|H1];
      destruct (decide (S n = O ∨ chunkSizeAt D K (K - 1) ≤ maxAlloc)) as [H2|H2];
      try done.
    + destruct H2. right. destruct H1 as [H1|H1]; [|done].
      assert (i = K - 1) as Hi' by lia. rewrite Hi' in Hfits. done.
    + destruct H1. destruct H2 as [H2|H2]; [done|by right].
  - rewrite length_app. simpl. lia.
  - intros Hn'. unfold chunkSizeAt.
    destruct (decide (i = K - 1)) as [|_]; [lia|]. nia.
Qed.

(** [ChunkFile] on a file that exists, with a positive chunk count. *)
Lemma ChunkFile_exact fs filePath D K fileID :
  fs_files fs !! filePath = Some D →
  0 < K ≤ int64_max → len D ≤ int64_max →
  chunking.ChunkFile fs filePath K fileID
  = if decide (K * sizeof FileChunk.t ≤ maxAlloc ∧
               chunkSizeAt D K (K - 1) ≤ maxAlloc)
    then Ok {| FileMetadata.ID := fileID;
               FileMetadata.OriginalName := basename filePath;
               FileMetadata.Size := len D;
               FileMetadata.Checksum := sha256_hex D;
               FileMetadata.ChunkCount := K;
               FileMetadata.Chunks := chunksFrom D K fileID 0 (Z.to_nat K);
               FileMetadata.ContentType := "" |}
    else Panic PanicMakeSliceLen.
Proof.
  intros Hfile HK HD. pose proof (len_nonneg D) as HD0.
  unfold chunking.ChunkFile, os_Open. rewrite Hfile. cbn [mbind option_bind f_bytes].
  rewrite div64_pos, rem64_pos by lia. cbn [mbind outcome_bind].
  unfold io_Copy, Seek0. cbn [f_bytes f_pos]. rewrite drop_0.
  destruct (decide (K * sizeof FileChunk.t ≤ maxAlloc)) as [HKmax|HKmax].
  2:{ rewrite make_too_long by lia. cbn [mbind outcome_bind].
      case_decide as Hc; [by destruct Hc|done]. }
  rewrite make_ok by (done || lia). cbn [mbind outcome_bind].
  pose proof (ChunkFile_loop_spec D K fileID (Z.to_nat K) 0 0%nat []) as Hloop.
  cbn [app] in Hloop. rewrite Hloop; [|first [done | lia | by rewrite Z.mul_0_l]..].
  case_decide as H1; case_decide as H2; try done.
  - destruct H2. destruct H1 as [H1|H1]; [lia|done].
  - destruct H1. right. by destruct H2.
Qed.

Lemma ChunkFile_ok fs filePath D K fileID :
  fs_files fs !! filePath = Some D →
  0 < K → K * sizeof FileChunk.t ≤ maxAlloc → len D ≤ maxAlloc →
  chunking.ChunkFile fs filePath K fileID
  = Ok {| FileMetadata.ID := fileID;
          FileMetadata.OriginalName := basename filePath;
          FileMetadata.Size := len D;
          FileMetadata.Checksum := sha256_hex D;
          FileMetadata.ChunkCount := K;
          FileMetadata.Chunks := chunksFrom D K fileID 0 (Z.to_nat K);
          FileMetadata.ContentType := "" |}.
Proof.
  intros Hfile HK HKmax HDmax.
  pose proof (chunkCount_int64 K HK HKmax) as HK64.
  pose proof (maxAlloc_int64 _ HDmax) as HD.
  rewrite (ChunkFile_exact fs filePath D) by (done || lia).
  destruct (chunkSizeAt_le_last D K 0) as [_ Hlast]; [lia..|].
  case_decide as Hc; [done|]. destruct Hc. split; [done|lia].
Qed.

(** What [ChunkFile] returns, when it returns: the closed form. *)
Lemma ChunkFile_inv fs filePath D K fileID metadata :
  fs_files fs !! filePath = Some D →
  0 < K ≤ int64_max → len D ≤ int64_max →
  chunking.ChunkFile fs filePath K fileID = Ok metadata →
  K * sizeof FileChunk.t ≤ maxAlloc ∧
  FileMetadata.Chunks metadata = chunksFrom D K fileID 0 (Z.to_nat K).
Proof.
  intros Hfile HK HD. rewrite (ChunkFile_exact fs filePath D) by done.
  case_decide as Hc; [|done]. intros [= <-]. by destruct Hc.
Qed.

Lemma chunkFileInMemory_loop_spec D K fileID n : ∀ i done,
  0 < K ≤ int64_max → len D ≤ int64_max →
  0 ≤ i → i + Z.of_nat n = K → length done = Z.to_nat i →
  StreamingAPIServer.chunkFileInMemory_loop D fileID K (len D) (len D `div` K) n i
    (done ++ replicate n FileChunk.zero)
  = Ok (done ++ chunksFrom D K fileID i n).
Proof.
  induction n as [|n IH]; intros i done HK HD Hi Hn Hdone.
  { simpl. unfold chunksFrom. simpl. done. }
  rewrite chunksFrom_S. cbn [StreamingAPIServer.chunkFileInMemory_loop].
  destruct (chunk_bounds D K i) as (Hb & Hr & Hs & Hle & Hlast); [lia..|].
  pose proof (len_nonneg D) as HD0.
  assert (0 ≤ i * (len D `div` K)) as Hstart by nia.
  assert (sub64 K 1 = K - 1) as ->.
  { apply wrap64_id. int64_range. }
  assert (mul64 i (len D `div` K) = i * (len D `div` K)) as ->.
  { apply wrap64_id. int64_range. }
  assert ((if decide (i = K - 1) then len D
           else add64 (i * (len D `div` K)) (len D `div` K))
          = i * (len D `div` K) + chunkSizeAt D K i) as ->.
  { unfold chunkSizeAt in *. case_decide; [lia|].
    apply wrap64_id. int64_range. }
  unfold slice. case_decide; [|lia]. cbn [mbind outcome_bind].
  replace (i * (len D `div` K) + chunkSizeAt D K i - i * (len D `div` K))
    with (chunkSizeAt D K i) by lia.
  fold (chunkBytesAt D K i).
  rewrite chunkBytesAt_length by lia.
  rewrite set_index_next by done. cbn [mbind outcome_bind].
  rewrite (IH (i + 1)); try lia.
  - by rewrite <- app_assoc.
  - rewrite length_app. simpl. lia.
Qed.

Lemma chunkFileInMemory_ok D K fileID :
  0 < K → K * sizeof FileChunk.t ≤ maxAlloc → len D ≤ int64_max →
  StreamingAPIServer.chunkFileInMemory D fileID K
  = Ok (chunksFrom D K fileID 0 (Z.to_nat K)).
Proof.
  intros HK HKmax HD. pose proof (len_nonneg D) as HD0.
  pose proof (chunkCount_int64 K HK HKmax) as HK64.
  unfold StreamingAPIServer.chunkFileInMemory.
  rewrite div64_pos by lia. cbn [mbind outcome_bind].
  rewrite make_ok by (done || lia). cbn [mbind outcome_bind].
  pose proof (chunkFileInMemory_loop_spec D K fileID (Z.to_nat K) 0 []) as Hloop.
  cbn [app] in Hloop. apply Hloop; first [done | lia].
Qed.

(** Beyond the allocation limit [chunkFileInMemory] panics in [make]. *)
Lemma chunkFileInMemory_too_many D K fileID :
  maxAlloc < K * sizeof FileChunk.t →
  StreamingAPIServer.chunkFileInMemory D fileID K = Panic PanicMakeSliceLen.
Proof.
  intros HK. unfold StreamingAPIServer.chunkFileInMemory, div64.
  case_decide; [alloc_range|]. cbn [mbind outcome_bind].
  by rewrite make_too_long.
Qed.

(** What [chunkFileInMemory] returns, when it returns: the closed form. *)
Lemma chunkFileInMemory_inv D K fileID chunks :
  0 < K → len D ≤ int64_max →
  StreamingAPIServer.chunkFileInMemory D fileID K = Ok chunks →
  K * sizeof FileChunk.t ≤ maxAlloc ∧
  chunks = chunksFrom D K fileID 0 (Z.to_nat K).
Proof.
  intros HK HD.
  destruct (decide (K * sizeof FileChunk.t ≤ maxAlloc)) as [HKmax|HKmax].
  - rewrite chunkFileInMemory_ok by done. by intros [= <-].
  - by rewrite chunkFileInMemory_too_many by lia.
Qed.

(** Beyond the allocation limit [ChunkFile] panics in [make] as well. *)
Lemma ChunkFile_too_many fs filePath D K fileID :
  fs_files fs !! filePath = Some D →
  K ≤ int64_max → len D ≤ int64_max →
  maxAlloc < K * sizeof FileChunk.t →
  chunking.ChunkFile fs filePath K fileID = Panic PanicMakeSliceLen.
Proof.
  intros Hfile HK HD Hover.
  rewrite (ChunkFile_exact fs filePath D) by (done || alloc_range).
  case_decide as Hc; [|done]. destruct Hc. lia.
Qed.

Lemma chunksFrom_length D K fileID i n : length (chunksFrom D K fileID i n) = n.
Proof. unfold chunksFrom. by rewrite length_fmap, length_seq. Qed.

Lemma chunksFrom_lookup D K fileID i n (k : nat) :
  (k < n)%nat →
  chunksFrom D K fileID i n !! k = Some (chunkAt D K fileID (i + Z.of_nat k)).
Proof.
  intros Hk. unfold chunksFrom. rewrite list_lookup_fmap, lookup_seq_lt by done.
  done.
Qed.

Lemma chunksFrom_lookup_Some D K fileID i n (k : nat) chunk :
  chunksFrom D K fileID i n !! k = Some chunk →
  (k < n)%nat ∧ chunk = chunkAt D K fileID (i + Z.of_nat k).
Proof.
  intros Hk. assert (k < n)%nat as Hlt.
  { apply lookup_lt_Some in Hk. by rewrite chunksFrom_length in Hk. }
  rewrite chunksFrom_lookup in Hk by done. by simplify_eq.
Qed.

Lemma chunksFrom_payloads D K fileID n : ∀ i,
  0 < K → 0 ≤ i → i + Z.of_nat n = K → n ≠ O →
  payloads (chunksFrom D K fileID i n) = drop (Z.to_nat (i * (len D `div` K))) D.
Proof.
  induction n as [|n IH]; intros i HK Hi Hn Hn0; [done|].
  rewrite chunksFrom_S. unfold payloads. cbn [fmap list_fmap concat].
  fold (payloads (chunksFrom D K fileID (i + 1) n)).
  destruct (chunk_bounds D K i) as (Hb & Hr & Hs & Hle & Hlast); [lia..|].
  assert (0 ≤ i * (len D `div` K)) as Hstart by nia.
  unfold FileChunk.payload, chunkAt. cbn [FileChunk.Data default].
  destruct n as [|n].
  - unfold chunksFrom, payloads. cbn. rewrite app_nil_r.
    unfold chunkBytesAt. apply take_ge. rewrite length_drop.
    specialize (Hlast ltac:(lia)). revert Hlast Hstart Hs.
    generalize (i * (len D `div` K)) (chunkSizeAt D K i). unfold len. lia.
  - rewrite IH by lia. unfold chunkBytesAt, chunkSizeAt.
    case_decide; [lia|].
    replace (Z.to_nat ((i + 1) * (len D `div` K)))
      with (Z.to_nat (i * (len D `div` K)) + Z.to_nat (len D `div` K))%nat by nia.
    rewrite <- drop_drop. apply take_drop.
Qed.

Lemma chunksFrom_concat D K fileID :
  0 < K → payloads (chunksFrom D K fileID 0 (Z.to_nat K)) = D.
Proof.
  intros HK. rewrite chunksFrom_payloads by lia. by rewrite Z.mul_0_l.
Qed.

Lemma chunksFrom_indexed D K fileID n : indexed (chunksFrom D K fileID 0 n).
Proof.
  intros i chunk Hi. apply chunksFrom_lookup_Some in Hi as [_ ->].
  cbn. lia.
Qed.

Lemma sumSizes_payloads (chunks : list FileChunk.t) :
  Forall (λ chunk, FileChunk.Size chunk = len (FileChunk.payload chunk)) chunks →
  sumSizes chunks = len (payloads chunks).
Proof.
  induction 1 as [|chunk chunks Hc _ IH]; [done|].
  unfold sumSizes, payloads, len in *. cbn. rewrite length_app. 
  unfold sumSizes, payloads, len in IH. lia.
Qed.

Lemma chunksFrom_sizes D K fileID :
  0 < K →
  Forall (λ chunk, FileChunk.Size chunk = len (FileChunk.payload chunk))
    (chunksFrom D K fileID 0 (Z.to_nat K)).
Proof.
  intros HK. apply Forall_lookup. intros k chunk Hk.
  apply chunksFrom_lookup_Some in Hk as [Hk ->].
  cbn. by rewrite chunkBytesAt_length by lia.
Qed.

Lemma chunksFrom_sumSizes D K fileID :
  0 < K → sumSizes (chunksFrom D K fileID 0 (Z.to_nat K)) = len D.
Proof.
  intros HK. rewrite sumSizes_payloads by by apply chunksFrom_sizes.
  by rewrite chunksFrom_concat.
Qed.
End split_facts.

(** ** The sort and the index check of [ReconstructFile] *)

Section sorting.
Implicit Types (chunks pre mid rest : list FileChunk.t) (x y : FileChunk.t).

Lemma lookup_focus pre x rest : (pre ++ x :: rest) !! length pre = Some x.
Proof. by rewrite list_lookup_middle. Qed.

Lemma lookup_focus2 pre x mid y rest :
  (pre ++ x :: mid ++ y :: rest) !! S (length pre + length mid) = Some y.
Proof.
  rewrite lookup_app_r by lia.
  replace (S (length pre + length mid) - length pre)%nat with (S (length mid)) by lia.
  cbn. by apply list_lookup_middle.
Qed.

Lemma swap_focus pre x mid y rest :
  chunking.swap (pre ++ x :: mid ++ y :: rest) (length pre) (S (length pre + length mid))
  = pre ++ y :: mid ++ x :: rest.
Proof.
  unfold chunking.swap. rewrite lookup_focus, lookup_focus2.
  rewrite (insert_app_r_alt pre _ (S _)) by lia.
  replace (S (length pre + length mid) - length pre)%nat with (S (length mid)) by lia.
  cbn. rewrite (insert_app_r_alt mid _ (length mid)) by lia.
  rewrite Nat.sub_diag. cbn.
  rewrite insert_app_r_alt by lia. rewrite Nat.sub_diag. done.
Qed.

(** The inner loop leaves at position [i] a least element of the part it
    scans, and permutes that part. *)
Lemma sort_inner_spec rest : ∀ pre x mid,
  Forall (byIndex x) mid →
  ∃ x' rest',
    chunking.sort_inner (length rest) (length pre) (S (length pre + length mid))
      (pre ++ x :: mid ++ rest) = pre ++ x' :: rest' ∧
    x' :: rest' ≡ₚ x :: mid ++ rest ∧
    Forall (byIndex x') rest'.
Proof.
  induction rest as [|y rest IH]; intros pre x mid Hmid.
  { exists x, mid. cbn. rewrite app_nil_r. done. }
  cbn [length chunking.sort_inner].
  rewrite lookup_focus, lookup_focus2.
  case_decide as Hgt.
  - rewrite swap_focus.
    destruct (IH pre y (mid ++ [x])) as (x' & rest' & Heq & Hperm & Hle).
    { apply Forall_app. split.
      - eapply Forall_impl; [done|]. unfold byIndex. intros; lia.
      - apply Forall_singleton. unfold byIndex. lia. }
    exists x', rest'. rewrite length_app in Heq. cbn in Heq.
    rewrite <- app_assoc in Heq. cbn in Heq.
    replace (S (length pre + (length mid + 1)))
      with (S (S (length pre + length mid))) in Heq by lia.
    split; [done|]. split; [|done].
    rewrite Hperm. rewrite <- app_assoc. cbn.
    rewrite <- !Permutation_middle. apply perm_swap.
  - destruct (IH pre x (mid ++ [y])) as (x' & rest' & Heq & Hperm & Hle).
    { apply Forall_app. split; [done|].
      apply Forall_singleton. unfold byIndex. lia. }
    exists x', rest'. rewrite length_app in Heq. cbn in Heq.
    rewrite <- app_assoc in Heq. cbn in Heq.
    replace (S (length pre + (length mid + 1)))
      with (S (S (length pre + length mid))) in Heq by lia.
    split; [done|]. split; [|done].
    rewrite Hperm. by rewrite <- app_assoc.
Qed.

Lemma sort_outer_spec n : ∀ rest pre,
  length rest = n →
  StronglySorted byIndex pre →
  (∀ a b, a ∈ pre → b ∈ rest → byIndex a b) →
  chunking.sort_outer n (length pre) (pre ++ rest) ≡ₚ pre ++ rest ∧
  StronglySorted byIndex (chunking.sort_outer n (length pre) (pre ++ rest)).
Proof.
  induction n as [|n IH]; intros rest pre Hn Hpre Hle.
  { apply nil_length_inv in Hn as ->. cbn. rewrite app_nil_r. done. }
  destruct rest as [|x rest]; [done|]. cbn in Hn.
  cbn [chunking.sort_outer]. rewrite length_app. cbn [length].
  replace (length pre + S (length rest) - S (length pre))%nat
    with (length rest) by lia.
  destruct (sort_inner_spec rest pre x []) as (x' & rest' & Heq & Hperm & Hmin);
    [done|].
  cbn [app length] in Heq. rewrite Nat.add_0_r in Heq. rewrite Heq.
  assert (length rest' = n) as Hlen.
  { apply Permutation_length in Hperm. cbn in Hperm. lia. }
  replace (S (length pre)) with (length (pre ++ [x'])) by (rewrite length_app; cbn; lia).
  rewrite (cons_middle x' pre rest'), app_assoc.
  destruct (IH rest' (pre ++ [x'])) as [Hp Hs]; [done| | |].
  - apply StronglySorted_app_2; [ |done|repeat constructor].
    intros a b Ha Hb. apply list_elem_of_singleton in Hb as ->.
    apply Hle; [done|]. rewrite <- Hperm. left.
  - intros a b Ha Hb. apply elem_of_app in Ha as [Ha|Ha].
    + apply Hle; [done|]. rewrite <- Hperm. by right.
    + apply list_elem_of_singleton in Ha as ->.
      by eapply Forall_forall in Hmin.
  - split; [|done]. rewrite Hp, <- app_assoc. cbn. by rewrite Hperm.
Qed.

(** The sort of [ReconstructFile] sorts: its result is a permutation of
    the chunks in non-decreasing order of [Index]. *)
Lemma sortChunks_sorts chunks :
  chunking.sortChunks chunks ≡ₚ chunks ∧
  StronglySorted byIndex (chunking.sortChunks chunks).
Proof.
  unfold chunking.sortChunks.
  destruct (sort_outer_spec (length chunks) chunks []) as [Hp Hs];
    [done|constructor| |done].
  intros a b Ha. by apply elem_of_nil in Ha.
Qed.

Lemma sort_inner_id n i : ∀ j chunks,
  (∀ a b (k : nat), chunks !! i = Some a → chunks !! k = Some b → (j ≤ k)%nat →
     FileChunk.Index a ≤ FileChunk.Index b) →
  chunking.sort_inner n i j chunks = chunks.
Proof.
  induction n as [|n IH]; intros j chunks Hle; [done|].
  cbn [chunking.sort_inner].
  assert (∀ a' b' (k : nat), chunks !! i = Some a' → chunks !! k = Some b' →
            (S j ≤ k)%nat → FileChunk.Index a' ≤ FileChunk.Index b') as Hle'.
  { intros a' b' k Ha' Hb' Hk. eapply Hle; eauto. lia. }
  match goal with
  | |- chunking.sort_inner _ _ _ ?c = _ => assert (c = chunks) as ->
  end; [|exact (IH _ _ Hle')].
  clear Hle'. destruct (chunks !! i) as [a|] eqn:Ha; [|done].
  destruct (chunks !! j) as [b|] eqn:Hb; [|done].
  case_decide as Hgt; [|done].
  specialize (Hle a b j eq_refl Hb ltac:(lia)). lia.
Qed.

Lemma sort_outer_id n : ∀ i chunks,
  (∀ a b (i k : nat), chunks !! i = Some a → chunks !! k = Some b → (i < k)%nat →
     FileChunk.Index a ≤ FileChunk.Index b) →
  chunking.sort_outer n i chunks = chunks.
Proof.
  induction n as [|n IH]; intros i chunks Hle; [done|].
  cbn [chunking.sort_outer]. rewrite sort_inner_id; [by apply IH|].
  intros a b k Ha Hb Hk. eapply Hle; eauto.
Qed.

(** Chunks that are already in place are left in place. *)
Lemma sortChunks_indexed chunks : indexed chunks → chunking.sortChunks chunks = chunks.
Proof.
  intros Hidx. apply sort_outer_id. intros a b i k Ha Hb Hik.
  rewrite (Hidx _ _ Ha), (Hidx _ _ Hb). lia.
Qed.

Lemma checkIndices_None chunks : ∀ i,
  chunking.checkIndices i chunks = None ↔
  ∀ (k : nat) chunk, chunks !! k = Some chunk → FileChunk.Index chunk = i + Z.of_nat k.
Proof.
  induction chunks as [|c chunks IH]; intros i; cbn [chunking.checkIndices].
  { split; [|done]. intros _ k chunk Hk. by rewrite lookup_nil in Hk. }
  case_decide as Hc.
  - split; [done|]. intros Hall. specialize (Hall O c eq_refl). lia.
  - rewrite IH. split.
    + intros Hall [|k] chunk Hk; cbn in Hk; [simplify_eq; lia|].
      rewrite (Hall k chunk Hk). lia.
    + intros Hall k chunk Hk. rewrite (Hall (S k) chunk Hk). lia.
Qed.

Lemma checkIndices_Some chunks : ∀ i m,
  chunking.checkIndices i chunks = Some m →
  ∃ k : nat, m = i + Z.of_nat k ∧
    (∃ chunk, chunks !! k = Some chunk ∧ FileChunk.Index chunk ≠ m) ∧
    ∀ (k' : nat) chunk, (k' < k)%nat → chunks !! k' = Some chunk →
      FileChunk.Index chunk = i + Z.of_nat k'.
Proof.
  induction chunks as [|c chunks IH]; intros i m; cbn [chunking.checkIndices]; [done|].
  case_decide as Hc.
  - intros [= <-]. exists O. split; [lia|]. split; [by exists c|]. lia.
  - intros Hm. destruct (IH _ _ Hm) as (k & -> & (chunk & Hk & Hne) & Hbefore).
    exists (S k). split; [lia|]. split; [exists chunk; split; [done|lia]|].
    intros [|k'] chunk' Hlt Hk'; cbn in Hk'; [simplify_eq; lia|].
    rewrite (Hbefore k' chunk') by (done || lia). lia.
Qed.

Lemma writeChunks_spec chunks : ∀ files locked outputPath acc,
  chunking.writeChunks {| fs_files := <[outputPath := acc]> files; fs_locked := locked |}
    outputPath chunks
  = {| fs_files := <[outputPath := acc ++ payloads chunks]> files; fs_locked := locked |}.
Proof.
  induction chunks as [|c chunks IH]; intros files locked outputPath acc.
  { unfold payloads. cbn. by rewrite app_nil_r. }
  cbn [chunking.writeChunks]. unfold file_Write. cbn [fs_files fs_locked].
  rewrite alter_insert_eq, IH. unfold payloads. cbn. by rewrite app_assoc.
Qed.

(** What [ReconstructFile] does, in terms of the sorted chunks. *)
Lemma ReconstructFile_spec fs chunks outputPath :
  chunks ≠ [] →
  let sorted := chunking.sortChunks chunks in
  (indexed sorted → outputPath ∉ fs_locked fs →
     chunking.ReconstructFile fs chunks outputPath
     = (None, {| fs_files := <[outputPath := payloads sorted]> (fs_files fs);
                 fs_locked := fs_locked fs |})) ∧
  (indexed sorted → outputPath ∈ fs_locked fs →
     chunking.ReconstructFile fs chunks outputPath = (Some ErrCreateOutput, fs)) ∧
  (¬ indexed sorted →
     ∃ i : nat, firstMismatch sorted i ∧
       chunking.ReconstructFile fs chunks outputPath
       = (Some (ErrMissingChunk (Z.of_nat i)), fs)).
Proof.
  intros Hne sorted. unfold chunking.ReconstructFile.
  assert (len chunks ≠ 0) as Hlen.
  { unfold len. destruct chunks; [done|]. cbn. lia. }
  case_decide; [done|]. fold sorted.
  destruct (chunking.checkIndices 0 sorted) as [m|] eqn:Hcheck.
  - apply checkIndices_Some in Hcheck as (k & -> & (chunk & Hk & Hne') & Hbefore).
    assert (¬ indexed sorted) as Hnot.
    { intros Hidx. specialize (Hidx k chunk Hk). lia. }
    repeat split; try done.
    intros _. exists k. split; [|by rewrite Z.add_0_l].
    split; [exists chunk; split; [done|lia]|].
    intros k' chunk' Hlt Hk'. rewrite (Hbefore k' chunk'); [lia|done..].
  - assert (indexed sorted) as Hidx.
    { intros k chunk Hk. rewrite checkIndices_None in Hcheck.
      rewrite (Hcheck k chunk Hk). lia. }
    unfold os_Create. repeat split; try done.
    + intros _ Hfree. case_decide; [done|]. by rewrite writeChunks_spec.
    + intros _ Hlocked. by case_decide.
Qed.

Lemma StronglySorted_byIndex_lookup chunks (j k : nat) a b :
  StronglySorted byIndex chunks → (j < k)%nat →
  chunks !! j = Some a → chunks !! k = Some b → byIndex a b.
Proof.
  intros Hs Hjk Ha Hb.
  rewrite <- (take_drop k chunks) in Hs.
  eapply StronglySorted_app_1_elem_of; [done| |].
  - apply list_elem_of_lookup. exists j. by rewrite lookup_take_lt.
  - apply list_elem_of_lookup. exists O. by rewrite lookup_drop, Nat.add_0_r.
Qed.

(** In a sorted list of chunks with pairwise distinct, non-negative
    indices, the first position that does not carry its own index is the
    least index that no chunk carries. *)
Lemma firstMismatch_absent chunks (i : nat) :
  StronglySorted byIndex chunks →
  NoDup (FileChunk.Index <$> chunks) →
  Forall (λ chunk, 0 ≤ FileChunk.Index chunk) chunks →
  firstMismatch chunks i →
  (Z.of_nat i ∉ FileChunk.Index <$> chunks) ∧
  ∀ k, 0 ≤ k < Z.of_nat i → k ∈ FileChunk.Index <$> chunks.
Proof.
  intros Hs Hnd Hpos [(c & Hc & Hne) Hbefore].
  assert (Z.of_nat i < FileChunk.Index c) as Hgt.
  { destruct i as [|i'].
    - eapply Forall_lookup_1 in Hpos; [|done]. cbn in Hpos. lia.
    - destruct (chunks !! i') as [c'|] eqn:Hc'.
      2:{ apply lookup_ge_None in Hc'. apply lookup_lt_Some in Hc. lia. }
      pose proof (Hbefore i' c' ltac:(lia) Hc') as Hi'.
      pose proof (StronglySorted_byIndex_lookup chunks i' (S i') c' c Hs
                    ltac:(lia) Hc' Hc) as Hle.
      unfold byIndex in Hle.
      assert (FileChunk.Index c ≠ FileChunk.Index c') as Hdiff.
      { intros Heq.
        assert (S i' = i') as Habs; [|lia].
        eapply (NoDup_lookup _ _ _ _ Hnd); rewrite list_lookup_fmap.
        - by rewrite Hc.
        - rewrite Hc'. cbn. by rewrite Heq. }
      lia. }
  split.
  - intros Hin. apply list_elem_of_fmap in Hin as (d & Hd & Hin).
    apply list_elem_of_lookup in Hin as [k Hk].
    destruct (decide (k < i)%nat) as [Hlt|Hge].
    { pose proof (Hbefore k d Hlt Hk). lia. }
    destruct (decide (k = i)) as [->|Hki]; [by simplify_eq|].
    pose proof (StronglySorted_byIndex_lookup chunks i k c d Hs ltac:(lia) Hc Hk) as Hle.
    unfold byIndex in Hle. lia.
  - intros k Hk. apply list_elem_of_fmap.
    destruct (chunks !! Z.to_nat k) as [d|] eqn:Hd.
    2:{ apply lookup_ge_None in Hd. apply lookup_lt_Some in Hc. lia. }
    exists d. split.
    + rewrite (Hbefore (Z.to_nat k) d) by (lia || done). lia.
    + apply list_elem_of_lookup. by exists (Z.to_nat k).
Qed.
End sorting.

(** ** The chunk codec *)

Section codec.
Context {platform : Platform}.

(** C1. For every chunk count [K > 0]: reconstructing with
    [ReconstructFile] the chunks that [ChunkFile] returns for a file of
    bytes [D] writes exactly [D] to the output file.  [ChunkFile] does
    return chunks whenever its allocations, a slice of [K] chunks and
    buffers of at most [len D] bytes, are within the allocation limit;
    beyond it [make] panics and there are no chunks to reconstruct. *)
Theorem split_then_reconstruct_restores_file
    fs filePath outputPath (D : list byte) K fileID :
  fs_files fs !! filePath = Some D →
  0 < K → K ≤ int64_max → len D ≤ int64_max →
  outputPath ∉ fs_locked fs →
  (∀ metadata,
     chunking.ChunkFile fs filePath K fileID = Ok metadata →
     chunking.ReconstructFile fs (FileMetadata.Chunks metadata) outputPath
     = (None, {| fs_files := <[outputPath := D]> (fs_files fs);
                 fs_locked := fs_locked fs |})) ∧
  (K * sizeof FileChunk.t ≤ maxAlloc → len D ≤ maxAlloc →
   ∃ metadata, chunking.ChunkFile fs filePath K fileID = Ok metadata).
Proof.
  intros Hfile HK HKmax HD Hfree. split; [|by eexists; apply ChunkFile_ok].
  intros metadata Hsplit.
  apply (ChunkFile_inv fs filePath D) in Hsplit as [_ ->]; [|done..].
  set (chunks := chunksFrom D K fileID 0 (Z.to_nat K)).
  assert (indexed chunks) as Hidx by apply chunksFrom_indexed.
  assert (chunks ≠ []) as Hne.
  { intros Hnil. apply (f_equal length) in Hnil.
    unfold chunks in Hnil. rewrite chunksFrom_length in Hnil. cbn in Hnil. lia. }
  destruct (ReconstructFile_spec fs chunks outputPath Hne) as (Hok & _ & _).
  rewrite sortChunks_indexed in Hok by done.
  rewrite Hok by done. unfold chunks. by rewrite chunksFrom_concat.
Qed.

(** The sizes of the closed form. *)
Lemma chunksFrom_splitSizes D K fileID :
  0 < K → splitSizes (len D) K (chunksFrom D K fileID 0 (Z.to_nat K)).
Proof.
  intros HK. split; [|split].
  - unfold len at 1. rewrite chunksFrom_length. lia.
  - intros i chunk Hi. apply chunksFrom_lookup_Some in Hi as [Hi ->].
    rewrite Z.add_0_l. cbn. split; [|done].
    by rewrite chunkBytesAt_length by lia.
  - by apply chunksFrom_sumSizes.
Qed.

(** C3. For every [K > 0], the chunks that either split returns for [D]
    have [len D / K] bytes each but the last, which has [len D / K + len
    D mod K] bytes, so that the sizes add up to [len D].  Both splits do
    return chunks whenever their allocations are within the allocation
    limit: the slice of [K] chunks and, for [ChunkFile], buffers of at
    most [len D] bytes. *)
Theorem split_chunk_sizes fs filePath (D : list byte) K fileID :
  fs_files fs !! filePath = Some D →
  0 < K → K ≤ int64_max → len D ≤ int64_max →
  (∀ metadata,
     chunking.ChunkFile fs filePath K fileID = Ok metadata →
     splitSizes (len D) K (FileMetadata.Chunks metadata)) ∧
  (∀ chunks,
     StreamingAPIServer.chunkFileInMemory D fileID K = Ok chunks →
     splitSizes (len D) K chunks) ∧
  (K * sizeof FileChunk.t ≤ maxAlloc →
   (∃ chunks, StreamingAPIServer.chunkFileInMemory D fileID K = Ok chunks) ∧
   (len D ≤ maxAlloc →
    ∃ metadata, chunking.ChunkFile fs filePath K fileID = Ok metadata)).
Proof.
  intros Hfile HK HKmax HD. split; [|split].
  - intros metadata Hsplit.
    apply (ChunkFile_inv fs filePath D) in Hsplit as [_ ->]; [|done..].
    by apply chunksFrom_splitSizes.
  - intros chunks Hsplit.
    apply chunkFileInMemory_inv in Hsplit as [_ ->]; [|done..].
    by apply chunksFrom_splitSizes.
  - intros Halloc. split; [by eexists; apply chunkFileInMemory_ok|].
    intros HDmax. eexists. by apply ChunkFile_ok.
Qed.

(** C8, as the code has it. When [K] exceeds the number of bytes of [D]
    and a slice of [K] chunks is within the allocation limit, both splits
    succeed with exactly [K] chunks: every chunk before the last is empty
    (so some chunk is), and the payloads still concatenate to [D].  When
    the slice is beyond the limit both splits panic in [make]. *)
Theorem split_more_chunks_than_bytes fs filePath (D : list byte) K fileID :
  fs_files fs !! filePath = Some D →
  len D < K → K ≤ int64_max →
  (K * sizeof FileChunk.t ≤ maxAlloc →
   ∃ metadata,
     chunking.ChunkFile fs filePath K fileID = Ok metadata ∧
     StreamingAPIServer.chunkFileInMemory D fileID K
     = Ok (FileMetadata.Chunks metadata) ∧
     len (FileMetadata.Chunks metadata) = K ∧
     (∀ (i : nat) chunk, FileMetadata.Chunks metadata !! i = Some chunk →
        Z.of_nat i < K - 1 → FileChunk.Data chunk = Some []) ∧
     (∃ chunk, chunk ∈ FileMetadata.Chunks metadata ∧ FileChunk.Data chunk = Some []) ∧
     payloads (FileMetadata.Chunks metadata) = D) ∧
  (maxAlloc < K * sizeof FileChunk.t →
   chunking.ChunkFile fs filePath K fileID = Panic PanicMakeSliceLen ∧
   StreamingAPIServer.chunkFileInMemory D fileID K = Panic PanicMakeSliceLen).
Proof.
  intros Hfile HDK HK64. pose proof (len_nonneg D) as HD0. split.
  2:{ intros Hover. split; [|by apply chunkFileInMemory_too_many].
      apply (ChunkFile_too_many fs filePath D); [done|done|lia|done]. }
  intros HKmax.
  assert (len D `div` K = 0) as Hbase by (apply Z.div_small; lia).
  assert (len D `mod` K = len D) as Hrem by (apply Z.mod_small; lia).
  assert (len D ≤ maxAlloc) as HDmax by alloc_range.
  eexists. split; [apply ChunkFile_ok; [done|lia..]|].
  split; [apply chunkFileInMemory_ok; [lia|done|by apply maxAlloc_int64]|].
  cbn [FileMetadata.Chunks].
  assert (∀ (i : nat) chunk,
            chunksFrom D K fileID 0 (Z.to_nat K) !! i = Some chunk →
            Z.of_nat i < K - 1 → FileChunk.Data chunk = Some []) as Hempty.
  { intros i chunk Hi Hlt. apply chunksFrom_lookup_Some in Hi as [Hi ->].
    cbn. f_equal. unfold chunkBytesAt, chunkSizeAt.
    case_decide; [lia|]. by rewrite Hbase. }
  split; [|split; [done|split]].
  - unfold len at 1. rewrite chunksFrom_length. lia.
  - destruct (decide (K = 1)) as [->|HK1].
    + exists (chunkAt D 1 fileID 0). split.
      * apply list_elem_of_lookup. exists O. by rewrite chunksFrom_lookup by lia.
      * cbn. f_equal. unfold chunkBytesAt. destruct D; [by rewrite drop_nil, take_nil|].
        unfold len in HDK. cbn in HDK. lia.
    + exists (chunkAt D K fileID 0). 
      assert (chunksFrom D K fileID 0 (Z.to_nat K) !! O
              = Some (chunkAt D K fileID 0)) as H0.
      { by rewrite chunksFrom_lookup by lia. }
      split; [apply list_elem_of_lookup; by exists O|].
      apply (Hempty O); [done|lia].
  - apply chunksFrom_concat. lia.
Qed.

(** C9. On the same bytes, chunk count [K > 0] and file id, [ChunkFile]
    and [chunkFileInMemory] produce the same sequence of chunks: what
    [ChunkFile] returns [chunkFileInMemory] returns as well, and the
    other way round when the bytes of [D], which [ChunkFile] reads into
    buffers, are within the allocation limit.  Chunks are produced
    whenever the slice of [K] chunks is within that limit. *)
Theorem split_implementations_agree fs filePath (D : list byte) K fileID :
  fs_files fs !! filePath = Some D →
  0 < K → K ≤ int64_max → len D ≤ int64_max →
  (∀ metadata,
     chunking.ChunkFile fs filePath K fileID = Ok metadata →
     StreamingAPIServer.chunkFileInMemory D fileID K
     = Ok (FileMetadata.Chunks metadata)) ∧
  (len D ≤ maxAlloc →
   ∀ chunks,
     StreamingAPIServer.chunkFileInMemory D fileID K = Ok chunks →
     ∃ metadata,
       chunking.ChunkFile fs filePath K fileID = Ok metadata ∧
       FileMetadata.Chunks metadata = chunks) ∧
  (K * sizeof FileChunk.t ≤ maxAlloc →
   ∃ chunks, StreamingAPIServer.chunkFileInMemory D fileID K = Ok chunks).
Proof.
  intros Hfile HK HKmax HD. split; [|split].
  - intros metadata Hsplit.
    apply (ChunkFile_inv fs filePath D) in Hsplit as [Halloc ->]; [|done..].
    by apply chunkFileInMemory_ok.
  - intros HDmax chunks Hsplit.
    apply chunkFileInMemory_inv in Hsplit as [Halloc ->]; [|done..].
    eexists. split; [by apply ChunkFile_ok|done].
  - intros Halloc. eexists. by apply chunkFileInMemory_ok.
Qed.

(** C2, as the code has it. With a chunk count [K <= 0] neither split
    returns an error or a result: both panic, on the division when [K]
    is 0 and on the allocation of the chunk slice when [K] is negative
    ([ChunkFile] once the file is open). *)
Theorem split_nonpositive_count_panics fs filePath (D : list byte) K fileID :
  fs_files fs !! filePath = Some D →
  K ≤ 0 →
  let p := if decide (K = 0) then PanicDivideByZero else PanicMakeSliceLen in
  chunking.ChunkFile fs filePath K fileID = Panic p ∧
  StreamingAPIServer.chunkFileInMemory D fileID K = Panic p.
Proof.
  intros Hfile HK p. subst p.
  unfold chunking.ChunkFile, StreamingAPIServer.chunkFileInMemory, os_Open.
  rewrite Hfile. cbn [mbind option_bind f_bytes].
  unfold div64, rem64. case_decide; [done|].
  cbn [mbind outcome_bind]. unfold io_Copy, make.
  case_decide; [done|lia].
Qed.


(** C4, as the code has it. On a non-empty list [ReconstructFile] sorts
    the chunks by index; when every position of the sorted list carries
    its own index it writes the payloads in that order and succeeds (the
    output file being creatable); otherwise it fails with the error that
    names the first position not carrying its index, and that position is
    the first absent index when the indices are pairwise distinct and
    non-negative. *)
Theorem ReconstructFile_sorts_then_checks fs (chunks : list FileChunk.t) outputPath :
  chunks ≠ [] →
  let sorted := chunking.sortChunks chunks in
  sorted ≡ₚ chunks ∧
  StronglySorted byIndex sorted ∧
  (indexed sorted → outputPath ∉ fs_locked fs →
     chunking.ReconstructFile fs chunks outputPath
     = (None, {| fs_files := <[outputPath := payloads sorted]> (fs_files fs);
                 fs_locked := fs_locked fs |})) ∧
  (¬ indexed sorted →
     ∃ i : nat,
       firstMismatch sorted i ∧
       chunking.ReconstructFile fs chunks outputPath
       = (Some (ErrMissingChunk (Z.of_nat i)), fs) ∧
       (NoDup (indices chunks) →
        Forall (λ chunk, 0 ≤ FileChunk.Index chunk) chunks →
        firstAbsentIndex chunks (Z.of_nat i))).
Proof.
  intros Hne sorted.
  destruct (sortChunks_sorts chunks) as [Hperm Hsorted]. fold sorted in Hperm, Hsorted.
  destruct (ReconstructFile_spec fs chunks outputPath Hne) as (Hok & _ & Hmissing).
  fold sorted in Hok, Hmissing.
  split; [done|]. split; [done|]. split; [done|].
  intros Hnot. destruct (Hmissing Hnot) as (i & Hfirst & Hres).
  exists i. split; [done|]. split; [done|].
  intros Hnd Hpos. unfold firstAbsentIndex, indices in *.
  destruct (firstMismatch_absent sorted i) as [Habs Hpres]; [done| | |done|].
  - by rewrite Hperm.
  - by rewrite Hperm.
  - split; [lia|]. split.
    + by rewrite <- Hperm.
    + intros k Hk. rewrite <- Hperm. by apply Hpres.
Qed.

End codec.

(** The loop of [ValidateFileMetadata]: what a completed run and what an
    error tell about the chunks. *)

Lemma ValidateFileMetadata_loop_inr id chunks : ∀ i acc total,
  chunking.ValidateFileMetadata_loop id i (wrap64 acc) chunks = inr total →
  (∀ (k : nat) chunk, chunks !! k = Some chunk →
     FileChunk.Index chunk = i + Z.of_nat k ∧ FileChunk.FileID chunk = id) ∧
  total = wrap64 (acc + sumSizes chunks).
Proof.
  induction chunks as [|c chunks IH]; intros i acc total;
    cbn [chunking.ValidateFileMetadata_loop].
  { intros [= <-]. split; [by intros k chunk; rewrite lookup_nil|].
    cbn. by rewrite Z.add_0_r. }
  case_decide as Hidx; [done|]. case_decide as Hfid; [done|].
  unfold add64. rewrite wrap64_add_l. intros Hloop.
  apply IH in Hloop as [Hall ->]. split.
  - intros [|k] chunk Hk; cbn in Hk.
    + injection Hk as <-. split; [lia|done].
    + destruct (Hall k chunk Hk) as [-> ->]. split; [lia|done].
  - f_equal. unfold sumSizes. cbn [foldr]. lia.
Qed.

Lemma ValidateFileMetadata_loop_inl id chunks : ∀ i acc e,
  chunking.ValidateFileMetadata_loop id i acc chunks = inl e →
  metadataInconsistent e ∧
  ((∃ (k : nat) chunk, chunks !! k = Some chunk ∧
      FileChunk.Index chunk ≠ i + Z.of_nat k) ∨
   (∃ chunk, chunk ∈ chunks ∧ FileChunk.FileID chunk ≠ id)).
Proof.
  induction chunks as [|c chunks IH]; intros i acc e;
    cbn [chunking.ValidateFileMetadata_loop]; [done|].
  case_decide as Hidx.
  { intros [= <-]. split; [done|]. left. exists O, c. split; [done|lia]. }
  case_decide as Hfid.
  { intros [= <-]. split; [done|]. right. exists c. split; [left|done]. }
  intros Hloop. apply IH in Hloop as [He [(k & chunk & Hk & Hne)|(chunk & Hin & Hne)]].
  - split; [done|]. left. exists (S k), chunk. split; [done|lia].
  - split; [done|]. right. exists chunk. split; [by right|done].
Qed.

(** The fields of a chunk that [ValidateFileMetadata] reads. *)
Lemma ValidateFileMetadata_loop_ext id chunks : ∀ chunks' i acc,
  indices chunks = indices chunks' →
  FileChunk.FileID <$> chunks = FileChunk.FileID <$> chunks' →
  FileChunk.Size <$> chunks = FileChunk.Size <$> chunks' →
  chunking.ValidateFileMetadata_loop id i acc chunks
  = chunking.ValidateFileMetadata_loop id i acc chunks'.
Proof.
  unfold indices.
  induction chunks as [|c chunks IH]; intros [|c' chunks'] i acc Hi Hf Hs;
    try done.
  cbn in Hi, Hf, Hs.
  injection Hi as Hi Hi'. injection Hf as Hf Hf'. injection Hs as Hs Hs'.
  cbn [chunking.ValidateFileMetadata_loop].
  rewrite Hi, Hf, Hs. repeat case_decide; try done. by apply IH.
Qed.

(** C7, as the code has it. [ValidateFileMetadata] fails, with one of
    its four errors, exactly when the number of chunks differs from
    [ChunkCount], or some chunk does not carry the index of its position,
    or some chunk has another [FileID] than the metadata, or the sum of
    the chunk sizes reduced to a signed 64-bit integer differs from
    [Size].  It reads nothing else: neither the whole-file checksum nor
    the checksums and payloads of the chunks. *)
Theorem ValidateFileMetadata_fails_iff (metadata : FileMetadata.t) :
  let chunks := FileMetadata.Chunks metadata in
  (chunking.ValidateFileMetadata metadata ≠ None ↔
     len chunks ≠ FileMetadata.ChunkCount metadata ∨
     ¬ indexed chunks ∨
     (∃ chunk, chunk ∈ chunks ∧ FileChunk.FileID chunk ≠ FileMetadata.ID metadata) ∨
     wrap64 (sumSizes chunks) ≠ FileMetadata.Size metadata) ∧
  (∀ e, chunking.ValidateFileMetadata metadata = Some e → metadataInconsistent e) ∧
  (∀ checksum,
     chunking.ValidateFileMetadata (withChecksum checksum metadata)
     = chunking.ValidateFileMetadata metadata) ∧
  (∀ metadata',
     FileMetadata.ID metadata' = FileMetadata.ID metadata →
     FileMetadata.Size metadata' = FileMetadata.Size metadata →
     FileMetadata.ChunkCount metadata' = FileMetadata.ChunkCount metadata →
     indices (FileMetadata.Chunks metadata') = indices chunks →
     FileChunk.FileID <$> FileMetadata.Chunks metadata' = FileChunk.FileID <$> chunks →
     FileChunk.Size <$> FileMetadata.Chunks metadata' = FileChunk.Size <$> chunks →
     chunking.ValidateFileMetadata metadata' = chunking.ValidateFileMetadata metadata).
Proof.
  intros chunks. split; [|split; [|split]].
  - unfold chunking.ValidateFileMetadata. fold chunks.
    case_decide as Hcount; [by split; [left|]|].
    destruct (chunking.ValidateFileMetadata_loop _ 0 0 chunks) as [e|total] eqn:Hloop.
    + split; [|done]. intros _.
      apply ValidateFileMetadata_loop_inl in Hloop
        as [_ [(k & chunk & Hk & Hne)|Hfid]].
      * right. left. intros Hidx. specialize (Hidx k chunk Hk). lia.
      * right. right. by left.
    + change 0 with (wrap64 0) in Hloop at 2.
      apply ValidateFileMetadata_loop_inr in Hloop as [Hall ->].
      rewrite Z.add_0_l.
      case_decide as Hsize.
      * split; [|done]. intros _. by repeat right.
      * split; [done|]. intros [?|[Hidx|[(chunk & Hin & Hne)|?]]]; try done.
        -- destruct Hidx. intros k chunk Hk. destruct (Hall k chunk Hk) as [-> _]. lia.
        -- apply list_elem_of_lookup in Hin as [k Hk].
           by destruct (Hall k chunk Hk) as [_ ?].
  - unfold chunking.ValidateFileMetadata. fold chunks. intros e.
    case_decide; [by intros [= <-]|].
    destruct (chunking.ValidateFileMetadata_loop _ 0 0 chunks) as [e'|total] eqn:Hloop.
    + intros [= <-]. by apply ValidateFileMetadata_loop_inl in Hloop as [? _].
    + case_decide; [by intros [= <-]|done].
  - done.
  - intros metadata' Hid Hsize Hcount Hi Hf Hs.
    unfold chunking.ValidateFileMetadata. fold chunks.
    rewrite Hid, Hsize, Hcount.
    assert (len (FileMetadata.Chunks metadata') = len chunks) as ->.
    { unfold len, indices in *. apply (f_equal length) in Hi.
      rewrite !length_fmap in Hi. by rewrite Hi. }
    by rewrite (ValidateFileMetadata_loop_ext _ _ chunks).
Qed.

(** ** The storage node service *)

Section node.
Context {routing : StorageClient.Routing}.

(** The answer of [DELETE /chunks/:id]: 200 when the chunk is stored,
    500 when it is not. *)
Lemma deleteChunk_status (ms : MemoryStorage.t) chunkID :
  status (MemoryStorageServer.deleteChunk ms chunkID).1
  = match MemoryStorage.chunks ms !! chunkID with
    | Some _ => StatusOK
    | None => StatusInternalServerError
    end.
Proof.
  unfold MemoryStorageServer.deleteChunk, MemoryStorage.DeleteChunk.
  by destruct (MemoryStorage.chunks ms !! chunkID).
Qed.

(** The sibling [GET /chunks/:id] answers 404 for a chunk that is not
    stored. *)
Lemma getChunk_status (ms : MemoryStorage.t) chunkID :
  status (MemoryStorageServer.getChunk ms chunkID)
  = match MemoryStorage.chunks ms !! chunkID with
    | Some _ => StatusOK
    | None => StatusNotFound
    end.
Proof.
  unfold MemoryStorageServer.getChunk, MemoryStorage.GetChunk.
  by destruct (MemoryStorage.chunks ms !! chunkID).
Qed.

(** C6, where the code departs from it. Deleting a chunk that the store
    does not hold is answered with status 500, not 404, although the
    lookup of the same chunk is answered with 404 and the client of the
    node is written to accept a 404; as it is, the client reports the
    500 as an error.  Deleting a stored chunk is answered with 200. *)
Theorem deleteChunk_missing_answers_500 :
  let ms := MemoryStorage.NewMemoryStorage in
  let stored := MemoryStorage.mk {[ "f_chunk_0" := Examples.chunkOf "f" 0 [Byte.x01] ]} in
  status (MemoryStorageServer.deleteChunk ms "f_chunk_0").1 = 500 ∧
  status (MemoryStorageServer.getChunk ms "f_chunk_0") = 404 ∧
  (StorageClient.DeleteChunk (Node.mk true ms) "f_chunk_0").1
  = Some (ErrServerStatus 500) ∧
  MemoryStorageServer.deleteChunk stored "f_chunk_0"
  = ({| status := 200; content := BodyAck |}, MemoryStorage.NewMemoryStorage).
Proof. by vm_compute. Qed.

End node.

(** ** The coordinator: reassembly *)

Section download.
Context {routing : StorageClient.Routing}.

Lemma totalSize_loop_spec chunks : ∀ acc,
  0 ≤ acc → acc + len (payloads chunks) ≤ int64_max →
  StreamingAPIServer.totalSize_loop acc chunks = acc + len (payloads chunks).
Proof.
  induction chunks as [|c chunks IH]; intros acc Hacc Hmax;
    cbn [StreamingAPIServer.totalSize_loop].
  { unfold payloads, len. cbn. lia. }
  assert (len (payloads (c :: chunks))
          = len (FileChunk.payload c) + len (payloads chunks)) as Hlen.
  { unfold payloads, len. cbn. rewrite length_app. lia. }
  rewrite Hlen in *.
  pose proof (len_nonneg (FileChunk.payload c)).
  pose proof (len_nonneg (payloads chunks)).
  unfold add64. rewrite wrap64_id.
  - rewrite IH; lia.
  - int64_range.
Qed.

Lemma append_loop_spec chunks : ∀ fileData,
  StreamingAPIServer.append_loop fileData chunks = fileData ++ payloads chunks.
Proof.
  induction chunks as [|c chunks IH]; intros fileData;
    cbn [StreamingAPIServer.append_loop].
  { unfold payloads. cbn. by rewrite app_nil_r. }
  rewrite IH. unfold payloads. cbn. by rewrite app_assoc.
Qed.


End download.

(** ** The coordinator: upload *)

Section upload.
Context {platform : Platform}.

Lemma StoreChunk_nil_iff (node : Node.t) chunk :
  (StorageClient.StoreChunk node chunk).1 = None ↔
  Node.reachable node = true ∧ chunking.ValidateChunk chunk = None.
Proof.
  unfold StorageClient.StoreChunk, MemoryStorageServer.storeChunk.
  destruct (Node.reachable node); [|by split; [|intros []]].
  destruct (chunking.ValidateChunk chunk); cbn; [by split; [|intros []]|].
  by case_decide.
Qed.

Lemma StoreChunk_reachable (node : Node.t) chunk :
  Node.reachable (StorageClient.StoreChunk node chunk).2 = Node.reachable node.
Proof.
  unfold StorageClient.StoreChunk.
  destruct (Node.reachable node) eqn:Hr; [|done].
  by destruct (MemoryStorageServer.storeChunk _ _).
Qed.

Lemma storedAtItsNode_reachable (net net' : list Node.t) k chunk :
  Node.reachable <$> net' = Node.reachable <$> net →
  storedAtItsNode net k chunk → storedAtItsNode net' k chunk.
Proof.
  intros Hreach (node & Hnode & Hok).
  assert (length net' = length net) as Hlen.
  { apply (f_equal length) in Hreach. by rewrite !length_fmap in Hreach. }
  unfold storedAtItsNode. rewrite Hlen.
  assert ((Node.reachable <$> net') !! (k `mod` length net)%nat
          = Some (Node.reachable node)) as Hr.
  { by rewrite Hreach, list_lookup_fmap, Hnode. }
  rewrite list_lookup_fmap in Hr.
  destruct (net' !! (k `mod` length net)%nat) as [node'|]; [|done].
  exists node'. split; [done|]. cbn in Hr.
  apply StoreChunk_nil_iff. apply StoreChunk_nil_iff in Hok as [? ?].
  split; [congruence|done].
Qed.

(** One goroutine of [distributeChunks]. *)
Lemma storeTask_spec (net : list Node.t) (k : nat) chunk :
  net ≠ [] → Z.of_nat k ≤ int64_max →
  ∃ node,
    net !! (k `mod` length net)%nat = Some node ∧
    StreamingAPIServer.storeTask net (Z.of_nat k) chunk
    = Ok (ErrStoreChunk (Z.of_nat k) (Z.of_nat (k `mod` length net))
            <$> (StorageClient.StoreChunk node chunk).1,
          <[(k `mod` length net)%nat := (StorageClient.StoreChunk node chunk).2]> net).
Proof.
  intros Hne Hk.
  assert (0 < length net)%nat as Hlen by (destruct net; [done|cbn; lia]).
  assert (k `mod` length net < length net)%nat as Hlt by (apply Nat.mod_upper_bound; lia).
  destruct (lookup_lt_is_Some_2 net _ Hlt) as [node Hnode].
  exists node. split; [done|].
  unfold StreamingAPIServer.storeTask, rem64, len.
  case_decide; [lia|]. cbn [mbind outcome_bind].
  rewrite Z.rem_mod_nonneg, <- Nat2Z.inj_mod by lia.
  rewrite wrap64_id.
  2:{ pose proof (Nat.Div0.mod_le k (length net)). int64_range. }
  rewrite Nat2Z.id, Hnode.
  by destruct (StorageClient.StoreChunk node chunk) as [[err|] node'].
Qed.

(** All goroutines of [distributeChunks]: no error is sent exactly when
    every scheduled chunk is stored at its node. *)
Lemma runStores_spec chunks sched : ∀ (net : list Node.t) errChan,
  net ≠ [] →
  Forall (λ k : nat, Z.of_nat k ≤ int64_max) sched →
  ∃ errs net',
    StreamingAPIServer.runStores sched chunks net errChan = Ok (errChan ++ errs, net') ∧
    Node.reachable <$> net' = Node.reachable <$> net ∧
    (errs = [] ↔
     ∀ (k : nat) chunk, k ∈ sched → chunks !! k = Some chunk →
       storedAtItsNode net k chunk).
Proof.
  induction sched as [|k sched IH]; intros net errChan Hne Hsched;
    cbn [StreamingAPIServer.runStores].
  { exists [], net. rewrite app_nil_r. split; [done|]. split; [done|].
    split; [|done]. intros _ k chunk Hk. by apply elem_of_nil in Hk. }
  apply Forall_cons in Hsched as [Hk Hsched].
  destruct (chunks !! k) as [chunk|] eqn:Hchunk.
  2:{ destruct (IH net errChan Hne Hsched) as (errs & net' & -> & Hreach & Hiff).
      exists errs, net'. split; [done|]. split; [done|]. rewrite Hiff. split.
      - intros Hall k' chunk' Hin Hk'. apply elem_of_cons in Hin as [->|Hin];
          [congruence|by apply Hall].
      - intros Hall k' chunk' Hin. apply Hall. by right. }
  destruct (storeTask_spec net k chunk Hne Hk) as (node & Hnode & ->).
  cbn [mbind outcome_bind fst snd].
  set (net1 := <[_ := _]> net).
  assert (Node.reachable <$> net1 = Node.reachable <$> net) as Hreach1.
  { unfold net1. rewrite list_fmap_insert, StoreChunk_reachable.
    apply list_insert_id. by rewrite list_lookup_fmap, Hnode. }
  assert (net1 ≠ []) as Hne1.
  { intros Hnil. rewrite Hnil in Hreach1. by destruct net. }
  destruct (IH net1 (errChan ++ option_list
              (ErrStoreChunk (Z.of_nat k) (Z.of_nat (k `mod` length net))
                 <$> (StorageClient.StoreChunk node chunk).1)) Hne1 Hsched)
    as (errs & net' & -> & Hreach & Hiff).
  eexists _, net'. rewrite <- app_assoc. split; [done|].
  split; [by rewrite Hreach|].
  destruct ((StorageClient.StoreChunk node chunk).1) as [err|] eqn:Herr; cbn.
  - split; [done|]. intros Hall.
    destruct (Hall k chunk ltac:(left) Hchunk) as (node' & Hnode' & Hok).
    congruence.
  - rewrite Hiff. split.
    + intros Hall k' chunk' Hin Hk'. apply elem_of_cons in Hin as [->|Hin].
      * exists node. split; [done|]. congruence.
      * eapply storedAtItsNode_reachable; [|by apply Hall]. done.
    + intros Hall k' chunk' Hin Hk'.
      eapply storedAtItsNode_reachable; [|apply Hall; [by right|done]]. done.
Qed.

(** An upload with a chunk count beyond the allocation limit stores
    nothing and is answered by [gin.Recovery]. *)
Lemma upload_beyond_allocation_limit
    (s : StreamingAPIServer.t) (net : list Node.t) sched fileID (file : FormFile.t) :
  len (FormFile.bytes file) ≤ Config.MaxFileSize (StreamingAPIServer.config s) →
  maxAlloc < Config.ChunkCount (StreamingAPIServer.config s) * sizeof FileChunk.t →
  StreamingAPIServer.streamingUploadFile s net sched fileID (Some file)
  = Responded recovered (s, net).
Proof.
  intros Hsize HK. unfold StreamingAPIServer.streamingUploadFile.
  case_decide; [lia|]. by rewrite chunkFileInMemory_too_many.
Qed.

(** C5. An upload of a file within the size limit registers its
    metadata exactly when the store call succeeded for every chunk: then
    it answers 200 and the map gains the entry; when the store call of
    some chunk fails it answers 500 and the map is unchanged.  This holds
    for every order in which the store goroutines complete.  When the
    configured chunk count is beyond what [make] allocates there are no
    chunks and no store calls: the panic is answered with the 500 of
    [gin.Recovery] and nothing is registered. *)
Theorem upload_registers_iff_all_stored
    (s : StreamingAPIServer.t) (net : list Node.t) sched fileID (file : FormFile.t) :
  let K := Config.ChunkCount (StreamingAPIServer.config s) in
  let D := FormFile.bytes file in
  len D ≤ Config.MaxFileSize (StreamingAPIServer.config s) →
  len D ≤ int64_max →
  0 < K →
  net ≠ [] →
  (K * sizeof FileChunk.t ≤ maxAlloc →
   sched ≡ₚ seq 0 (Z.to_nat K) →
   ∃ chunks,
     StreamingAPIServer.chunkFileInMemory D fileID K = Ok chunks ∧
     let metadata :=
       {| FileMetadata.ID := fileID;
          FileMetadata.OriginalName := FormFile.Filename file;
          FileMetadata.Size := len D;
          FileMetadata.Checksum := sha256_hex D;
          FileMetadata.ContentType := FormFile.ContentType file;
          FileMetadata.ChunkCount := len chunks;
          FileMetadata.Chunks := chunks |} in
     let allStored :=
       ∀ (k : nat) chunk, chunks !! k = Some chunk → storedAtItsNode net k chunk in
     (allStored →
        ∃ net',
          StreamingAPIServer.streamingUploadFile s net sched fileID (Some file)
          = Responded {| status := StatusOK; content := BodyMetadata metadata |}
              (StreamingAPIServer.mk (StreamingAPIServer.config s)
                 (<[fileID := metadata]> (StreamingAPIServer.fileMetadata s)), net')) ∧
     (¬ allStored →
        ∃ err net',
          StreamingAPIServer.streamingUploadFile s net sched fileID (Some file)
          = Responded {| status := StatusInternalServerError;
                         content := BodyError (Some err) |} (s, net'))) ∧
  (maxAlloc < K * sizeof FileChunk.t →
   StreamingAPIServer.streamingUploadFile s net sched fileID (Some file)
   = Responded recovered (s, net)).
Proof.
  intros K D Hsize HD HK Hne. split.
  2:{ intros Hover. by apply upload_beyond_allocation_limit. }
  intros HKmax Hsched.
  pose proof (chunkCount_int64 K HK HKmax) as HK64.
  exists (chunksFrom D K fileID 0 (Z.to_nat K)).
  split; [by apply chunkFileInMemory_ok|]. intros metadata allStored.
  unfold StreamingAPIServer.streamingUploadFile. fold D K.
  case_decide; [lia|].
  rewrite chunkFileInMemory_ok by done.
  unfold StreamingAPIServer.calculateChecksum. fold metadata.
  unfold StreamingAPIServer.distributeChunks.
  destruct (runStores_spec (FileMetadata.Chunks metadata) sched net [] Hne)
    as (errs & net' & -> & _ & Hiff).
  { rewrite Hsched. apply Forall_forall. intros k Hk.
    apply elem_of_seq in Hk. lia. }
  cbn [mbind outcome_bind fst snd app].
  assert (errs = [] ↔ allStored) as Hall.
  { rewrite Hiff. unfold allStored. cbn [FileMetadata.Chunks]. split.
    - intros Hs k chunk Hk. apply Hs; [|done]. rewrite Hsched.
      apply lookup_lt_Some in Hk. rewrite chunksFrom_length in Hk.
      apply elem_of_seq. lia.
    - intros Hs k chunk _ Hk. by apply Hs. }
  split.
  - intros Hs. apply Hall in Hs as ->. by exists net'.
  - intros Hs. destruct errs as [|err errs]; [by destruct Hs; apply Hall|].
    by exists err, net'.
Qed.

(** Whatever the request, an answer other than 200 leaves the server as
    it was, and an answer of 200 has registered the file. *)
Lemma upload_registers_only_on_200
    (s s' : StreamingAPIServer.t) (net net' : list Node.t) sched fileID request r :
  StreamingAPIServer.streamingUploadFile s net sched fileID request
  = Responded r (s', net') →
  (status r ≠ StatusOK → s' = s) ∧
  (status r = StatusOK →
   ∃ metadata, content r = BodyMetadata metadata ∧
     StreamingAPIServer.fileMetadata s'
     = <[fileID := metadata]> (StreamingAPIServer.fileMetadata s)).
Proof.
  unfold StreamingAPIServer.streamingUploadFile.
  destruct request as [file|]; [|by intros [= <- <- <-]].
  case_decide; [by intros [= <- <- <-]|].
  destruct (StreamingAPIServer.chunkFileInMemory _ _ _) as [chunks|err|p];
    [|by intros [= <- <- <-]..].
  destruct (StreamingAPIServer.distributeChunks _ _ _) as [[[err|] net1]|err|p];
    [by intros [= <- <- <-]| |by intros [= <- <- <-]|done].
  intros [= <- <- <-]. split; [done|]. intros _. by eexists.
Qed.

End upload.

(** ** The model at work: counterexamples and instances *)

Module Instances.
Import Examples.

Ltac side := first [reflexivity | lia | by vm_compute | done].

(** C1 at a file of seven bytes split in three. *)
Lemma split_then_reconstruct_restores_file_witness :
  fs_files disk !! "in.bin" = Some sevenBytes ∧
  0 < 3 ∧ 3 ≤ int64_max ∧ len sevenBytes ≤ int64_max ∧
  ("out.bin" ∉ fs_locked disk) ∧
  (∀ metadata,
     chunking.ChunkFile (platform := toy) disk "in.bin" 3 "f" = Ok metadata →
     chunking.ReconstructFile disk (FileMetadata.Chunks metadata) "out.bin"
     = (None, {| fs_files := <["out.bin" := sevenBytes]> (fs_files disk);
                 fs_locked := fs_locked disk |})) ∧
  (3 * sizeof FileChunk.t ≤ maxAlloc → len sevenBytes ≤ maxAlloc →
   ∃ metadata, chunking.ChunkFile (platform := toy) disk "in.bin" 3 "f" = Ok metadata).
Proof.
  repeat (split; [side|]).
  apply (split_then_reconstruct_restores_file (platform := toy)
           disk "in.bin" "out.bin" sevenBytes 3 "f"); side.
Defined.

(** The run behind C1: the split returns three chunks, from which the
    seven bytes are written. *)
Example split_then_reconstruct_seven_bytes :
  ∃ metadata,
    chunking.ChunkFile (platform := toy) disk "in.bin" 3 "f" = Ok metadata ∧
    len (FileMetadata.Chunks metadata) = 3 ∧
    chunking.ReconstructFile disk (FileMetadata.Chunks metadata) "out.bin"
    = (None, {| fs_files := <["out.bin" := sevenBytes]> (fs_files disk);
                fs_locked := ∅ |}).
Proof. eexists. by vm_compute. Qed.

(** C2 as stated fails: with a chunk count of 0 neither split returns an
    error, both panic. *)
Lemma split_zero_count_is_no_error :
  chunking.ChunkFile (platform := toy) disk "in.bin" 0 "f" = Panic PanicDivideByZero ∧
  StreamingAPIServer.chunkFileInMemory (platform := toy) sevenBytes "f" 0
  = Panic PanicDivideByZero ∧
  (∀ e, chunking.ChunkFile (platform := toy) disk "in.bin" 0 "f" ≠ Err e) ∧
  (∀ e, StreamingAPIServer.chunkFileInMemory (platform := toy) sevenBytes "f" 0 ≠ Err e).
Proof. by vm_compute. Qed.

(** C2, as the code has it, at a negative count. *)
Lemma split_nonpositive_count_panics_witness :
  fs_files disk !! "in.bin" = Some sevenBytes ∧ -2 ≤ 0 ∧
  chunking.ChunkFile (platform := toy) disk "in.bin" (-2) "f" = Panic PanicMakeSliceLen ∧
  StreamingAPIServer.chunkFileInMemory (platform := toy) sevenBytes "f" (-2)
  = Panic PanicMakeSliceLen.
Proof.
  repeat (split; [side|]).
  apply (split_nonpositive_count_panics (platform := toy)
           disk "in.bin" sevenBytes (-2) "f"); side.
Defined.

(** C3 at seven bytes in three chunks: sizes 2, 2 and 3. *)
Lemma split_chunk_sizes_witness :
  fs_files disk !! "in.bin" = Some sevenBytes ∧
  0 < 3 ∧ 3 ≤ int64_max ∧ len sevenBytes ≤ int64_max ∧
  (∀ metadata,
     chunking.ChunkFile (platform := toy) disk "in.bin" 3 "f" = Ok metadata →
     splitSizes (len sevenBytes) 3 (FileMetadata.Chunks metadata)) ∧
  (∀ chunks,
     StreamingAPIServer.chunkFileInMemory (platform := toy) sevenBytes "f" 3 = Ok chunks →
     splitSizes (len sevenBytes) 3 chunks) ∧
  (3 * sizeof FileChunk.t ≤ maxAlloc →
   (∃ chunks,
      StreamingAPIServer.chunkFileInMemory (platform := toy) sevenBytes "f" 3
      = Ok chunks) ∧
   (len sevenBytes ≤ maxAlloc →
    ∃ metadata, chunking.ChunkFile (platform := toy) disk "in.bin" 3 "f" = Ok metadata)).
Proof.
  repeat (split; [side|]).
  apply (split_chunk_sizes (platform := toy) disk "in.bin" sevenBytes 3 "f"); side.
Defined.

(** The run behind C3. *)
Example split_seven_bytes_in_three :
  FileChunk.Size <$> default []
    (match StreamingAPIServer.chunkFileInMemory (platform := toy) sevenBytes "f" 3 with
     | Ok chunks => Some chunks
     | _ => None
     end) = [2; 2; 3] ∧
  FileMetadata.Chunks <$>
    (match chunking.ChunkFile (platform := toy) disk "in.bin" 3 "f" with
     | Ok metadata => Some metadata
     | _ => None
     end)
  = (match StreamingAPIServer.chunkFileInMemory (platform := toy) sevenBytes "f" 3 with
     | Ok chunks => Some chunks
     | _ => None
     end).
Proof. by vm_compute. Qed.

(** C4 as stated fails twice: the empty list is refused although no
    position of it lacks its index, and for chunks with indices 0, 0, 1
    the error names index 1, which is present. *)
Lemma ReconstructFile_names_a_position :
  indexed (chunking.sortChunks []) ∧
  chunking.ReconstructFile disk [] "out.bin" = (Some ErrNoChunks, disk) ∧
  chunking.ReconstructFile disk duplicated "out.bin" = (Some (ErrMissingChunk 1), disk) ∧
  1 ∈ indices duplicated ∧
  ¬ firstAbsentIndex duplicated 1.
Proof.
  split; [by intros [|i] chunk Hi|].
  split; [by vm_compute|]. split; [by vm_compute|].
  assert (1 ∈ indices duplicated) as Hin.
  { apply list_elem_of_lookup. by exists 2%nat. }
  split; [done|]. by intros (_ & Hout & _).
Qed.

(** C4, as the code has it, at three chunks out of order. *)
Lemma ReconstructFile_sorts_then_checks_witness :
  shuffled ≠ [] ∧
  let sorted := chunking.sortChunks shuffled in
  sorted ≡ₚ shuffled ∧
  StronglySorted byIndex sorted ∧
  (indexed sorted → "out.bin" ∉ fs_locked disk →
     chunking.ReconstructFile disk shuffled "out.bin"
     = (None, {| fs_files := <["out.bin" := payloads sorted]> (fs_files disk);
                 fs_locked := fs_locked disk |})) ∧
  (¬ indexed sorted →
     ∃ i : nat,
       firstMismatch sorted i ∧
       chunking.ReconstructFile disk shuffled "out.bin"
       = (Some (ErrMissingChunk (Z.of_nat i)), disk) ∧
       (NoDup (indices shuffled) →
        Forall (λ chunk, 0 ≤ FileChunk.Index chunk) shuffled →
        firstAbsentIndex shuffled (Z.of_nat i))).
Proof.
  split; [side|].
  apply (ReconstructFile_sorts_then_checks disk shuffled "out.bin"); side.
Defined.

(** The run behind the previous instance: the payloads come out in index
    order. *)
Example ReconstructFile_shuffled :
  chunking.ReconstructFile disk shuffled "out.bin"
  = (None, {| fs_files := <["out.bin" := [Byte.x01; Byte.x02; Byte.x03]]> (fs_files disk);
              fs_locked := ∅ |}).
Proof. by vm_compute. Qed.

(** C7 as stated fails: these chunk sizes add up to [2 ^ 64], not to the
    size 0 of the metadata, and the metadata validates. *)
Lemma ValidateFileMetadata_sum_wraps :
  chunking.ValidateFileMetadata overflowing = None ∧
  sumSizes (FileMetadata.Chunks overflowing) = 2 ^ 64 ∧
  sumSizes (FileMetadata.Chunks overflowing) ≠ FileMetadata.Size overflowing.
Proof. by vm_compute. Qed.

(** C8 as stated fails: with the largest chunk count, which exceeds the
    seven bytes of the file, neither split succeeds; both panic on the
    allocation of the chunk slice. *)
Lemma split_count_beyond_allocation_panics :
  len sevenBytes < int64_max ∧
  chunking.ChunkFile (platform := toy) disk "in.bin" int64_max "f"
  = Panic PanicMakeSliceLen ∧
  StreamingAPIServer.chunkFileInMemory (platform := toy) sevenBytes "f" int64_max
  = Panic PanicMakeSliceLen ∧
  (∀ metadata,
     chunking.ChunkFile (platform := toy) disk "in.bin" int64_max "f" ≠ Ok metadata) ∧
  (∀ chunks,
     StreamingAPIServer.chunkFileInMemory (platform := toy) sevenBytes "f" int64_max
     ≠ Ok chunks).
Proof. by vm_compute. Qed.

(** C8, as the code has it, at seven bytes in nine chunks. *)
Lemma split_more_chunks_than_bytes_witness :
  fs_files disk !! "in.bin" = Some sevenBytes ∧
  len sevenBytes < 9 ∧ 9 ≤ int64_max ∧
  (9 * sizeof FileChunk.t ≤ maxAlloc →
   ∃ metadata,
     chunking.ChunkFile (platform := toy) disk "in.bin" 9 "f" = Ok metadata ∧
     StreamingAPIServer.chunkFileInMemory (platform := toy) sevenBytes "f" 9
     = Ok (FileMetadata.Chunks metadata) ∧
     len (FileMetadata.Chunks metadata) = 9 ∧
     (∀ (i : nat) chunk, FileMetadata.Chunks metadata !! i = Some chunk →
        Z.of_nat i < 9 - 1 → FileChunk.Data chunk = Some []) ∧
     (∃ chunk, chunk ∈ FileMetadata.Chunks metadata ∧ FileChunk.Data chunk = Some []) ∧
     payloads (FileMetadata.Chunks metadata) = sevenBytes) ∧
  (maxAlloc < 9 * sizeof FileChunk.t →
   chunking.ChunkFile (platform := toy) disk "in.bin" 9 "f" = Panic PanicMakeSliceLen ∧
   StreamingAPIServer.chunkFileInMemory (platform := toy) sevenBytes "f" 9
   = Panic PanicMakeSliceLen).
Proof.
  repeat (split; [side|]).
  apply (split_more_chunks_than_bytes (platform := toy)
           disk "in.bin" sevenBytes 9 "f"); side.
Defined.

(** The run behind C8: nine chunks, eight of them empty. *)
Example split_seven_bytes_in_nine :
  (λ chunk, len (FileChunk.payload chunk)) <$> default []
    (match StreamingAPIServer.chunkFileInMemory (platform := toy) sevenBytes "f" 9 with
     | Ok chunks => Some chunks
     | _ => None
     end) = [0; 0; 0; 0; 0; 0; 0; 0; 7].
Proof. by vm_compute. Qed.

(** C9 at seven bytes in three chunks. *)
Lemma split_implementations_agree_witness :
  fs_files disk !! "in.bin" = Some sevenBytes ∧
  0 < 3 ∧ 3 ≤ int64_max ∧ len sevenBytes ≤ int64_max ∧
  (∀ metadata,
     chunking.ChunkFile (platform := toy) disk "in.bin" 3 "f" = Ok metadata →
     StreamingAPIServer.chunkFileInMemory (platform := toy) sevenBytes "f" 3
     = Ok (FileMetadata.Chunks metadata)) ∧
  (len sevenBytes ≤ maxAlloc →
   ∀ chunks,
     StreamingAPIServer.chunkFileInMemory (platform := toy) sevenBytes "f" 3 = Ok chunks →
     ∃ metadata,
       chunking.ChunkFile (platform := toy) disk "in.bin" 3 "f" = Ok metadata ∧
       FileMetadata.Chunks metadata = chunks) ∧
  (3 * sizeof FileChunk.t ≤ maxAlloc →
   ∃ chunks,
     StreamingAPIServer.chunkFileInMemory (platform := toy) sevenBytes "f" 3 = Ok chunks).
Proof.
  repeat (split; [side|]).
  apply (split_implementations_agree (platform := toy)
           disk "in.bin" sevenBytes 3 "f"); side.
Defined.

(** C5 at an upload of seven bytes in three chunks to two nodes. *)
Lemma upload_registers_iff_all_stored_witness :
  len (FormFile.bytes form) ≤ Config.MaxFileSize (StreamingAPIServer.config server) ∧
  len (FormFile.bytes form) ≤ int64_max ∧
  0 < 3 ∧ network ≠ [] ∧
  (3 * sizeof FileChunk.t ≤ maxAlloc →
   order ≡ₚ seq 0 (Z.to_nat 3) →
   ∃ chunks,
     StreamingAPIServer.chunkFileInMemory (platform := toy) sevenBytes "f" 3 = Ok chunks ∧
     let metadata :=
       {| FileMetadata.ID := "f";
          FileMetadata.OriginalName := "in.bin";
          FileMetadata.Size := len sevenBytes;
          FileMetadata.Checksum := sha256_hex (Platform := toy) sevenBytes;
          FileMetadata.ContentType := "application/octet-stream";
          FileMetadata.ChunkCount := len chunks;
          FileMetadata.Chunks := chunks |} in
     let allStored :=
       ∀ (k : nat) chunk, chunks !! k = Some chunk →
         storedAtItsNode (platform := toy) network k chunk in
     (allStored →
        ∃ net',
          StreamingAPIServer.streamingUploadFile (platform := toy)
            server network order "f" (Some form)
          = Responded {| status := StatusOK; content := BodyMetadata metadata |}
              (StreamingAPIServer.mk (StreamingAPIServer.config server)
                 (<["f" := metadata]> (StreamingAPIServer.fileMetadata server)), net')) ∧
     (¬ allStored →
        ∃ err net',
          StreamingAPIServer.streamingUploadFile (platform := toy)
            server network order "f" (Some form)
          = Responded {| status := StatusInternalServerError;
                         content := BodyError (Some err) |} (server, net'))) ∧
  (maxAlloc < 3 * sizeof FileChunk.t →
   StreamingAPIServer.streamingUploadFile (platform := toy)
     server network order "f" (Some form)
   = Responded recovered (server, network)).
Proof.
  repeat (split; [side|]).
  apply (upload_registers_iff_all_stored (platform := toy)
           server network order "f" form); side.
Defined.

(** The two runs behind C5: with both nodes up the upload answers 200
    and the file is registered; with the second node down it answers 500
    and the map stays empty, while the chunks placed on the first node
    stay there. *)
Example upload_to_reachable_nodes :
  ∃ metadata net',
    StreamingAPIServer.streamingUploadFile (platform := toy)
      server network order "f" (Some form)
    = Responded {| status := 200; content := BodyMetadata metadata |}
        (StreamingAPIServer.mk (Config.mk 1024 3) {[ "f" := metadata ]}, net').
Proof. eexists _, _. by vm_compute. Qed.

Example upload_with_a_node_down :
  ∃ err net',
    StreamingAPIServer.streamingUploadFile (platform := toy)
      server degraded order "f" (Some form)
    = Responded {| status := 500; content := BodyError (Some err) |} (server, net') ∧
    StreamingAPIServer.fileMetadata server !! "f" = None ∧
    (∃ node, net' !! 0%nat = Some node ∧
       is_Some (MemoryStorage.chunks (Node.store node) !! "f_chunk_0")).
Proof.
  eexists _, _. split; [by vm_compute|]. split; [done|].
  eexists. split; [done|]. by eexists.
Qed.

(** An upload to a coordinator configured for the largest chunk count:
    nothing is stored or registered, the panic is answered with 500. *)
Example upload_with_the_largest_chunk_count :
  StreamingAPIServer.streamingUploadFile (platform := toy)
    (StreamingAPIServer.mk (Config.mk 1024 int64_max) ∅) network order "f" (Some form)
  = Responded {| status := 500; content := BodyEmpty |}
      (StreamingAPIServer.mk (Config.mk 1024 int64_max) ∅, network).
Proof. by vm_compute. Qed.


(** The run behind C10: a node returns a chunk whose size and checksum
    contradict its payload, for a file whose metadata records seven
    bytes; the download answers 200 with the one byte of the payload. *)
Example download_sends_unverified_bytes :
  chunking.ValidateChunk (platform := toy) corrupt = Some ErrChunkSizeMismatch ∧
  StreamingAPIServer.streamingDownloadFile (routing := unrouted)
    serving tampered [0%nat] "f"
  = Responded {| status := 200; content := BodyFile "in.bin" "" [Byte.xff] |}
      (serving, tampered).
Proof. by vm_compute. Qed.

End Instances.

(** * Further properties *)

(** ** The chunk codec *)

Section codec_more.
Context {platform : Platform}.

Lemma chunkID_inj fileID : Inj (=) (=) (chunking.chunkID fileID).
Proof.
  intros i j Hij. unfold chunking.chunkID in Hij.
  apply String.app_inj, String.app_inj in Hij. by apply pretty_Z_inj in Hij.
Qed.

Lemma chunksFrom_valid D K fileID chunk :
  0 < K → chunk ∈ chunksFrom D K fileID 0 (Z.to_nat K) →
  chunking.ValidateChunk chunk = None.
Proof.
  intros HK Hin. apply list_elem_of_lookup in Hin as [k Hk].
  apply chunksFrom_lookup_Some in Hk as [Hk ->].
  unfold chunking.ValidateChunk, chunkAt. cbn [FileChunk.Data FileChunk.Size
    FileChunk.Checksum].
  rewrite chunkBytesAt_length by lia.
  case_decide; [done|]. by case_decide.
Qed.

(** X1. Every chunk that [ChunkFile] or [chunkFileInMemory] produces
    passes [ValidateChunk]: splitting introduces no corruption.  (The
    slice of [K] chunks and the bytes of [D] are within the allocation
    limit.) *)
Theorem split_chunks_validate fs filePath (D : list byte) K fileID :
  fs_files fs !! filePath = Some D →
  0 < K → K * sizeof FileChunk.t ≤ maxAlloc → len D ≤ maxAlloc →
  ∃ metadata chunks,
    chunking.ChunkFile fs filePath K fileID = Ok metadata ∧
    StreamingAPIServer.chunkFileInMemory D fileID K = Ok chunks ∧
    Forall (λ chunk, chunking.ValidateChunk chunk = None) (FileMetadata.Chunks metadata) ∧
    Forall (λ chunk, chunking.ValidateChunk chunk = None) chunks.
Proof.
  intros Hfile HK HKmax HD. eexists _, _.
  split; [by apply ChunkFile_ok|].
  split; [apply chunkFileInMemory_ok; auto using maxAlloc_int64|].
  cbn [FileMetadata.Chunks].
  assert (Forall (λ chunk, chunking.ValidateChunk chunk = None)
            (chunksFrom D K fileID 0 (Z.to_nat K))) as Hall; [|done].
  apply Forall_forall. intros chunk. by apply chunksFrom_valid.
Qed.

Lemma ValidateFileMetadata_split D K fileID name checksum contentType :
  0 < K → len D ≤ int64_max →
  chunking.ValidateFileMetadata
    {| FileMetadata.ID := fileID;
       FileMetadata.OriginalName := name;
       FileMetadata.Size := len D;
       FileMetadata.Checksum := checksum;
       FileMetadata.ChunkCount := K;
       FileMetadata.Chunks := chunksFrom D K fileID 0 (Z.to_nat K);
       FileMetadata.ContentType := contentType |} = None.
Proof.
  intros HK HD. pose proof (len_nonneg D) as HD0.
  unfold chunking.ValidateFileMetadata. cbn [FileMetadata.Chunks
    FileMetadata.ChunkCount FileMetadata.ID FileMetadata.Size].
  case_decide as Hcount.
  { destruct Hcount. unfold len. rewrite chunksFrom_length. lia. }
  destruct (chunking.ValidateFileMetadata_loop _ _ _ _) as [e|total] eqn:Hloop.
  - apply ValidateFileMetadata_loop_inl in Hloop
      as [_ [(k & chunk & Hk & Hne)|(chunk & Hin & Hne)]].
    + apply chunksFrom_lookup_Some in Hk as [_ ->]. by cbn in Hne.
    + apply list_elem_of_lookup in Hin as [k Hk].
      apply chunksFrom_lookup_Some in Hk as [_ ->]. by cbn in Hne.
  - change 0 with (wrap64 0) in Hloop at 2.
    apply ValidateFileMetadata_loop_inr in Hloop as [_ ->].
    rewrite Z.add_0_l, chunksFrom_sumSizes by done.
    rewrite wrap64_id by int64_range. by case_decide.
Qed.

(** X2. The metadata that [ChunkFile] returns passes
    [ValidateFileMetadata].  (The slice of [K] chunks and the bytes of
    [D] are within the allocation limit.) *)
Theorem split_metadata_validates fs filePath (D : list byte) K fileID :
  fs_files fs !! filePath = Some D →
  0 < K → K * sizeof FileChunk.t ≤ maxAlloc → len D ≤ maxAlloc →
  ∃ metadata,
    chunking.ChunkFile fs filePath K fileID = Ok metadata ∧
    chunking.ValidateFileMetadata metadata = None.
Proof.
  intros Hfile HK HKmax HD. eexists. split; [by apply ChunkFile_ok|].
  apply ValidateFileMetadata_split; auto using maxAlloc_int64.
Qed.

(** X3. The chunks of a split carry pairwise distinct ids, each derived
    from the file id and the index alone.  (The slice of [K] chunks is
    within the allocation limit.) *)
Theorem split_chunk_ids_distinct (D : list byte) K fileID :
  0 < K → K * sizeof FileChunk.t ≤ maxAlloc → len D ≤ int64_max →
  ∃ chunks,
    StreamingAPIServer.chunkFileInMemory D fileID K = Ok chunks ∧
    NoDup (FileChunk.ID <$> chunks) ∧
    ∀ (i : nat) chunk, chunks !! i = Some chunk →
      FileChunk.ID chunk = chunking.chunkID fileID (Z.of_nat i).
Proof.
  intros HK HKmax HD. eexists. split; [by apply chunkFileInMemory_ok|]. split.
  - apply NoDup_alt. intros i j id Hi Hj.
    rewrite list_lookup_fmap in Hi, Hj.
    destruct (chunksFrom _ _ _ _ _ !! i) as [ci|] eqn:Hci; [|done].
    destruct (chunksFrom _ _ _ _ _ !! j) as [cj|] eqn:Hcj; [|done].
    apply chunksFrom_lookup_Some in Hci as [_ ->].
    apply chunksFrom_lookup_Some in Hcj as [_ ->].
    cbn in Hi, Hj. injection Hi as Hi. injection Hj as Hj.
    rewrite <- Hj in Hi. apply chunkID_inj in Hi. lia.
  - intros i chunk Hi. apply chunksFrom_lookup_Some in Hi as [_ ->].
    cbn. by rewrite Z.add_0_l.
Qed.

End codec_more.

(** ** [ReconstructFile] on chunks in any order, and with chunks missing *)

Section reconstruct_more.
Context {platform : Platform}.
Implicit Types (chunks : list FileChunk.t).

Lemma StronglySorted_lookup_lt {A} (R : relation A) (l : list A) (j k : nat) a b :
  StronglySorted R l → (j < k)%nat → l !! j = Some a → l !! k = Some b → R a b.
Proof.
  intros Hs Hjk Ha Hb. rewrite <- (take_drop k l) in Hs.
  eapply StronglySorted_app_1_elem_of; [done| |].
  - apply list_elem_of_lookup. exists j. by rewrite lookup_take_lt.
  - apply list_elem_of_lookup. exists O. by rewrite lookup_drop, Nat.add_0_r.
Qed.

Lemma StronglySorted_of_lookup {A} (R : relation A) (l : list A) :
  (∀ (j k : nat) a b, (j < k)%nat → l !! j = Some a → l !! k = Some b → R a b) →
  StronglySorted R l.
Proof.
  induction l as [|x l IH]; intros Hl; [constructor|].
  constructor.
  - apply IH. intros j k a b Hjk Ha Hb. apply (Hl (S j) (S k)); [lia|done..].
  - apply Forall_forall. intros y Hy. apply list_elem_of_lookup in Hy as [k Hk].
    apply (Hl O (S k)); [lia|done..].
Qed.

Lemma indexed_beforeIndex chunks : indexed chunks → StronglySorted beforeIndex chunks.
Proof.
  intros Hidx. apply StronglySorted_of_lookup. intros j k a b Hjk Ha Hb.
  unfold beforeIndex. rewrite (Hidx _ _ Ha), (Hidx _ _ Hb). lia.
Qed.

Lemma beforeIndex_byIndex chunks :
  StronglySorted beforeIndex chunks → StronglySorted byIndex chunks.
Proof.
  intros Hs. apply StronglySorted_of_lookup. intros j k a b Hjk Ha Hb.
  pose proof (StronglySorted_lookup_lt _ _ _ _ _ _ Hs Hjk Ha Hb) as Hlt.
  unfold beforeIndex, byIndex in *. lia.
Qed.

(** Chunks with strictly increasing indices have one sorted arrangement:
    the sort finds it from every permutation. *)
Lemma sortChunks_unique chunks chunks0 :
  StronglySorted beforeIndex chunks0 → chunks ≡ₚ chunks0 →
  chunking.sortChunks chunks = chunks0.
Proof.
  intros Hs0 Hperm. destruct (sortChunks_sorts chunks) as [Hp Hs].
  apply (StronglySorted_unique_strong byIndex); [|done|by apply beforeIndex_byIndex|].
  2:{ by rewrite Hp. }
  intros x1 x2 Hx1 Hx2 H12 H21. rewrite Hp, Hperm in Hx1.
  apply list_elem_of_lookup in Hx1 as [j Hj]. apply list_elem_of_lookup in Hx2 as [k Hk].
  unfold byIndex in *.
  destruct (lt_eq_lt_dec j k) as [[Hlt|<-]|Hlt]; [|congruence|].
  - pose proof (StronglySorted_lookup_lt _ _ _ _ _ _ Hs0 Hlt Hj Hk) as Hb.
    unfold beforeIndex in Hb. lia.
  - pose proof (StronglySorted_lookup_lt _ _ _ _ _ _ Hs0 Hlt Hk Hj) as Hb.
    unfold beforeIndex in Hb. lia.
Qed.

Lemma firstMismatch_unique chunks (i j : nat) :
  firstMismatch chunks i → firstMismatch chunks j → i = j.
Proof.
  intros [(ci & Hci & Hi) Hbi] [(cj & Hcj & Hj) Hbj].
  destruct (lt_eq_lt_dec i j) as [[Hlt|Heq]|Hlt]; [|done|].
  - by pose proof (Hbj i ci Hlt Hci).
  - by pose proof (Hbi j cj Hlt Hcj).
Qed.

(** X4. [ReconstructFile] does not depend on the order in which it is
    given the chunks of a split: from every permutation of them it
    writes the bytes of the file.  (The split is within the allocation
    limit: the slice of [K] chunks and the bytes of [D].) *)
Theorem reconstruct_any_order fs filePath outputPath (D : list byte) K fileID chunks :
  fs_files fs !! filePath = Some D →
  0 < K → K * sizeof FileChunk.t ≤ maxAlloc → len D ≤ maxAlloc →
  outputPath ∉ fs_locked fs →
  ∃ metadata,
    chunking.ChunkFile fs filePath K fileID = Ok metadata ∧
    (chunks ≡ₚ FileMetadata.Chunks metadata →
     chunking.ReconstructFile fs chunks outputPath
     = (None, {| fs_files := <[outputPath := D]> (fs_files fs);
                 fs_locked := fs_locked fs |})).
Proof.
  intros Hfile HK HKmax HD Hfree.
  eexists. split; [by apply ChunkFile_ok|]. cbn [FileMetadata.Chunks].
  set (chunks0 := chunksFrom D K fileID 0 (Z.to_nat K)). intros Hperm.
  assert (indexed chunks0) as Hidx by apply chunksFrom_indexed.
  assert (chunks ≠ []) as Hne.
  { intros ->. apply Permutation_length in Hperm. unfold chunks0 in Hperm.
    rewrite chunksFrom_length in Hperm. cbn in Hperm. lia. }
  destruct (ReconstructFile_spec fs chunks outputPath Hne) as (Hok & _ & _).
  rewrite (sortChunks_unique chunks chunks0) in Hok
    by (done || by apply indexed_beforeIndex).
  rewrite Hok by done. unfold chunks0. by rewrite chunksFrom_concat.
Qed.

Lemma delete_beforeIndex chunks (m : nat) :
  StronglySorted beforeIndex chunks → StronglySorted beforeIndex (delete m chunks).
Proof.
  intros Hs. apply StronglySorted_of_lookup. intros j k a b Hjk Ha Hb.
  rewrite list_lookup_delete in Ha, Hb.
  eapply (StronglySorted_lookup_lt _ _ _ _ _ _ Hs); [|done..].
  repeat case_decide; lia.
Qed.

(** X5. When a chunk other than the last is omitted from a complete,
    indexed sequence, [ReconstructFile] fails with the error that names
    the omitted index, in whatever order the remaining chunks come, and
    writes nothing. *)
Theorem reconstruct_missing_chunk fs chunks0 chunks outputPath (m : nat) :
  indexed chunks0 → (S m < length chunks0)%nat →
  chunks ≡ₚ delete m chunks0 →
  chunking.ReconstructFile fs chunks outputPath
  = (Some (ErrMissingChunk (Z.of_nat m)), fs).
Proof.
  intros Hidx Hm Hperm.
  assert (chunking.sortChunks chunks = delete m chunks0) as Hsort.
  { apply sortChunks_unique; [|done].
    by apply delete_beforeIndex, indexed_beforeIndex. }
  destruct (lookup_lt_is_Some_2 chunks0 (S m) Hm) as [next Hnext].
  assert (firstMismatch (delete m chunks0) m) as Hfirst.
  { split.
    - exists next. rewrite list_lookup_delete_ge by done. split; [done|].
      rewrite (Hidx _ _ Hnext). lia.
    - intros k chunk Hk Hchunk. rewrite list_lookup_delete_lt in Hchunk by done.
      by apply Hidx. }
  assert (chunks ≠ []) as Hne.
  { intros ->. apply Permutation_length in Hperm.
    rewrite length_delete in Hperm by (apply lookup_lt_is_Some_2; lia).
    cbn in Hperm. lia. }
  destruct (ReconstructFile_spec fs chunks outputPath Hne) as (_ & _ & Hmiss).
  rewrite Hsort in Hmiss. destruct Hmiss as (i & Hi & ->).
  { intros Hidx'. destruct Hfirst as [(chunk & Hchunk & Hneq) _].
    by specialize (Hidx' _ _ Hchunk). }
  by rewrite (firstMismatch_unique _ _ _ Hi Hfirst).
Qed.

Lemma chunksFrom_drop D K fileID (n m : nat) :
  drop m (chunksFrom D K fileID 0 n) = chunksFrom D K fileID (Z.of_nat m) (n - m).
Proof.
  unfold chunksFrom. rewrite <- fmap_drop, drop_seq. cbn [Nat.add].
  replace (seq m (n - m)) with (Nat.add m <$> seq 0 (n - m))
    by (by rewrite fmap_add_seq, Nat.add_0_r).
  rewrite <- list_fmap_compose.
  apply list_fmap_ext. intros _ k _. cbn. f_equal. lia.
Qed.

Lemma chunksFrom_take_payloads D K fileID (m : nat) :
  0 < K → (m < Z.to_nat K)%nat →
  payloads (take m (chunksFrom D K fileID 0 (Z.to_nat K)))
  = take (Z.to_nat (Z.of_nat m * (len D `div` K))) D.
Proof.
  intros HK Hm.
  pose proof (chunksFrom_concat D K fileID HK) as Hall.
  rewrite <- (take_drop m (chunksFrom D K fileID 0 (Z.to_nat K))) in Hall.
  unfold payloads in *. rewrite fmap_app, concat_app in Hall.
  rewrite chunksFrom_drop in Hall.
  fold (payloads (chunksFrom D K fileID (Z.of_nat m) (Z.to_nat K - m))) in Hall.
  rewrite chunksFrom_payloads in Hall by lia.
  apply (app_inv_tail (drop (Z.to_nat (Z.of_nat m * (len D `div` K))) D)).
  by rewrite Hall, take_drop.
Qed.

(** X6. Trailing chunks that are missing go unnoticed: given only the
    first [m] chunks of a split, [0 < m < K], in any order,
    [ReconstructFile] succeeds and writes the first [m * (len D / K)]
    bytes of the file.  (The split is within the allocation limit: the
    slice of [K] chunks and the bytes of [D].) *)
Theorem reconstruct_truncated fs filePath outputPath (D : list byte) K fileID
    chunks (m : nat) :
  fs_files fs !! filePath = Some D →
  0 < K → K * sizeof FileChunk.t ≤ maxAlloc → len D ≤ maxAlloc →
  outputPath ∉ fs_locked fs →
  (0 < m)%nat → Z.of_nat m < K →
  ∃ metadata,
    chunking.ChunkFile fs filePath K fileID = Ok metadata ∧
    (chunks ≡ₚ take m (FileMetadata.Chunks metadata) →
     chunking.ReconstructFile fs chunks outputPath
     = (None,
        {| fs_files :=
             <[outputPath := take (Z.to_nat (Z.of_nat m * (len D `div` K))) D]>
               (fs_files fs);
           fs_locked := fs_locked fs |})).
Proof.
  intros Hfile HK HKmax HD Hfree Hm0 HmK.
  eexists. split; [by apply ChunkFile_ok|]. cbn [FileMetadata.Chunks].
  set (chunks0 := chunksFrom D K fileID 0 (Z.to_nat K)). intros Hperm.
  assert (indexed (take m chunks0)) as Hidx.
  { intros i chunk Hi. apply lookup_take_Some in Hi as [Hi _].
    by apply (chunksFrom_indexed D K fileID (Z.to_nat K)). }
  assert (chunks ≠ []) as Hne.
  { intros ->. apply Permutation_length in Hperm. unfold chunks0 in Hperm.
    rewrite length_take, chunksFrom_length in Hperm. cbn in Hperm. lia. }
  destruct (ReconstructFile_spec fs chunks outputPath Hne) as (Hok & _ & _).
  rewrite (sortChunks_unique chunks (take m chunks0)) in Hok
    by (done || by apply indexed_beforeIndex).
  rewrite Hok by done. unfold chunks0.
  by rewrite chunksFrom_take_payloads by lia.
Qed.

End reconstruct_more.

(** ** The in-memory chunk store *)

Section store_more.
Implicit Types (ms : MemoryStorage.t) (chunk : FileChunk.t).

(** A chunk with a payload is its own copy. *)
Lemma chunkCopy_id chunk :
  FileChunk.Data chunk ≠ None → MemoryStorage.chunkCopy chunk = chunk.
Proof.
  destruct chunk as [id idx fid size sum [data|]]; [done|].
  by intros [].
Qed.

Lemma chunkCopy_payload chunk :
  FileChunk.payload (MemoryStorage.chunkCopy chunk) = FileChunk.payload chunk.
Proof. done. Qed.

(** X7. A stored chunk is read back under its id as it was stored, with
    the same payload (and identical when it has one); a later store
    under the same id replaces it; chunks under other ids are not
    affected. *)
Theorem MemoryStorage_store_then_get ms chunk :
  let ms' := (MemoryStorage.StoreChunk ms chunk).2 in
  (MemoryStorage.StoreChunk ms chunk).1 = None ∧
  MemoryStorage.GetChunk ms' (FileChunk.ID chunk) = Ok (MemoryStorage.chunkCopy chunk) ∧
  FileChunk.payload (MemoryStorage.chunkCopy chunk) = FileChunk.payload chunk ∧
  (FileChunk.Data chunk ≠ None →
   MemoryStorage.GetChunk ms' (FileChunk.ID chunk) = Ok chunk) ∧
  (∀ chunkID, chunkID ≠ FileChunk.ID chunk →
     MemoryStorage.GetChunk ms' chunkID = MemoryStorage.GetChunk ms chunkID).
Proof.
  cbn. unfold MemoryStorage.GetChunk. cbn.
  rewrite lookup_insert_eq. split; [done|]. split; [done|]. split; [done|].
  split.
  - intros Hdata. f_equal. rewrite !chunkCopy_id; try done.
  - intros chunkID Hne. by rewrite lookup_insert_ne.
Qed.

(** X8. Deleting a stored chunk succeeds and makes exactly that id
    unknown; deleting an unknown id fails with "chunk not found" and
    leaves the store as it was. *)
Theorem MemoryStorage_delete ms chunkID :
  let ms' := (MemoryStorage.DeleteChunk ms chunkID).2 in
  MemoryStorage.GetChunk ms' chunkID = Err ErrChunkNotFound ∧
  (∀ other, other ≠ chunkID →
     MemoryStorage.GetChunk ms' other = MemoryStorage.GetChunk ms other) ∧
  (is_Some (MemoryStorage.chunks ms !! chunkID) →
     (MemoryStorage.DeleteChunk ms chunkID).1 = None) ∧
  (MemoryStorage.chunks ms !! chunkID = None →
     MemoryStorage.DeleteChunk ms chunkID = (Some ErrChunkNotFound, ms)).
Proof.
  unfold MemoryStorage.DeleteChunk, MemoryStorage.GetChunk.
  destruct (MemoryStorage.chunks ms !! chunkID) as [chunk|] eqn:Hchunk; cbn.
  - rewrite lookup_delete_eq. split; [done|]. split; [|done].
    intros other Hne. by rewrite lookup_delete_ne.
  - rewrite Hchunk. split; [done|]. split; [done|]. split; [|done].
    by intros [? ?].
Qed.

Lemma add64_comm_step (a x y : Z) : add64 (add64 a x) y = add64 (add64 a y) x.
Proof. unfold add64. rewrite !wrap64_add_l. f_equal. lia. Qed.

Lemma GetMemoryUsage_insert (m : gmap string FileChunk.t) chunkID chunk :
  m !! chunkID = None →
  MemoryStorage.GetMemoryUsage (MemoryStorage.mk (<[chunkID := chunk]> m))
  = add64 (MemoryStorage.GetMemoryUsage (MemoryStorage.mk m))
      (len (FileChunk.payload chunk)).
Proof.
  intros Hfresh. unfold MemoryStorage.GetMemoryUsage. cbn.
  rewrite map_fold_insert_L; [done| |done].
  intros. apply add64_comm_step.
Qed.

Lemma storedBytes_insert (m : gmap string FileChunk.t) chunkID chunk :
  m !! chunkID = None →
  storedBytes (MemoryStorage.mk (<[chunkID := chunk]> m))
  = len (FileChunk.payload chunk) + storedBytes (MemoryStorage.mk m).
Proof.
  intros Hfresh. unfold storedBytes. cbn.
  rewrite map_fold_insert_L; [done| |done]. intros. lia.
Qed.

Lemma storedBytes_delete (m : gmap string FileChunk.t) chunkID chunk :
  m !! chunkID = Some chunk →
  storedBytes (MemoryStorage.mk (delete chunkID m))
  = storedBytes (MemoryStorage.mk m) - len (FileChunk.payload chunk).
Proof.
  intros Hchunk. rewrite <- (insert_delete_id m chunkID chunk Hchunk) at 2.
  rewrite storedBytes_insert by apply lookup_delete_eq. lia.
Qed.

Lemma GetMemoryUsage_storedBytes ms :
  MemoryStorage.GetMemoryUsage ms = wrap64 (storedBytes ms).
Proof.
  destruct ms as [m]. induction m as [|chunkID chunk m Hfresh IH] using map_ind.
  { unfold MemoryStorage.GetMemoryUsage, storedBytes. cbn.
    by rewrite !map_fold_empty. }
  rewrite GetMemoryUsage_insert, storedBytes_insert by done.
  rewrite IH. unfold add64. rewrite wrap64_add_l. f_equal. lia.
Qed.

(** X9. The usage that [GetMemoryUsage] and [GetStorageInfo] report is
    the number of payload bytes held, reduced to a signed 64-bit
    integer, whatever the order of the map iteration.  Storing a chunk
    changes the bytes held by the length of its payload less that of the
    chunk it replaces, if any; deleting a chunk gives its bytes back. *)
Theorem MemoryStorage_usage ms chunk chunkID :
  let held id :=
    match MemoryStorage.chunks ms !! id with
    | Some old => len (FileChunk.payload old)
    | None => 0
    end in
  MemoryStorage.GetMemoryUsage ms = wrap64 (storedBytes ms) ∧
  MemoryStorage.total_size (MemoryStorage.GetStorageInfo ms)
  = MemoryStorage.GetMemoryUsage ms ∧
  storedBytes (MemoryStorage.StoreChunk ms chunk).2
  = storedBytes ms - held (FileChunk.ID chunk) + len (FileChunk.payload chunk) ∧
  storedBytes (MemoryStorage.DeleteChunk ms chunkID).2
  = storedBytes ms - held chunkID ∧
  storedBytes (MemoryStorage.ClearAll ms) = 0.
Proof.
  intros held. split; [apply GetMemoryUsage_storedBytes|]. split; [done|].
  destruct ms as [m]. unfold held. cbn. split; [|split].
  - rewrite <- insert_delete_eq.
    rewrite storedBytes_insert by apply lookup_delete_eq. cbn.
    destruct (m !! FileChunk.ID chunk) as [old|] eqn:Hold.
    + rewrite (storedBytes_delete m _ old) by done. lia.
    + rewrite delete_id by done. lia.
  - unfold MemoryStorage.DeleteChunk. cbn.
    destruct (m !! chunkID) as [old|] eqn:Hold; cbn.
    + by rewrite (storedBytes_delete m _ old).
    + lia.
  - unfold storedBytes. cbn. by rewrite map_fold_empty.
Qed.

(** X10. [ListChunks] lists every stored id once and nothing else; their
    number is the [chunk_count] of [GetStorageInfo] and what
    [CompactStorage] returns.  It grows by one with a store under a new
    id and stays the same with a store under a known one. *)
Theorem MemoryStorage_ListChunks ms chunk :
  NoDup (MemoryStorage.ListChunks ms) ∧
  (∀ chunkID, chunkID ∈ MemoryStorage.ListChunks ms ↔
     ∃ stored, MemoryStorage.GetChunk ms chunkID = Ok stored) ∧
  len (MemoryStorage.ListChunks ms) = MemoryStorage.CompactStorage ms ∧
  MemoryStorage.chunk_count (MemoryStorage.GetStorageInfo ms)
  = MemoryStorage.CompactStorage ms ∧
  MemoryStorage.CompactStorage (MemoryStorage.StoreChunk ms chunk).2
  = match MemoryStorage.chunks ms !! FileChunk.ID chunk with
    | Some _ => MemoryStorage.CompactStorage ms
    | None => MemoryStorage.CompactStorage ms + 1
    end.
Proof.
  unfold MemoryStorage.ListChunks, MemoryStorage.CompactStorage. split; [|split].
  - apply NoDup_fst_map_to_list.
  - intros chunkID. unfold MemoryStorage.GetChunk. rewrite list_elem_of_fmap. split.
    + intros ([id stored] & -> & Hin). apply elem_of_map_to_list in Hin.
      cbn. rewrite Hin. by eexists.
    + intros [stored Hget].
      destruct (MemoryStorage.chunks ms !! chunkID) as [held|] eqn:Hheld; [|done].
      exists (chunkID, held). split; [done|]. by apply elem_of_map_to_list.
  - split; [|split; [done|]].
    + unfold len. by rewrite length_fmap, length_map_to_list.
    + cbn. destruct (MemoryStorage.chunks ms !! FileChunk.ID chunk) as [old|] eqn:Hold.
      * rewrite <- (insert_delete_id _ _ _ Hold) at 2.
        rewrite <- insert_delete_eq.
        by rewrite !map_size_insert_None by apply lookup_delete_eq.
      * rewrite map_size_insert_None by done. lia.
Qed.

End store_more.

(** ** The client of a node *)

(** The chunk ids of a split are plain path segments when the file id
    is one: the index is written in decimal. *)
Lemma plainChars_app s1 s2 :
  plainChars (s1 +:+ s2) = plainChars s1 && plainChars s2.
Proof.
  induction s1 as [|c s1 IH]; [done|].
  change (plainChar c && plainChars (s1 +:+ s2)
          = plainChar c && plainChars s1 && plainChars s2).
  by rewrite IH, andb_assoc.
Qed.

Lemma plainChar_digit x : plainChar (pretty_N_char x) = true.
Proof. unfold pretty_N_char. by repeat case_match. Qed.

Lemma plainChars_pretty_N_go x : ∀ s,
  plainChars s = true → plainChars (pretty_N_go x s) = true.
Proof.
  induction (N.lt_wf_0 x) as [x _ IH]; intros s Hs.
  assert (x = 0 ∨ 0 < x)%N as [->|Hx] by lia; [by rewrite pretty_N_go_0|].
  rewrite pretty_N_go_step by done. apply IH; [by apply N.div_lt|].
  cbn. by rewrite plainChar_digit.
Qed.

Lemma plainChars_pretty (z : Z) : plainChars (pretty z) = true.
Proof.
  assert (∀ x : N, plainChars (pretty x) = true) as HN.
  { intros x. unfold pretty, pretty_N. case_decide; [done|].
    by apply plainChars_pretty_N_go. }
  unfold pretty, pretty_Z. destruct z as [|x|x]; [done|apply HN|].
  rewrite plainChars_app. cbn. apply HN.
Qed.

Section client_more.
Context {platform : Platform} {routing : StorageClient.Routing}.
Implicit Types (node : Node.t) (chunk : FileChunk.t).

Lemma plainSegment_chunkID fileID i :
  plainSegment fileID = true → plainSegment (chunking.chunkID fileID i) = true.
Proof.
  unfold plainSegment. intros [_ Hchars]%andb_true_iff.
  apply andb_true_iff. split.
  - apply bool_decide_eq_true. unfold chunking.chunkID. by destruct fileID.
  - unfold chunking.chunkID. rewrite !plainChars_app, Hchars, plainChars_pretty.
    done.
Qed.

Lemma chunksFrom_plainIDs D K fileID n :
  plainSegment fileID = true → plainIDs (chunksFrom D K fileID 0 n).
Proof.
  intros Hplain chunk Hin. apply list_elem_of_lookup in Hin as [k Hk].
  apply chunksFrom_lookup_Some in Hk as [_ ->]. cbn.
  by apply plainSegment_chunkID.
Qed.


(** What a store call leaves under each id of the node. *)
Lemma StoreChunk_lookup node chunk chunkID :
  MemoryStorage.chunks (Node.store (StorageClient.StoreChunk node chunk).2) !! chunkID
  = if decide ((StorageClient.StoreChunk node chunk).1 = None ∧
               chunkID = FileChunk.ID chunk)
    then Some (MemoryStorage.chunkCopy chunk)
    else MemoryStorage.chunks (Node.store node) !! chunkID.
Proof.
  unfold StorageClient.StoreChunk, MemoryStorageServer.storeChunk.
  destruct (Node.reachable node); [|by case_decide as Hc; [destruct Hc|]].
  destruct (chunking.ValidateChunk chunk); cbn.
  { by case_decide as Hc; [destruct Hc|]. }
  case_decide as Hc.
  - destruct Hc as [_ ->]. by rewrite lookup_insert_eq.
  - rewrite lookup_insert_ne; [done|]. intros <-. by destruct Hc.
Qed.

(** What a fetch returns from a node that answers. *)
Lemma GetChunk_reachable node chunkID :
  plainSegment chunkID = true →
  Node.reachable node = true →
  StorageClient.GetChunk node chunkID
  = match MemoryStorage.chunks (Node.store node) !! chunkID with
    | Some chunk => Ok (MemoryStorage.chunkCopy chunk)
    | None => Err (ErrServerStatus StatusNotFound)
    end.
Proof.
  intros Hplain Hr. unfold StorageClient.GetChunk, MemoryStorageServer.getChunk,
    MemoryStorage.GetChunk. rewrite Hplain, Hr.
  by destruct (MemoryStorage.chunks (Node.store node) !! chunkID).
Qed.

(** What a delete call leaves under each id of the node. *)
Lemma DeleteChunk_lookup node chunkID other :
  plainSegment chunkID = true →
  MemoryStorage.chunks (Node.store (StorageClient.DeleteChunk node chunkID).2) !! other
  = if decide (Node.reachable node = true ∧ other = chunkID) then None
    else MemoryStorage.chunks (Node.store node) !! other.
Proof.
  intros Hplain. unfold StorageClient.DeleteChunk, MemoryStorageServer.deleteChunk,
    MemoryStorage.DeleteChunk. rewrite Hplain.
  destruct (Node.reachable node); [|by case_decide as Hc; [destruct Hc|]].
  destruct (MemoryStorage.chunks (Node.store node) !! chunkID) as [held|] eqn:Hheld; cbn.
  - case_decide as Hc.
    + destruct Hc as [_ ->]. apply lookup_delete_eq.
    + rewrite lookup_delete_ne; [done|]. intros <-. by destruct Hc.
  - case_decide as Hc; [|done]. by destruct Hc as [_ ->].
Qed.

Lemma DeleteChunk_reachable node chunkID :
  plainSegment chunkID = true →
  Node.reachable (StorageClient.DeleteChunk node chunkID).2 = Node.reachable node.
Proof.
  intros Hplain. unfold StorageClient.DeleteChunk. rewrite Hplain.
  destruct (Node.reachable node) eqn:Hr; [|done].
  by destruct (MemoryStorageServer.deleteChunk _ _).
Qed.

Lemma DeleteChunk_unreachable node chunkID :
  plainSegment chunkID = true → Node.reachable node = false →
  (StorageClient.DeleteChunk node chunkID).2 = node.
Proof.
  intros Hplain Hdown. unfold StorageClient.DeleteChunk. by rewrite Hplain, Hdown.
Qed.


End client_more.

(** ** The coordinator: where the chunks are, and the way back *)

Section coordinator_more.
Context {platform : Platform} {routing : StorageClient.Routing}.
Implicit Types (net : list Node.t) (chunks : list FileChunk.t).

Lemma net_slot net (k : nat) :
  net ≠ [] → ∃ node, net !! (k `mod` length net)%nat = Some node.
Proof.
  intros Hne. apply lookup_lt_is_Some_2, Nat.mod_upper_bound.
  by destruct net.
Qed.

Lemma reachable_length net net' :
  Node.reachable <$> net' = Node.reachable <$> net → length net' = length net.
Proof. intros Hr. apply (f_equal length) in Hr. by rewrite !length_fmap in Hr. Qed.

Lemma reachable_lookup net net' (j : nat) node node' :
  Node.reachable <$> net' = Node.reachable <$> net →
  net !! j = Some node → net' !! j = Some node' →
  Node.reachable node' = Node.reachable node.
Proof.
  intros Hr Hn Hn'.
  assert ((Node.reachable <$> net') !! j = Some (Node.reachable node)) as Hj.
  { by rewrite Hr, list_lookup_fmap, Hn. }
  rewrite list_lookup_fmap, Hn' in Hj. by injection Hj.
Qed.

(** One store goroutine: the chunk it stored is held, and what was held
    stays held as long as ids identify chunks. *)
Lemma storeTask_held chunks net (k0 : nat) c0 err net1 :
  net ≠ [] → Z.of_nat k0 ≤ int64_max →
  StreamingAPIServer.storeTask net (Z.of_nat k0) c0 = Ok (err, net1) →
  (err = None → heldAtItsNode net1 k0 c0) ∧
  (∀ (k : nat) c, heldAtItsNode net k c →
     (FileChunk.ID c0 = FileChunk.ID c → c0 = c) → heldAtItsNode net1 k c).
Proof.
  intros Hne Hk0 Htask.
  destruct (storeTask_spec net k0 c0 Hne Hk0) as (node0 & Hnode0 & Hspec).
  rewrite Hspec in Htask. injection Htask as <- <-.
  assert (k0 `mod` length net < length net)%nat as Hlt by by apply lookup_lt_Some in Hnode0.
  split.
  - intros Herr. apply fmap_None in Herr.
    eexists. unfold heldAtItsNode. rewrite length_insert, list_lookup_insert_eq by done.
    split; [done|]. rewrite StoreChunk_lookup. by case_decide as Hc; [|destruct Hc].
  - intros k c (node & Hnode & Hheld) Hid. unfold heldAtItsNode.
    rewrite length_insert.
    destruct (decide (k0 `mod` length net = k `mod` length net)%nat) as [Heq|Hneq].
    + rewrite <- Heq, list_lookup_insert_eq by done. eexists. split; [done|].
      rewrite <- Heq, Hnode0 in Hnode. injection Hnode as <-.
      rewrite StoreChunk_lookup. case_decide as Hc; [|done].
      destruct Hc as [_ Hc]. by rewrite (Hid (eq_sym Hc)).
    + rewrite list_lookup_insert_ne by done. by exists node.
Qed.

(** All store goroutines: every chunk whose store call succeeds is held
    by its node afterwards, whether or not other calls fail. *)
Lemma runStores_held chunks sched : ∀ net errChan errs net',
  net ≠ [] →
  Forall (λ k : nat, Z.of_nat k ≤ int64_max) sched →
  (∀ (k k' : nat) c c', chunks !! k = Some c → chunks !! k' = Some c' →
     FileChunk.ID c = FileChunk.ID c' → c = c') →
  StreamingAPIServer.runStores sched chunks net errChan = Ok (errs, net') →
  (∀ (k : nat) c, k ∈ sched → chunks !! k = Some c →
     storedAtItsNode net k c → heldAtItsNode net' k c) ∧
  (∀ (k : nat) c, chunks !! k = Some c →
     heldAtItsNode net k c → heldAtItsNode net' k c).
Proof.
  induction sched as [|k0 sched IH]; intros net errChan errs net' Hne Hsched Hids;
    cbn [StreamingAPIServer.runStores].
  { intros [= <- <-]. split; [|done]. intros k c Hk. by apply elem_of_nil in Hk. }
  apply Forall_cons in Hsched as [Hk0 Hsched].
  destruct (chunks !! k0) as [c0|] eqn:Hc0.
  2:{ intros Hrun. destruct (IH _ _ _ _ Hne Hsched Hids Hrun) as [Hnew Hold].
      split; [|done]. intros k c Hin Hc. apply elem_of_cons in Hin as [->|Hin];
        [congruence|by apply Hnew]. }
  destruct (storeTask_spec net k0 c0 Hne Hk0) as (node0 & Hnode0 & Htask).
  destruct (StreamingAPIServer.storeTask net (Z.of_nat k0) c0) as [[err net1]| |] eqn:Hrun0;
    [|done..].
  cbn [mbind outcome_bind fst snd]. intros Hrun.
  destruct (storeTask_held chunks net k0 c0 err net1 Hne Hk0 Hrun0) as [Hstored Hkept].
  injection Htask as Herr Hnet1.
  assert (Node.reachable <$> net1 = Node.reachable <$> net) as Hreach1.
  { rewrite Hnet1, list_fmap_insert, StoreChunk_reachable.
    apply list_insert_id. by rewrite list_lookup_fmap, Hnode0. }
  assert (net1 ≠ []) as Hne1.
  { intros Hnil. rewrite Hnil in Hreach1. by destruct net. }
  destruct (IH _ _ _ _ Hne1 Hsched Hids Hrun) as [Hnew Hold].
  assert (∀ (k : nat) c, chunks !! k = Some c →
            heldAtItsNode net k c → heldAtItsNode net' k c) as Hold'.
  { intros k c Hc Hheld. apply Hold; [done|]. apply Hkept; [done|].
    intros Hid. by apply (Hids k0 k). }
  split; [|done].
  intros k c Hin Hc Hok. apply elem_of_cons in Hin as [->|Hin].
  - rewrite Hc0 in Hc. injection Hc as <-.
    apply Hold; [done|]. apply Hstored.
    destruct Hok as (node & Hnode & Hnil).
    rewrite Hnode0 in Hnode. injection Hnode as <-. by rewrite Herr, Hnil.
  - apply Hnew; [done..|]. by eapply storedAtItsNode_reachable.
Qed.

(** One fetch goroutine. *)
Lemma getTask_spec net (k : nat) chunkMeta :
  net ≠ [] → Z.of_nat k ≤ int64_max →
  ∃ node,
    net !! (k `mod` length net)%nat = Some node ∧
    StreamingAPIServer.getTask net (Z.of_nat k) chunkMeta
    = match StorageClient.GetChunk node (FileChunk.ID chunkMeta) with
      | Ok chunk => Ok (inr chunk)
      | Err err =>
          Ok (inl (ErrGetChunk (Z.of_nat k) (Z.of_nat (k `mod` length net)) err))
      | Panic p => Panic p
      end.
Proof.
  intros Hne Hk. destruct (net_slot net k Hne) as [node Hnode].
  exists node. split; [done|].
  assert (0 < length net)%nat as Hlen by (destruct net; [done|cbn; lia]).
  unfold StreamingAPIServer.getTask, rem64, len.
  case_decide; [lia|]. cbn [mbind outcome_bind].
  rewrite Z.rem_mod_nonneg, <- Nat2Z.inj_mod by lia.
  rewrite wrap64_id.
  2:{ pose proof (Nat.Div0.mod_le k (length net)). int64_range. }
  by rewrite Nat2Z.id, Hnode.
Qed.

Lemma GetChunk_no_panic (node : Node.t) chunkID p :
  StorageClient.GetChunk node chunkID ≠ Panic p.
Proof.
  unfold StorageClient.GetChunk.
  destruct (plainSegment chunkID); [|by destruct (StorageClient.strayGet _ _)].
  destruct (Node.reachable node); [|done].
  case_decide; [done|]. by destruct (content _).
Qed.

(** All fetch goroutines: no error is sent exactly when every scheduled
    chunk is fetched, and then every scheduled position holds the chunk
    fetched for it. *)
Lemma runGets_spec metaChunks net sched : ∀ acc errChan,
  net ≠ [] →
  Forall (λ k : nat, Z.of_nat k ≤ int64_max) sched →
  length acc = length metaChunks →
  ∃ acc' errs,
    StreamingAPIServer.runGets sched metaChunks net acc errChan
    = Ok (acc', errChan ++ errs) ∧
    length acc' = length acc ∧
    (errs = [] ↔
     ∀ (k : nat) chunkMeta, k ∈ sched → metaChunks !! k = Some chunkMeta →
       ∃ chunk, fetchedFromItsNode net k chunkMeta chunk) ∧
    (∀ (k : nat) chunkMeta chunk, k ∈ sched → metaChunks !! k = Some chunkMeta →
       fetchedFromItsNode net k chunkMeta chunk → acc' !! k = Some chunk) ∧
    (∀ k : nat, k ∉ sched → acc' !! k = acc !! k).
Proof.
  induction sched as [|k0 sched IH]; intros acc errChan Hne Hsched Hlen;
    cbn [StreamingAPIServer.runGets].
  { exists acc, []. rewrite app_nil_r. split; [done|]. split; [done|].
    split; [|split; [|done]].
    - split; [|done]. intros _ k chunkMeta Hk. by apply elem_of_nil in Hk.
    - intros k chunkMeta chunk Hk. by apply elem_of_nil in Hk. }
  apply Forall_cons in Hsched as [Hk0 Hsched].
  destruct (metaChunks !! k0) as [meta0|] eqn:Hmeta0.
  2:{ destruct (IH acc errChan Hne Hsched Hlen)
        as (acc' & errs & -> & Hlen' & Hiff & Hfetched & Hrest).
      exists acc', errs. split; [done|]. split; [done|]. split; [|split].
      - rewrite Hiff. split.
        + intros Hall k chunkMeta Hin Hk. apply elem_of_cons in Hin as [->|Hin];
            [congruence|by apply Hall].
        + intros Hall k chunkMeta Hin. apply Hall. by right.
      - intros k chunkMeta chunk Hin Hk. apply elem_of_cons in Hin as [->|Hin];
          [congruence|by apply Hfetched].
      - intros k Hk. apply Hrest. intros Hin. apply Hk. by right. }
  destruct (getTask_spec net k0 meta0 Hne Hk0) as (node0 & Hnode0 & ->).
  destruct (StorageClient.GetChunk node0 (FileChunk.ID meta0)) as [c0|err|p] eqn:Hget;
    [| |by apply GetChunk_no_panic in Hget]; cbn [mbind outcome_bind].
  - assert (k0 < length acc)%nat as Hk0acc.
    { rewrite Hlen. by apply lookup_lt_Some in Hmeta0. }
    unfold set_index, len. case_decide; [|lia]. cbn [mbind outcome_bind].
    rewrite Nat2Z.id.
    destruct (IH (<[k0 := c0]> acc) errChan Hne Hsched)
      as (acc' & errs & -> & Hlen' & Hiff & Hfetched & Hrest).
    { by rewrite length_insert. }
    exists acc', errs. split; [done|]. rewrite length_insert in Hlen'.
    split; [done|]. split; [|split].
    + rewrite Hiff. split.
      * intros Hall k chunkMeta Hin Hk. apply elem_of_cons in Hin as [->|Hin];
          [|by apply Hall].
        rewrite Hmeta0 in Hk. injection Hk as <-. exists c0. by exists node0.
      * intros Hall k chunkMeta Hin. apply Hall. by right.
    + intros k chunkMeta chunk Hin Hk Hf.
      destruct (decide (k ∈ sched)) as [Hin'|Hnin]; [by eapply Hfetched|].
      apply elem_of_cons in Hin as [->|Hin]; [|done].
      rewrite Hrest, list_lookup_insert_eq by done.
      destruct Hf as (node & Hnode & Hf). rewrite Hmeta0 in Hk. injection Hk as <-.
      rewrite Hnode0 in Hnode. injection Hnode as <-. congruence.
    + intros k Hk. rewrite Hrest by (intros Hin; apply Hk; by right).
      apply list_lookup_insert_ne. intros ->. apply Hk. left.
  - destruct (IH acc (errChan ++ [ErrGetChunk (Z.of_nat k0)
                (Z.of_nat (k0 `mod` length net)) err]) Hne Hsched Hlen)
      as (acc' & errs & -> & Hlen' & Hiff & Hfetched & Hrest).
    eexists acc', (_ :: errs). rewrite <- app_assoc. split; [done|].
    split; [done|]. split; [|split].
    + split; [done|]. intros Hall.
      destruct (Hall k0 meta0 ltac:(left) Hmeta0) as (chunk & node & Hnode & Hf).
      rewrite Hnode0 in Hnode. injection Hnode as <-. congruence.
    + intros k chunkMeta chunk Hin Hk Hf.
      apply elem_of_cons in Hin as [->|Hin]; [|by eapply Hfetched].
      destruct Hf as (node & Hnode & Hf). rewrite Hmeta0 in Hk. injection Hk as <-.
      rewrite Hnode0 in Hnode. injection Hnode as <-. congruence.
    + intros k Hk. apply Hrest. intros Hin. apply Hk. by right.
Qed.

Lemma reconstructFileInMemory_ok chunks :
  len (payloads chunks) ≤ int64_max →
  StreamingAPIServer.reconstructFileInMemory chunks = Ok (payloads chunks).
Proof.
  intros Hmax. unfold StreamingAPIServer.reconstructFileInMemory.
  rewrite totalSize_loop_spec by (done || lia). unfold make_cap.
  pose proof (len_nonneg (payloads chunks)).
  case_decide; [lia|]. cbn [mbind outcome_bind]. by rewrite append_loop_spec.
Qed.

End coordinator_more.

Section roundtrip.
Context {platform : Platform} {routing : StorageClient.Routing}.
Implicit Types (net : list Node.t) (chunks : list FileChunk.t).

Lemma chunksFrom_ids D K fileID n (k k' : nat) c c' :
  chunksFrom D K fileID 0 n !! k = Some c →
  chunksFrom D K fileID 0 n !! k' = Some c' →
  FileChunk.ID c = FileChunk.ID c' → c = c'.
Proof.
  intros Hc Hc' Hid.
  apply chunksFrom_lookup_Some in Hc as [_ ->].
  apply chunksFrom_lookup_Some in Hc' as [_ ->].
  cbn in Hid. apply chunkID_inj in Hid. by rewrite Hid.
Qed.

Lemma sched_bound sched (n : nat) :
  sched ≡ₚ seq 0 n → Z.of_nat n ≤ int64_max →
  Forall (λ k : nat, Z.of_nat k ≤ int64_max) sched.
Proof.
  intros Hsched Hn. rewrite Hsched. apply Forall_forall. intros k Hk.
  apply elem_of_seq in Hk. lia.
Qed.

Lemma sched_covers sched (n k : nat) :
  sched ≡ₚ seq 0 n → (k < n)%nat → k ∈ sched.
Proof. intros Hsched Hk. rewrite Hsched. apply elem_of_seq. lia. Qed.

(** X12. Round trip through the whole system. When every node answers,
    an upload is answered with 200 and a download of the file id then
    returns exactly the uploaded bytes, under the uploaded name and
    content type, for every order in which the store and the fetch
    goroutines complete.  (The file id drawn is a plain path segment,
    as a UUID is, and the slice of the configured number of chunks is
    within the allocation limit.) *)
Theorem upload_then_download
    (s : StreamingAPIServer.t) net sched sched' fileID (file : FormFile.t) :
  let K := Config.ChunkCount (StreamingAPIServer.config s) in
  let D := FormFile.bytes file in
  len D ≤ Config.MaxFileSize (StreamingAPIServer.config s) →
  len D ≤ int64_max →
  0 < K → K * sizeof FileChunk.t ≤ maxAlloc →
  plainSegment fileID = true →
  net ≠ [] →
  Forall (λ node, Node.reachable node = true) net →
  sched ≡ₚ seq 0 (Z.to_nat K) → sched' ≡ₚ seq 0 (Z.to_nat K) →
  ∃ metadata s' net',
    StreamingAPIServer.streamingUploadFile s net sched fileID (Some file)
    = Responded {| status := StatusOK; content := BodyMetadata metadata |} (s', net') ∧
    StreamingAPIServer.streamingDownloadFile s' net' sched' fileID
    = Responded
        {| status := StatusOK;
           content := BodyFile (FormFile.Filename file) (FormFile.ContentType file) D |}
        (s', net').
Proof.
  intros K D Hsize HD HK HKmax Hplain Hne Hup Hsched Hsched'.
  pose proof (chunkCount_int64 K HK HKmax) as HK64.
  set (chunks := chunksFrom D K fileID 0 (Z.to_nat K)).
  assert (Forall (λ k : nat, Z.of_nat k ≤ int64_max) sched) as Hb
    by (eapply sched_bound; [done|lia]).
  assert (Forall (λ k : nat, Z.of_nat k ≤ int64_max) sched') as Hb'
    by (eapply sched_bound; [done|lia]).
  unfold StreamingAPIServer.streamingUploadFile. fold D K.
  case_decide; [lia|]. rewrite chunkFileInMemory_ok by done. fold chunks.
  set (metadata := FileMetadata.mk _ _ _ _ _ _ _).
  unfold StreamingAPIServer.distributeChunks. cbn [FileMetadata.Chunks metadata].
  destruct (runStores_spec chunks sched net [] Hne Hb)
    as (errs & net' & Hrun & Hreach & Hiff).
  assert (errs = []) as ->.
  { apply Hiff. intros k chunk _ Hk.
    destruct (net_slot net k Hne) as [node Hnode]. exists node. split; [done|].
    apply StoreChunk_nil_iff. split.
    - by eapply Forall_lookup_1 in Hup.
    - eapply chunksFrom_valid; [done|]. by eapply list_elem_of_lookup_2. }
  rewrite Hrun. cbn [mbind outcome_bind fst snd app head].
  eexists metadata, _, net'. split; [done|].
  pose proof (runStores_held chunks sched net [] [] net' Hne Hb
                (chunksFrom_ids D K fileID (Z.to_nat K)) Hrun) as [Hheld _].
  assert (length net' = length net) as Hlen by by apply reachable_length.
  assert (net' ≠ []) as Hne' by (intros ->; by destruct net).
  assert (∀ (k : nat) chunk, chunks !! k = Some chunk →
            fetchedFromItsNode net' k chunk chunk) as Hfetch.
  { intros k chunk Hk.
    assert (k ∈ sched) as Hin.
    { eapply sched_covers; [done|]. apply lookup_lt_Some in Hk.
      unfold chunks in Hk. by rewrite chunksFrom_length in Hk. }
    destruct (net_slot net k Hne) as [node Hnode].
    assert (Node.reachable node = true) as Hr by by eapply Forall_lookup_1 in Hup.
    assert (storedAtItsNode net k chunk) as Hstored.
    { exists node. split; [done|]. apply StoreChunk_nil_iff. split; [done|].
      eapply chunksFrom_valid; [done|]. by eapply list_elem_of_lookup_2. }
    destruct (Hheld k chunk Hin Hk Hstored) as (node' & Hnode' & Hstore).
    exists node'. split; [done|]. rewrite Hlen in Hnode'.
    rewrite GetChunk_reachable, Hstore.
    - f_equal. apply chunksFrom_lookup_Some in Hk as [_ ->].
      by rewrite !chunkCopy_id.
    - eapply chunksFrom_plainIDs; [done|]. by eapply list_elem_of_lookup_2.
    - by rewrite (reachable_lookup _ _ _ _ _ Hreach Hnode Hnode'). }
  unfold StreamingAPIServer.streamingDownloadFile.
  cbn [StreamingAPIServer.fileMetadata]. rewrite lookup_insert_eq.
  unfold StreamingAPIServer.collectChunks. cbn [FileMetadata.Chunks metadata].
  unfold make_len_of.
  destruct (runGets_spec chunks net' sched'
              (replicate (length chunks) FileChunk.zero) [] Hne' Hb')
    as (acc' & errs & -> & Hlen' & Hiff' & Hfetched & _).
  { by rewrite length_replicate. }
  assert (errs = []) as ->.
  { apply Hiff'. intros k chunk _ Hk. exists chunk. by apply Hfetch. }
  cbn [fst snd app head].
  assert (acc' = chunks) as ->.
  { apply list_eq. intros k.
    destruct (chunks !! k) as [chunk|] eqn:Hk.
    - apply (Hfetched k chunk chunk); [|done|by apply Hfetch].
      eapply sched_covers; [done|]. apply lookup_lt_Some in Hk.
      unfold chunks in Hk. by rewrite chunksFrom_length in Hk.
    - apply lookup_ge_None in Hk. apply lookup_ge_None.
      by rewrite Hlen', length_replicate. }
  cbn [mbind outcome_bind fst snd head].
  rewrite reconstructFileInMemory_ok; unfold chunks;
    rewrite chunksFrom_concat by done; done.
Qed.

(** X13. No compensation after a failed upload: whatever the outcome,
    every chunk whose store call succeeds is held by its node
    afterwards; when the store call of some chunk fails, the upload is
    answered with 500, the server is unchanged, and those chunks stay
    on the nodes.  (The slice of the configured number of chunks is
    within the allocation limit.) *)
Theorem failed_upload_leaves_chunks
    (s : StreamingAPIServer.t) net sched fileID (file : FormFile.t) :
  let K := Config.ChunkCount (StreamingAPIServer.config s) in
  let D := FormFile.bytes file in
  len D ≤ Config.MaxFileSize (StreamingAPIServer.config s) →
  len D ≤ int64_max →
  0 < K → K * sizeof FileChunk.t ≤ maxAlloc →
  net ≠ [] →
  sched ≡ₚ seq 0 (Z.to_nat K) →
  ∃ chunks r s' net',
    StreamingAPIServer.chunkFileInMemory D fileID K = Ok chunks ∧
    StreamingAPIServer.streamingUploadFile s net sched fileID (Some file)
    = Responded r (s', net') ∧
    (∀ (k : nat) chunk, chunks !! k = Some chunk →
       storedAtItsNode net k chunk → heldAtItsNode net' k chunk) ∧
    ((∃ (k : nat) chunk, chunks !! k = Some chunk ∧ ¬ storedAtItsNode net k chunk) →
       status r = StatusInternalServerError ∧ s' = s).
Proof.
  intros K D Hsize HD HK HKmax Hne Hsched.
  pose proof (chunkCount_int64 K HK HKmax) as HK64.
  set (chunks := chunksFrom D K fileID 0 (Z.to_nat K)).
  assert (Forall (λ k : nat, Z.of_nat k ≤ int64_max) sched) as Hb
    by (eapply sched_bound; [done|lia]).
  exists chunks. unfold StreamingAPIServer.streamingUploadFile. fold D K.
  case_decide; [lia|]. rewrite chunkFileInMemory_ok by done. fold chunks.
  set (metadata := FileMetadata.mk _ _ _ _ _ _ _).
  unfold StreamingAPIServer.distributeChunks. cbn [FileMetadata.Chunks metadata].
  destruct (runStores_spec chunks sched net [] Hne Hb)
    as (errs & net' & Hrun & Hreach & Hiff).
  pose proof (runStores_held chunks sched net [] _ net' Hne Hb
                (chunksFrom_ids D K fileID (Z.to_nat K)) Hrun) as [Hheld _].
  rewrite Hrun. cbn [mbind outcome_bind fst snd app].
  assert (∀ (k : nat) chunk, chunks !! k = Some chunk →
            storedAtItsNode net k chunk → heldAtItsNode net' k chunk) as Hall.
  { intros k chunk Hk. apply Hheld; [|done].
    eapply sched_covers; [done|]. apply lookup_lt_Some in Hk.
    unfold chunks in Hk. by rewrite chunksFrom_length in Hk. }
  destruct errs as [|err errs]; cbn [head].
  - eexists _, _, net'. split; [done|]. split; [done|]. split; [done|].
    intros (k & chunk & Hk & Hnot). destruct Hnot.
    destruct Hiff as [Hiff _]. apply Hiff; [done| |done].
    eapply sched_covers; [done|]. apply lookup_lt_Some in Hk.
    unfold chunks in Hk. by rewrite chunksFrom_length in Hk.
  - eexists _, _, net'. split; [done|]. split; [done|]. by split.
Qed.

(** X14. A download needs every chunk: when the client of some chunk's
    node fetches nothing for it (the node does not answer, or does not
    hold the chunk), the download of a known file is answered with 500. *)
Theorem download_needs_every_chunk
    (s : StreamingAPIServer.t) net sched fileID metadata :
  StreamingAPIServer.fileMetadata s !! fileID = Some metadata →
  net ≠ [] →
  len (FileMetadata.Chunks metadata) ≤ int64_max →
  sched ≡ₚ seq 0 (length (FileMetadata.Chunks metadata)) →
  (∃ (k : nat) chunkMeta,
     FileMetadata.Chunks metadata !! k = Some chunkMeta ∧
     ∀ chunk, ¬ fetchedFromItsNode net k chunkMeta chunk) →
  ∃ err,
    StreamingAPIServer.streamingDownloadFile s net sched fileID
    = Responded {| status := StatusInternalServerError;
                   content := BodyError (Some err) |} (s, net).
Proof.
  intros Hmeta Hne Hlen Hsched (k & chunkMeta & Hk & Hnone).
  assert (Forall (λ k : nat, Z.of_nat k ≤ int64_max) sched) as Hb
    by (eapply sched_bound; [done|unfold len in Hlen; lia]).
  unfold StreamingAPIServer.streamingDownloadFile. rewrite Hmeta.
  unfold StreamingAPIServer.collectChunks, make_len_of.
  destruct (runGets_spec (FileMetadata.Chunks metadata) net sched
              (replicate (length (FileMetadata.Chunks metadata)) FileChunk.zero)
              [] Hne Hb)
    as (acc' & errs & -> & _ & Hiff & _).
  { by rewrite length_replicate. }
  destruct errs as [|err errs]; cbn [fst snd app head]; [|by exists err].
  destruct Hiff as [Hiff _].
  destruct (Hiff eq_refl k chunkMeta) as [chunk Hchunk]; [|done|by destruct (Hnone chunk)].
  eapply sched_covers; [done|]. by apply lookup_lt_Some in Hk.
Qed.

End roundtrip.

Section upload_more.
Context {platform : Platform}.

(** X19. The metadata that a successful upload answers with (and
    registers) is consistent: it passes [ValidateFileMetadata], each of
    its chunks passes [ValidateChunk], and the payloads of its chunks
    concatenate to the uploaded bytes. *)
Theorem upload_answers_valid_metadata
    (s s' : StreamingAPIServer.t) (net net' : list Node.t) sched fileID
    (file : FormFile.t) r metadata :
  let K := Config.ChunkCount (StreamingAPIServer.config s) in
  let D := FormFile.bytes file in
  0 < K → K ≤ int64_max → len D ≤ int64_max →
  StreamingAPIServer.streamingUploadFile s net sched fileID (Some file)
  = Responded r (s', net') →
  content r = BodyMetadata metadata →
  chunking.ValidateFileMetadata metadata = None ∧
  Forall (λ chunk, chunking.ValidateChunk chunk = None) (FileMetadata.Chunks metadata) ∧
  payloads (FileMetadata.Chunks metadata) = D ∧
  StreamingAPIServer.fileMetadata s' !! fileID = Some metadata.
Proof.
  intros K D HK HKmax HD. unfold StreamingAPIServer.streamingUploadFile. fold D K.
  case_decide; [by intros [= <- <- <-]|].
  destruct (decide (K * sizeof FileChunk.t ≤ maxAlloc)) as [Halloc|Halloc].
  2:{ rewrite chunkFileInMemory_too_many by lia. by intros [= <- <- <-]. }
  rewrite chunkFileInMemory_ok by done.
  destruct (StreamingAPIServer.distributeChunks _ _ _) as [[[err|] net1]|err|p];
    [by intros [= <- <- <-]| |by intros [= <- <- <-]|done].
  intros [= <- <- <-] [= <-]. cbn [FileMetadata.Chunks StreamingAPIServer.fileMetadata].
  assert (len (chunksFrom D K fileID 0 (Z.to_nat K)) = K) as ->.
  { unfold len. rewrite chunksFrom_length. lia. }
  split; [by apply ValidateFileMetadata_split|]. split; [|split].
  - apply Forall_forall. intros chunk. by apply chunksFrom_valid.
  - by apply chunksFrom_concat.
  - by rewrite lookup_insert_eq.
Qed.

(** The chunk ids that an upload registers are plain path segments, the
    file id drawn being one (a UUID is): these are the ids that the
    downloads and deletions of the coordinator hand to the clients. *)
Lemma upload_registers_plain_ids
    (s s' : StreamingAPIServer.t) (net net' : list Node.t) sched fileID
    (file : FormFile.t) r metadata :
  0 < Config.ChunkCount (StreamingAPIServer.config s) →
  len (FormFile.bytes file) ≤ int64_max →
  plainSegment fileID = true →
  StreamingAPIServer.streamingUploadFile s net sched fileID (Some file)
  = Responded r (s', net') →
  content r = BodyMetadata metadata →
  plainIDs (FileMetadata.Chunks metadata).
Proof.
  intros HK HD Hplain. unfold StreamingAPIServer.streamingUploadFile.
  case_decide; [by intros [= <- <- <-]|].
  destruct (StreamingAPIServer.chunkFileInMemory _ _ _) as [chunks|err|p] eqn:Hsplit;
    [|by intros [= <- <- <-]..].
  apply chunkFileInMemory_inv in Hsplit as [_ ->]; [|done..].
  destruct (StreamingAPIServer.distributeChunks _ _ _) as [[[err|] net1]|err|p];
    [by intros [= <- <- <-]| |by intros [= <- <- <-]|done].
  intros [= <- <- <-] [= <-]. cbn [FileMetadata.Chunks].
  by apply chunksFrom_plainIDs.
Qed.

End upload_more.

(** ** The coordinator: deletion, listing and health *)

Section delete_more.
Context {routing : StorageClient.Routing}.
Implicit Types (net : list Node.t) (chunks : list FileChunk.t).

(** One delete goroutine. *)
Lemma deleteTask_spec net (k : nat) chunk :
  net ≠ [] → Z.of_nat k ≤ int64_max →
  ∃ node,
    net !! (k `mod` length net)%nat = Some node ∧
    StreamingAPIServer.deleteTask net (Z.of_nat k) chunk
    = Ok (<[(k `mod` length net)%nat :=
              (StorageClient.DeleteChunk node (FileChunk.ID chunk)).2]> net).
Proof.
  intros Hne Hk. destruct (net_slot net k Hne) as [node Hnode].
  exists node. split; [done|].
  assert (0 < length net)%nat as Hlen by (destruct net; [done|cbn; lia]).
  unfold StreamingAPIServer.deleteTask, rem64, len.
  case_decide; [lia|]. cbn [mbind outcome_bind].
  rewrite Z.rem_mod_nonneg, <- Nat2Z.inj_mod by lia.
  rewrite wrap64_id.
  2:{ pose proof (Nat.Div0.mod_le k (length net)). int64_range. }
  rewrite Nat2Z.id, Hnode.
  by destruct (StorageClient.DeleteChunk node (FileChunk.ID chunk)).
Qed.

(** All delete goroutines: they always complete. *)
Lemma runDeletes_ok chunks sched : ∀ net,
  net ≠ [] →
  Forall (λ k : nat, Z.of_nat k ≤ int64_max) sched →
  ∃ net', StreamingAPIServer.runDeletes sched chunks net = Ok net'.
Proof.
  induction sched as [|k0 sched IH]; intros net Hne Hsched;
    cbn [StreamingAPIServer.runDeletes]; [by exists net|].
  apply Forall_cons in Hsched as [Hk0 Hsched].
  destruct (chunks !! k0) as [c0|]; [|by apply IH].
  destruct (deleteTask_spec net k0 c0 Hne Hk0) as (node0 & Hnode0 & ->).
  cbn [mbind outcome_bind]. apply IH; [|done].
  intros Hnil. apply (f_equal length) in Hnil. rewrite length_insert in Hnil.
  by destruct net.
Qed.

(** All delete goroutines, for chunk ids that are plain path segments: a
    node that does not answer keeps its store; on a node that answers
    the ids of the scheduled chunks placed there are gone and no other
    id is touched. *)
Lemma runDeletes_spec chunks sched : ∀ net,
  plainIDs chunks →
  net ≠ [] →
  Forall (λ k : nat, Z.of_nat k ≤ int64_max) sched →
  ∃ net',
    StreamingAPIServer.runDeletes sched chunks net = Ok net' ∧
    Node.reachable <$> net' = Node.reachable <$> net ∧
    (∀ (j : nat) node node' chunkID,
       net !! j = Some node → net' !! j = Some node' →
       (MemoryStorage.chunks (Node.store node') !! chunkID = None ∨
        MemoryStorage.chunks (Node.store node') !! chunkID
        = MemoryStorage.chunks (Node.store node) !! chunkID) ∧
       ((∀ (k : nat) chunk, k ∈ sched → chunks !! k = Some chunk →
           FileChunk.ID chunk ≠ chunkID) →
        MemoryStorage.chunks (Node.store node') !! chunkID
        = MemoryStorage.chunks (Node.store node) !! chunkID) ∧
       (Node.reachable node = false → node' = node)) ∧
    (∀ (k : nat) chunk node,
       k ∈ sched → chunks !! k = Some chunk →
       net !! (k `mod` length net)%nat = Some node → Node.reachable node = true →
       goneFromItsNode net' k chunk).
Proof.
  induction sched as [|k0 sched IH]; intros net Hplain Hne Hsched;
    cbn [StreamingAPIServer.runDeletes].
  { exists net. split; [done|]. split; [done|]. split.
    - intros j node node' chunkID Hn Hn'. rewrite Hn in Hn'. injection Hn' as <-.
      split; [by right|]. by split.
    - intros k chunk node Hk. by apply elem_of_nil in Hk. }
  apply Forall_cons in Hsched as [Hk0 Hsched].
  destruct (chunks !! k0) as [c0|] eqn:Hc0.
  2:{ destruct (IH net Hplain Hne Hsched) as (net' & -> & Hreach & Hnodes & Hgone).
      exists net'. split; [done|]. split; [done|]. split.
      - intros j node node' chunkID Hn Hn'.
        destruct (Hnodes j node node' chunkID Hn Hn') as (Hmono & Hother & Hdown).
        split; [done|]. split; [|done]. intros Hids. apply Hother.
        intros k chunk Hin. apply Hids. by right.
      - intros k chunk node Hin Hk. apply elem_of_cons in Hin as [->|Hin];
          [congruence|by apply Hgone]. }
  destruct (deleteTask_spec net k0 c0 Hne Hk0) as (node0 & Hnode0 & ->).
  cbn [mbind outcome_bind].
  assert (plainSegment (FileChunk.ID c0) = true) as Hplain0.
  { apply Hplain. by eapply list_elem_of_lookup_2. }
  set (j0 := (k0 `mod` length net)%nat) in *.
  set (node0' := (StorageClient.DeleteChunk node0 (FileChunk.ID c0)).2).
  set (net1 := <[j0 := node0']> net).
  assert (j0 < length net)%nat as Hj0 by by apply lookup_lt_Some in Hnode0.
  assert (Node.reachable <$> net1 = Node.reachable <$> net) as Hreach1.
  { unfold net1, node0'. rewrite list_fmap_insert, DeleteChunk_reachable by done.
    apply list_insert_id. by rewrite list_lookup_fmap, Hnode0. }
  assert (length net1 = length net) as Hlen1 by by apply reachable_length.
  assert (net1 ≠ []) as Hne1 by (intros Hnil; rewrite Hnil in Hlen1; by destruct net).
  destruct (IH net1 Hplain Hne1 Hsched) as (net' & -> & Hreach & Hnodes & Hgone).
  exists net'. split; [done|]. split; [by rewrite Hreach|].
  assert (∀ (j : nat) node, net !! j = Some node →
            ∃ node1, net1 !! j = Some node1 ∧
              Node.reachable node1 = Node.reachable node ∧
              (∀ chunkID,
                 MemoryStorage.chunks (Node.store node1) !! chunkID
                 = if decide (j = j0 ∧ Node.reachable node = true ∧
                              chunkID = FileChunk.ID c0)
                   then None
                   else MemoryStorage.chunks (Node.store node) !! chunkID) ∧
              (Node.reachable node = false → node1 = node)) as Hstep.
  { intros j node Hn. unfold net1.
    destruct (decide (j = j0)) as [->|Hj].
    - rewrite Hnode0 in Hn. injection Hn as <-.
      exists node0'. rewrite list_lookup_insert_eq by done. split; [done|].
      unfold node0'. split; [by apply DeleteChunk_reachable|]. split.
      + intros chunkID. rewrite DeleteChunk_lookup by done.
        case_decide as H1; case_decide as H2; try done.
        * destruct H2. by destruct H1.
        * destruct H1. by destruct H2 as (_ & ? & ?).
      + intros Hdown. by apply DeleteChunk_unreachable.
    - exists node. rewrite list_lookup_insert_ne by done. split; [done|].
      split; [done|]. split; [|done]. intros chunkID.
      case_decide as Hc; [by destruct Hc|done]. }
  split.
  - intros j node node' chunkID Hn Hn'.
    destruct (Hstep j node Hn) as (node1 & Hn1 & Hr1 & Hlook1 & Hdown1).
    destruct (Hnodes j node1 node' chunkID Hn1 Hn') as (Hmono & Hother & Hdown).
    split; [|split].
    + destruct Hmono as [Hmono|Hmono]; [by left|]. rewrite Hmono, Hlook1.
      destruct (decide (j = j0 ∧ Node.reachable node = true ∧
                        chunkID = FileChunk.ID c0)); [by left|by right].
    + intros Hids. rewrite Hother.
      * rewrite Hlook1.
        destruct (decide (j = j0 ∧ Node.reachable node = true ∧
                          chunkID = FileChunk.ID c0)) as [Hc|Hc]; [|done].
        destruct Hc as (_ & _ & ->). by destruct (Hids k0 c0 ltac:(left) Hc0).
      * intros k chunk Hin. apply Hids. by right.
    + intros Hoff. rewrite Hdown by congruence. by apply Hdown1.
  - intros k chunk node Hin Hk Hn Hr.
    destruct (decide (k ∈ sched)) as [Hin'|Hnin].
    { destruct (Hstep _ node Hn) as (node1 & Hn1 & Hr1 & _).
      apply (Hgone k chunk node1); [done..| |congruence]. by rewrite Hlen1. }
    apply elem_of_cons in Hin as [->|Hin]; [|done].
    rewrite Hc0 in Hk. injection Hk as <-. fold j0 in Hn.
    rewrite Hnode0 in Hn. injection Hn as <-.
    destruct (Hstep j0 node0 Hnode0) as (node1 & Hn1 & Hr1 & Hlook1 & _).
    assert (j0 < length net')%nat as Hj0'.
    { rewrite (reachable_length _ _ Hreach). lia. }
    destruct (lookup_lt_is_Some_2 net' j0 Hj0') as [node' Hn'].
    exists node'. unfold goneFromItsNode.
    rewrite (reachable_length _ _ Hreach), Hlen1. fold j0. split; [done|].
    destruct (Hnodes j0 node1 node' (FileChunk.ID c0) Hn1 Hn') as ([Hmono|Hmono] & _);
      [done|].
    rewrite Hmono, Hlook1.
    destruct (decide (j0 = j0 ∧ Node.reachable node0 = true ∧
                      FileChunk.ID c0 = FileChunk.ID c0)) as [Hc|Hc]; [done|].
    by destruct Hc.
Qed.

(** X15. Deleting a file removes its metadata whether or not the nodes
    answer: the call is answered with 200, after which the file's info,
    its download and a second delete are answered with 404, and the
    metadata of other files is untouched.  Deleting an unknown file id
    is answered with 404 and changes nothing. *)
Theorem deleteFile_then_not_found
    (s : StreamingAPIServer.t) net sched sched' fileID :
  net ≠ [] →
  (StreamingAPIServer.fileMetadata s !! fileID = None →
     StreamingAPIServer.deleteFile s net sched fileID
     = Responded {| status := StatusNotFound; content := BodyError None |} (s, net)) ∧
  (∀ metadata,
     StreamingAPIServer.fileMetadata s !! fileID = Some metadata →
     len (FileMetadata.Chunks metadata) ≤ int64_max →
     sched ≡ₚ seq 0 (length (FileMetadata.Chunks metadata)) →
     ∃ s' net',
       StreamingAPIServer.deleteFile s net sched fileID
       = Responded {| status := StatusOK; content := BodyAck |} (s', net') ∧
       status (StreamingAPIServer.getFileInfo s' fileID) = StatusNotFound ∧
       StreamingAPIServer.streamingDownloadFile s' net' sched' fileID
       = Responded {| status := StatusNotFound; content := BodyError None |} (s', net') ∧
       StreamingAPIServer.deleteFile s' net' sched' fileID
       = Responded {| status := StatusNotFound; content := BodyError None |} (s', net') ∧
       ∀ other, other ≠ fileID →
         StreamingAPIServer.fileMetadata s' !! other
         = StreamingAPIServer.fileMetadata s !! other).
Proof.
  intros Hne. split.
  { intros Hnone. unfold StreamingAPIServer.deleteFile. by rewrite Hnone. }
  intros metadata Hmeta Hlen Hsched.
  assert (Forall (λ k : nat, Z.of_nat k ≤ int64_max) sched) as Hb
    by (eapply sched_bound; [done|unfold len in Hlen; lia]).
  destruct (runDeletes_ok (FileMetadata.Chunks metadata) sched net Hne Hb)
    as (net' & Hrun).
  unfold StreamingAPIServer.deleteFile at 1. rewrite Hmeta, Hrun.
  eexists _, net'. split; [done|].
  unfold StreamingAPIServer.getFileInfo, StreamingAPIServer.streamingDownloadFile,
    StreamingAPIServer.deleteFile. cbn [StreamingAPIServer.fileMetadata].
  rewrite lookup_delete_eq. repeat split; try done.
  intros other Hother. by rewrite lookup_delete_ne.
Qed.

(** X16. What deleting a file does on the nodes, the ids of its chunks
    being plain path segments (as the ids [<uuid>_chunk_<i>] that an
    upload registers are, [upload_registers_plain_ids]; for other ids
    the requests need not reach the handler of the node): every chunk of
    the file is gone from its node
    when that node answers; a node that does not answer keeps everything
    (its chunks of the file are leaked); ids that no chunk of the file
    carries stay as they were on every node. *)
Theorem deleteFile_removes_chunks
    (s : StreamingAPIServer.t) net sched fileID metadata :
  StreamingAPIServer.fileMetadata s !! fileID = Some metadata →
  plainIDs (FileMetadata.Chunks metadata) →
  net ≠ [] →
  len (FileMetadata.Chunks metadata) ≤ int64_max →
  sched ≡ₚ seq 0 (length (FileMetadata.Chunks metadata)) →
  ∃ r s' net',
    StreamingAPIServer.deleteFile s net sched fileID = Responded r (s', net') ∧
    length net' = length net ∧
    (∀ (k : nat) chunk node,
       FileMetadata.Chunks metadata !! k = Some chunk →
       net !! (k `mod` length net)%nat = Some node → Node.reachable node = true →
       goneFromItsNode net' k chunk) ∧
    (∀ (j : nat) node, net !! j = Some node → Node.reachable node = false →
       net' !! j = Some node) ∧
    (∀ (j : nat) node node' chunkID,
       net !! j = Some node → net' !! j = Some node' →
       (∀ chunk, chunk ∈ FileMetadata.Chunks metadata → FileChunk.ID chunk ≠ chunkID) →
       MemoryStorage.chunks (Node.store node') !! chunkID
       = MemoryStorage.chunks (Node.store node) !! chunkID).
Proof.
  intros Hmeta Hplain Hne Hlen Hsched.
  assert (Forall (λ k : nat, Z.of_nat k ≤ int64_max) sched) as Hb
    by (eapply sched_bound; [done|unfold len in Hlen; lia]).
  destruct (runDeletes_spec (FileMetadata.Chunks metadata) sched net Hplain Hne Hb)
    as (net' & Hrun & Hreach & Hnodes & Hgone).
  unfold StreamingAPIServer.deleteFile. rewrite Hmeta, Hrun.
  eexists _, _, net'. split; [done|].
  assert (length net' = length net) as Hlen' by by apply reachable_length.
  split; [done|]. split; [|split].
  - intros k chunk node Hk Hn Hr. apply (Hgone k chunk node); [|done..].
    eapply sched_covers; [done|]. by apply lookup_lt_Some in Hk.
  - intros j node Hn Hoff.
    assert (j < length net')%nat as Hj by (rewrite Hlen'; by apply lookup_lt_Some in Hn).
    destruct (lookup_lt_is_Some_2 net' j Hj) as [node' Hn'].
    destruct (Hnodes j node node' "" Hn Hn') as (_ & _ & Hdown).
    by rewrite Hn', Hdown.
  - intros j node node' chunkID Hn Hn' Hids.
    destruct (Hnodes j node node' chunkID Hn Hn') as (_ & Hother & _).
    apply Hother. intros k chunk _ Hk. apply Hids. by eapply list_elem_of_lookup_2.
Qed.

Lemma HealthCheck_reachable (node : Node.t) :
  StorageClient.HealthCheck node = None ↔ Node.reachable node = true.
Proof.
  unfold StorageClient.HealthCheck, MemoryStorageServer.healthCheck.
  destruct (Node.reachable node); [|done]. cbn. by case_decide.
Qed.

Lemma healthCheck_loop_spec net : ∀ healthyServers,
  0 ≤ healthyServers → healthyServers + len net ≤ int64_max →
  StreamingAPIServer.healthCheck_loop net healthyServers
  = healthyServers + len (reachableNodes net).
Proof.
  induction net as [|node net IH]; intros acc Hacc Hmax;
    cbn [StreamingAPIServer.healthCheck_loop].
  { unfold reachableNodes, len. cbn. lia. }
  assert (len (node :: net) = 1 + len net) as Hlen by (unfold len; cbn; lia).
  rewrite Hlen in Hmax. pose proof (len_nonneg net).
  unfold reachableNodes. rewrite filter_cons.
  destruct (StorageClient.HealthCheck node) as [err|] eqn:Hh.
  - assert (Node.reachable node ≠ true) as Hoff.
    { intros Hr. apply HealthCheck_reachable in Hr. congruence. }
    case_decide; [done|]. apply IH; lia.
  - apply HealthCheck_reachable in Hh. case_decide; [|done].
    unfold add64. rewrite wrap64_id by int64_range.
    fold (reachableNodes net). rewrite IH by lia. unfold len. cbn. lia.
Qed.

(** X17. The coordinator's health report counts the nodes that answer:
    [healthy_servers] is their number, [total_servers] the number of
    configured nodes, and the status is "healthy" exactly when at least
    [ChunkCount] nodes answer, "degraded" otherwise; the answer is always
    200. *)
Theorem healthCheck_counts_reachable (s : StreamingAPIServer.t) net now :
  len net ≤ int64_max →
  let healthy := len (reachableNodes net) in
  StreamingAPIServer.healthCheck s net now
  = (StatusOK,
     {| HealthReport.status :=
          if decide (Config.ChunkCount (StreamingAPIServer.config s) ≤ healthy)
          then "healthy" else "degraded";
        HealthReport.healthy_servers := healthy;
        HealthReport.total_servers := len net;
        HealthReport.timestamp := now |}) ∧
  0 ≤ healthy ≤ len net.
Proof.
  intros Hmax healthy. unfold StreamingAPIServer.healthCheck.
  rewrite healthCheck_loop_spec by lia. rewrite Z.add_0_l. fold healthy. split.
  - do 2 f_equal. repeat case_decide; try done; lia.
  - unfold healthy, reachableNodes, len. pose proof (length_filter
      (λ node, Node.reachable node = true) net). lia.
Qed.

(** X18. [listFiles] lists every registered file id once and nothing
    else: an id is listed exactly when [getFileInfo] answers 200 for it,
    with the registered metadata. *)
Theorem listFiles_lists_registered (s : StreamingAPIServer.t) :
  (StreamingAPIServer.listFiles s).1 = StatusOK ∧
  NoDup (StreamingAPIServer.listFiles s).2 ∧
  ∀ fileID,
    fileID ∈ (StreamingAPIServer.listFiles s).2 ↔
    ∃ metadata,
      StreamingAPIServer.fileMetadata s !! fileID = Some metadata ∧
      StreamingAPIServer.getFileInfo s fileID
      = {| status := StatusOK; content := BodyMetadata metadata |}.
Proof.
  unfold StreamingAPIServer.listFiles, StreamingAPIServer.getFileInfo. cbn.
  split; [done|]. split; [apply NoDup_fst_map_to_list|].
  intros fileID. rewrite list_elem_of_fmap. split.
  - intros ([id metadata] & -> & Hin). apply elem_of_map_to_list in Hin.
    exists metadata. cbn. by rewrite Hin.
  - intros (metadata & Hmeta & _). exists (fileID, metadata).
    split; [done|]. by apply elem_of_map_to_list.
Qed.

End delete_more.

(** ** The further properties at work *)

Module MoreInstances.
Import Examples Samples.

Ltac check := first [reflexivity | lia | by vm_compute | done].

Lemma order_covers : order ≡ₚ seq 0 3.
Proof. exact (Permutation_cons_append [0; 1]%nat 2%nat). Qed.

Lemma ordered_indexed : indexed ordered.
Proof. intros [|[|[|i]]] chunk Hi; vm_compute in Hi; by simplify_eq. Qed.

Lemma ordered_plain : plainIDs ordered.
Proof.
  intros chunk Hin. unfold ordered in Hin.
  repeat (apply elem_of_cons in Hin as [->|Hin]; [by vm_compute|]).
  by apply elem_of_nil in Hin.
Qed.

(** X1 at seven bytes in three chunks. *)
Lemma split_chunks_validate_witness :
  fs_files disk !! "in.bin" = Some sevenBytes ∧
  0 < 3 ∧ 3 * sizeof FileChunk.t ≤ maxAlloc ∧ len sevenBytes ≤ maxAlloc ∧
  ∃ metadata chunks,
    chunking.ChunkFile (platform := toy) disk "in.bin" 3 "f" = Ok metadata ∧
    StreamingAPIServer.chunkFileInMemory (platform := toy) sevenBytes "f" 3 = Ok chunks ∧
    Forall (λ chunk, chunking.ValidateChunk (platform := toy) chunk = None)
      (FileMetadata.Chunks metadata) ∧
    Forall (λ chunk, chunking.ValidateChunk (platform := toy) chunk = None) chunks.
Proof.
  repeat (split; [check|]).
  apply (split_chunks_validate (platform := toy) disk "in.bin" sevenBytes 3 "f"); check.
Defined.

(** X2 at seven bytes in three chunks. *)
Lemma split_metadata_validates_witness :
  fs_files disk !! "in.bin" = Some sevenBytes ∧
  0 < 3 ∧ 3 * sizeof FileChunk.t ≤ maxAlloc ∧ len sevenBytes ≤ maxAlloc ∧
  ∃ metadata,
    chunking.ChunkFile (platform := toy) disk "in.bin" 3 "f" = Ok metadata ∧
    chunking.ValidateFileMetadata metadata = None.
Proof.
  repeat (split; [check|]).
  apply (split_metadata_validates (platform := toy) disk "in.bin" sevenBytes 3 "f"); check.
Defined.

(** X3 at seven bytes in three chunks. *)
Lemma split_chunk_ids_distinct_witness :
  0 < 3 ∧ 3 * sizeof FileChunk.t ≤ maxAlloc ∧ len sevenBytes ≤ int64_max ∧
  ∃ chunks,
    StreamingAPIServer.chunkFileInMemory (platform := toy) sevenBytes "f" 3 = Ok chunks ∧
    NoDup (FileChunk.ID <$> chunks) ∧
    ∀ (i : nat) chunk, chunks !! i = Some chunk →
      FileChunk.ID chunk = chunking.chunkID "f" (Z.of_nat i).
Proof.
  repeat (split; [check|]).
  apply (split_chunk_ids_distinct (platform := toy) sevenBytes 3 "f"); check.
Defined.

(** X4 at the three chunks in reverse order. *)
Lemma reconstruct_any_order_witness :
  fs_files disk !! "in.bin" = Some sevenBytes ∧
  0 < 3 ∧ 3 * sizeof FileChunk.t ≤ maxAlloc ∧ len sevenBytes ≤ maxAlloc ∧
  ("out.bin" ∉ fs_locked disk) ∧
  ∃ metadata,
    chunking.ChunkFile (platform := toy) disk "in.bin" 3 "f" = Ok metadata ∧
    (reversed ≡ₚ FileMetadata.Chunks metadata →
     chunking.ReconstructFile disk reversed "out.bin"
     = (None, {| fs_files := <["out.bin" := sevenBytes]> (fs_files disk);
                 fs_locked := fs_locked disk |})).
Proof.
  repeat (split; [check|]).
  apply (reconstruct_any_order (platform := toy)
           disk "in.bin" "out.bin" sevenBytes 3 "f" reversed); check.
Defined.

(** The run behind X4. *)
Example reconstruct_reversed :
  chunking.ChunkFile (platform := toy) disk "in.bin" 3 "f"
  = Ok {| FileMetadata.ID := "f"; FileMetadata.OriginalName := "in.bin";
          FileMetadata.Size := 7; FileMetadata.Checksum := "7";
          FileMetadata.ChunkCount := 3; FileMetadata.Chunks := ordered;
          FileMetadata.ContentType := "" |} ∧
  reversed ≡ₚ ordered ∧
  (chunking.ReconstructFile disk reversed "out.bin").1 = None ∧
  fs_files (chunking.ReconstructFile disk reversed "out.bin").2 !! "out.bin"
  = Some sevenBytes.
Proof.
  split; [by vm_compute|]. split; [|by vm_compute].
  exact (reverse_Permutation ordered).
Qed.

(** X5 at the three chunks with the second one omitted. *)
Lemma reconstruct_missing_chunk_witness :
  indexed ordered ∧ (2 < length ordered)%nat ∧ [third; first] ≡ₚ delete 1%nat ordered ∧
  chunking.ReconstructFile disk [third; first] "out.bin"
  = (Some (ErrMissingChunk (Z.of_nat 1)), disk).
Proof.
  split; [exact ordered_indexed|]. split; [check|].
  split; [apply perm_swap|].
  apply (reconstruct_missing_chunk disk ordered [third; first] "out.bin" 1);
    [exact ordered_indexed|check|apply perm_swap].
Defined.

(** X6 at the first two of the three chunks. *)
Lemma reconstruct_truncated_witness :
  fs_files disk !! "in.bin" = Some sevenBytes ∧
  0 < 3 ∧ 3 * sizeof FileChunk.t ≤ maxAlloc ∧ len sevenBytes ≤ maxAlloc ∧
  ("out.bin" ∉ fs_locked disk) ∧ (0 < 2)%nat ∧ Z.of_nat 2 < 3 ∧
  ∃ metadata,
    chunking.ChunkFile (platform := toy) disk "in.bin" 3 "f" = Ok metadata ∧
    ([second; first] ≡ₚ take 2 (FileMetadata.Chunks metadata) →
     chunking.ReconstructFile disk [second; first] "out.bin"
     = (None,
        {| fs_files :=
             <["out.bin" := take (Z.to_nat (Z.of_nat 2 * (len sevenBytes `div` 3)))
                              sevenBytes]> (fs_files disk);
           fs_locked := fs_locked disk |})).
Proof.
  repeat (split; [check|]).
  apply (reconstruct_truncated (platform := toy)
           disk "in.bin" "out.bin" sevenBytes 3 "f" [second; first] 2); check.
Defined.

(** The run behind X6: four of the seven bytes come out, with no error. *)
Example reconstruct_first_two :
  chunking.ReconstructFile disk [second; first] "out.bin"
  = (None,
     {| fs_files := <["out.bin" := [Byte.x01; Byte.x02; Byte.x03; Byte.x04]]>
                      (fs_files disk);
        fs_locked := ∅ |}).
Proof. by vm_compute. Qed.


(** The run behind X11, and why the id matters: a chunk stored under
    the id [a/b] is on the node, and the request for it finds no
    route. *)
Example client_get_needs_a_plain_id :
  let node' := (StorageClient.StoreChunk (platform := toy) up first).2 in
  StorageClient.GetChunk (routing := unrouted) node' "f_chunk_0" = Ok first ∧
  let node' := (StorageClient.StoreChunk (platform := toy) up slashed).2 in
  (StorageClient.StoreChunk (platform := toy) up slashed).1 = None ∧
  MemoryStorage.chunks (Node.store node') !! "a/b" = Some slashed ∧
  StorageClient.GetChunk (routing := unrouted) node' "a/b"
  = Err (ErrServerStatus 404).
Proof. by vm_compute. Qed.

(** X12 at an upload of seven bytes in three chunks to two nodes. *)
Lemma upload_then_download_witness :
  len (FormFile.bytes form) ≤ Config.MaxFileSize (StreamingAPIServer.config server) ∧
  len (FormFile.bytes form) ≤ int64_max ∧
  0 < 3 ∧ 3 * sizeof FileChunk.t ≤ maxAlloc ∧ plainSegment "f" = true ∧
  network ≠ [] ∧
  Forall (λ node, Node.reachable node = true) network ∧
  order ≡ₚ seq 0 (Z.to_nat 3) ∧ reverse order ≡ₚ seq 0 (Z.to_nat 3) ∧
  ∃ metadata s' net',
    StreamingAPIServer.streamingUploadFile (platform := toy)
      server network order "f" (Some form)
    = Responded {| status := StatusOK; content := BodyMetadata metadata |} (s', net') ∧
    StreamingAPIServer.streamingDownloadFile (routing := unrouted)
      s' net' (reverse order) "f"
    = Responded
        {| status := StatusOK;
           content := BodyFile "in.bin" "application/octet-stream" sevenBytes |}
        (s', net').
Proof.
  assert (Forall (λ node, Node.reachable node = true) network) as Hup
    by (by repeat constructor).
  assert (reverse order ≡ₚ seq 0 (Z.to_nat 3)) as Hrev
    by (rewrite reverse_Permutation; exact order_covers).
  repeat (split; [first [exact order_covers | check]|]).
  apply (upload_then_download (platform := toy) (routing := unrouted)
           server network order (reverse order) "f" form);
    first [exact order_covers | check].
Defined.

(** X13 at an upload to two nodes, the second one down. *)
Lemma failed_upload_leaves_chunks_witness :
  len (FormFile.bytes form) ≤ Config.MaxFileSize (StreamingAPIServer.config server) ∧
  len (FormFile.bytes form) ≤ int64_max ∧
  0 < 3 ∧ 3 * sizeof FileChunk.t ≤ maxAlloc ∧ degraded ≠ [] ∧
  order ≡ₚ seq 0 (Z.to_nat 3) ∧
  ∃ chunks r s' net',
    StreamingAPIServer.chunkFileInMemory (platform := toy) sevenBytes "f" 3 = Ok chunks ∧
    StreamingAPIServer.streamingUploadFile (platform := toy)
      server degraded order "f" (Some form)
    = Responded r (s', net') ∧
    (∀ (k : nat) chunk, chunks !! k = Some chunk →
       storedAtItsNode (platform := toy) degraded k chunk → heldAtItsNode net' k chunk) ∧
    ((∃ (k : nat) chunk,
        chunks !! k = Some chunk ∧ ¬ storedAtItsNode (platform := toy) degraded k chunk) →
       status r = StatusInternalServerError ∧ s' = server).
Proof.
  repeat (split; [first [exact order_covers | check]|]).
  apply (failed_upload_leaves_chunks (platform := toy)
           server degraded order "f" form);
    first [exact order_covers | check].
Defined.

Lemma second_not_fetched chunk :
  ¬ fetchedFromItsNode (routing := unrouted) halved 1 second chunk.
Proof. intros (node & Hnode & Hget). vm_compute in Hnode. by simplify_eq. Qed.

(** X14 at the stocked nodes with the second one down. *)
Lemma download_needs_every_chunk_witness :
  StreamingAPIServer.fileMetadata keeper !! "f" = Some splitFile ∧
  halved ≠ [] ∧
  len (FileMetadata.Chunks splitFile) ≤ int64_max ∧
  order ≡ₚ seq 0 (length (FileMetadata.Chunks splitFile)) ∧
  (∃ (k : nat) chunkMeta,
     FileMetadata.Chunks splitFile !! k = Some chunkMeta ∧
     ∀ chunk, ¬ fetchedFromItsNode (routing := unrouted) halved k chunkMeta chunk) ∧
  ∃ err,
    StreamingAPIServer.streamingDownloadFile (routing := unrouted)
      keeper halved order "f"
    = Responded {| status := StatusInternalServerError;
                   content := BodyError (Some err) |} (keeper, halved).
Proof.
  assert (∃ (k : nat) chunkMeta,
            FileMetadata.Chunks splitFile !! k = Some chunkMeta ∧
            ∀ chunk, ¬ fetchedFromItsNode (routing := unrouted)
                        halved k chunkMeta chunk) as Hmiss.
  { exists 1%nat, second. split; [done|]. exact second_not_fetched. }
  repeat (split; [first [exact order_covers | exact Hmiss | check]|]).
  apply (download_needs_every_chunk (routing := unrouted)
           keeper halved order "f" splitFile);
    first [exact order_covers | exact Hmiss | check].
Defined.

(** X15 at the stocked nodes. *)
Lemma deleteFile_then_not_found_witness :
  stocked ≠ [] ∧
  (StreamingAPIServer.fileMetadata keeper !! "f" = None →
     StreamingAPIServer.deleteFile (routing := unrouted) keeper stocked order "f"
     = Responded {| status := StatusNotFound; content := BodyError None |}
         (keeper, stocked)) ∧
  (∀ metadata,
     StreamingAPIServer.fileMetadata keeper !! "f" = Some metadata →
     len (FileMetadata.Chunks metadata) ≤ int64_max →
     order ≡ₚ seq 0 (length (FileMetadata.Chunks metadata)) →
     ∃ s' net',
       StreamingAPIServer.deleteFile (routing := unrouted) keeper stocked order "f"
       = Responded {| status := StatusOK; content := BodyAck |} (s', net') ∧
       status (StreamingAPIServer.getFileInfo s' "f") = StatusNotFound ∧
       StreamingAPIServer.streamingDownloadFile (routing := unrouted) s' net' order "f"
       = Responded {| status := StatusNotFound; content := BodyError None |} (s', net') ∧
       StreamingAPIServer.deleteFile (routing := unrouted) s' net' order "f"
       = Responded {| status := StatusNotFound; content := BodyError None |} (s', net') ∧
       ∀ other, other ≠ "f" →
         StreamingAPIServer.fileMetadata s' !! other
         = StreamingAPIServer.fileMetadata keeper !! other).
Proof.
  split; [check|].
  apply (deleteFile_then_not_found (routing := unrouted)
           keeper stocked order order "f"); check.
Defined.

(** X16 at the stocked nodes. *)
Lemma deleteFile_removes_chunks_witness :
  StreamingAPIServer.fileMetadata keeper !! "f" = Some splitFile ∧
  plainIDs (FileMetadata.Chunks splitFile) ∧
  stocked ≠ [] ∧
  len (FileMetadata.Chunks splitFile) ≤ int64_max ∧
  order ≡ₚ seq 0 (length (FileMetadata.Chunks splitFile)) ∧
  ∃ r s' net',
    StreamingAPIServer.deleteFile (routing := unrouted) keeper stocked order "f"
    = Responded r (s', net') ∧
    length net' = length stocked ∧
    (∀ (k : nat) chunk node,
       FileMetadata.Chunks splitFile !! k = Some chunk →
       stocked !! (k `mod` length stocked)%nat = Some node →
       Node.reachable node = true →
       goneFromItsNode net' k chunk) ∧
    (∀ (j : nat) node, stocked !! j = Some node → Node.reachable node = false →
       net' !! j = Some node) ∧
    (∀ (j : nat) node node' chunkID,
       stocked !! j = Some node → net' !! j = Some node' →
       (∀ chunk, chunk ∈ FileMetadata.Chunks splitFile → FileChunk.ID chunk ≠ chunkID) →
       MemoryStorage.chunks (Node.store node') !! chunkID
       = MemoryStorage.chunks (Node.store node) !! chunkID).
Proof.
  repeat (split; [first [exact order_covers | exact ordered_plain | check]|]).
  apply (deleteFile_removes_chunks (routing := unrouted)
           keeper stocked order "f" splitFile);
    first [exact order_covers | exact ordered_plain | check].
Defined.

(** The runs behind X15 and X16: with both nodes up the stores end
    empty; with the second node down its chunk is leaked, and the delete
    is answered with 200 all the same. *)
Example deleteFile_on_stocked_nodes :
  StreamingAPIServer.deleteFile (routing := unrouted) keeper stocked order "f"
  = Responded {| status := 200; content := BodyAck |}
      (StreamingAPIServer.mk (Config.mk 1024 3) ∅,
       [Node.mk true (MemoryStorage.mk ∅); Node.mk true (MemoryStorage.mk ∅)]) ∧
  StreamingAPIServer.deleteFile (routing := unrouted) keeper halved order "f"
  = Responded {| status := 200; content := BodyAck |}
      (StreamingAPIServer.mk (Config.mk 1024 3) ∅,
       [Node.mk true (MemoryStorage.mk ∅); Node.mk false odds]).
Proof. by vm_compute. Qed.

(** Why the ids matter for X16: a chunk registered under the id [a/b]
    stays on its node, which answers; the request to delete it finds no
    route, the 404 counts as success and the file is gone from the
    coordinator. *)
Example deleteFile_needs_plain_ids :
  StreamingAPIServer.deleteFile (routing := unrouted) slashedKeeper slashedNodes
    [0%nat] "f"
  = Responded {| status := 200; content := BodyAck |}
      (StreamingAPIServer.mk (Config.mk 1024 1) ∅, slashedNodes) ∧
  (∃ node, slashedNodes !! 0%nat = Some node ∧ Node.reachable node = true ∧
     MemoryStorage.chunks (Node.store node) !! "a/b" = Some slashed) ∧
  ¬ plainIDs [slashed].
Proof.
  split; [by vm_compute|]. split; [by eexists|].
  intros Hplain. by specialize (Hplain slashed ltac:(left)).
Qed.

(** X17 at two nodes, one of them down, and three chunks per file. *)
Lemma healthCheck_counts_reachable_witness :
  len degraded ≤ int64_max ∧
  StreamingAPIServer.healthCheck server degraded 1700000000
  = (StatusOK,
     {| HealthReport.status :=
          if decide (Config.ChunkCount (StreamingAPIServer.config server)
                     ≤ len (reachableNodes degraded))
          then "healthy" else "degraded";
        HealthReport.healthy_servers := len (reachableNodes degraded);
        HealthReport.total_servers := len degraded;
        HealthReport.timestamp := 1700000000 |}) ∧
  0 ≤ len (reachableNodes degraded) ≤ len degraded.
Proof.
  split; [check|].
  apply (healthCheck_counts_reachable server degraded 1700000000); check.
Defined.

(** The run behind X17: one node of two answers, three are needed. *)
Example healthCheck_degraded :
  StreamingAPIServer.healthCheck server degraded 1700000000
  = (200, HealthReport.mk "degraded" 1 2 1700000000).
Proof. by vm_compute. Qed.

(** X19 at an upload of seven bytes in three chunks to two nodes. *)
Lemma upload_answers_valid_metadata_witness :
  ∃ metadata s' net',
    0 < 3 ∧ 3 ≤ int64_max ∧ len sevenBytes ≤ int64_max ∧
    StreamingAPIServer.streamingUploadFile (platform := toy)
      server network order "f" (Some form)
    = Responded {| status := StatusOK; content := BodyMetadata metadata |} (s', net') ∧
    chunking.ValidateFileMetadata metadata = None ∧
    Forall (λ chunk, chunking.ValidateChunk (platform := toy) chunk = None)
      (FileMetadata.Chunks metadata) ∧
    payloads (FileMetadata.Chunks metadata) = sevenBytes ∧
    StreamingAPIServer.fileMetadata s' !! "f" = Some metadata.
Proof.
  eexists _, _, _.
  repeat (split; [first [by vm_compute | check]|]).
  eapply (upload_answers_valid_metadata (platform := toy)
            server _ network _ order "f" form); first [by vm_compute | check].
Defined.

End MoreInstances.
